(** * A model of [flexible_shared_memory/shared_memory.py]

    The shared region is a byte buffer that several handles mutate in place.
    It is modelled as a [list Z] threaded through a state-and-exception monad:
    a Python exception aborts the call but keeps every byte written before it,
    exactly as the interpreter does.

    Conventions.
    - Python integers are [Z]; offsets, sizes and indices, which the code only
      ever computes as non-negative numbers, are [nat].
    - A Python [float] and every numpy element is carried by its bit pattern
      (an unsigned integer of the element width); the code never computes with
      them, it only copies them.
    - A Python [str] is the list of its code points.
    - Python dictionaries keyed by field name are [gmap string _]. *)

From Stdlib Require Import ZArith Lia Bool Ascii String.
From stdpp Require Import base option list gmap strings.

Local Open Scope nat_scope.

(** ** Outcomes of a call *)

Inductive exn : Type :=
| ValueError | RuntimeError | OverflowError | IndexError
| TypeError | AttributeError | UnicodeEncodeError.

(** [Spin] is the outcome of a polling loop that is still running when the
    iteration budget given to the model ends. *)
Inductive outcome (A : Type) : Type :=
| Ok (a : A)
| Raise (e : exn)
| Spin.
Arguments Ok {A} a.
Arguments Raise {A} e.
Arguments Spin {A}.

(** The monad: the shared buffer is the state and survives an exception. *)
Definition M (A : Type) : Type := list Z -> outcome A * list Z.

Definition ret {A} (a : A) : M A := fun buf => (Ok a, buf).
Definition raise {A} (e : exn) : M A := fun buf => (Raise e, buf).
Definition lift {A} (r : outcome A) : M A := fun buf => (r, buf).
Definition bind {A B} (m : M A) (k : A -> M B) : M B :=
  fun buf =>
    match m buf with
    | (Ok a, buf') => k a buf'
    | (Raise e, buf') => (Raise e, buf')
    | (Spin, buf') => (Spin, buf')
    end.

Notation "x <~ m ; k" := (bind m (fun x => k))
  (at level 20, m at level 100, k at level 200, only parsing).
Notation "' p <~ m ; k" := (bind m (fun p => k))
  (at level 20, p pattern, m at level 100, k at level 200, only parsing).
Notation "m >> k" := (bind m (fun _ => k))
  (at level 100, k at level 200, right associativity, only parsing).

(** [for idx, x in enumerate(l, start=idx)] with a loop-carried value. *)
Fixpoint fold_enumerate {A T} (body : nat -> A -> T -> M T)
    (idx : nat) (l : list A) (s : T) : M T :=
  match l with
  | [] => ret s
  | x :: rest => s' <~ body idx x s ; fold_enumerate body (S idx) rest s'
  end.

Definition for_enumerate {A} (body : nat -> A -> M unit) (idx : nat) (l : list A)
    : M unit :=
  fold_enumerate (fun i x _ => body i x) idx l tt.

(** ** The memoryview [shm.buf] *)

Definition is_byte (v : Z) : bool := ((0 <=? v) && (v <? 256))%Z.

(** [buf[i]] *)
Definition buf_getitem (i : nat) : M Z :=
  fun buf =>
    match buf !! i with
    | Some v => (Ok v, buf)
    | None => (Raise IndexError, buf)
    end.

(** [buf[i] = v] *)
Definition buf_setitem (i : nat) (v : Z) : M unit :=
  fun buf =>
    if decide (i < length buf) then
      if is_byte v then (Ok tt, <[i := v]> buf) else (Raise ValueError, buf)
    else (Raise IndexError, buf).

(** [buf[start:stop]] with [stop = start + n]: slices are clipped, never raise. *)
Definition slice (start n : nat) (buf : list Z) : list Z := take n (drop start buf).

Definition buf_getslice (start n : nat) : M (list Z) :=
  fun buf => (Ok (slice start n buf), buf).

(** [buf[start:start+len(bs)] = bs]: a memoryview cannot be resized, so the
    assignment raises unless the clipped slice has the length of [bs]. *)
Definition buf_setslice (start : nat) (bs : list Z) : M unit :=
  fun buf =>
    if decide (start + length bs <= length buf) then
      (Ok tt, take start buf ++ bs ++ drop (start + length bs) buf)
    else (Raise ValueError, buf).

(** ** Integers as little-endian bytes *)

(** The [n] low bytes of [v], least significant first. *)
Fixpoint le_bytes (n : nat) (v : Z) : list Z :=
  match n with
  | O => []
  | S k => (v mod 256)%Z :: le_bytes k (v / 256)%Z
  end.

(** [value.to_bytes(n, 'little')] *)
Definition to_bytes (n : nat) (value : Z) : outcome (list Z) :=
  if ((0 <=? value) && (value <? 256 ^ Z.of_nat n))%Z
  then Ok (le_bytes n value) else Raise OverflowError.

(** [int.from_bytes(bs, 'little')] *)
Fixpoint from_bytes (bs : list Z) : Z :=
  match bs with
  | [] => 0%Z
  | b :: rest => (b + 256 * from_bytes rest)%Z
  end.

(** ** numpy: element types and views on the buffer *)

Inductive dtype : Type :=
| float32 | float64 | int8 | int16 | int32 | int64
| uint8 | uint16 | uint32 | uint64 | bool_.

Global Instance dtype_eq_dec : EqDecision dtype.
Proof. solve_decision. Defined.

Definition itemsize (dt : dtype) : nat :=
  match dt with
  | float32 => 4 | float64 => 8
  | int8 => 1 | int16 => 2 | int32 => 4 | int64 => 8
  | uint8 => 1 | uint16 => 2 | uint32 => 4 | uint64 => 8
  | bool_ => 1
  end.

(** An [np.ndarray]: element type, shape and the elements in row-major order,
    each by its bit pattern. *)
Record ndarray : Type := {
  a_dtype : dtype;
  a_shape : list nat;
  a_data : list Z
}.

Global Instance ndarray_eq_dec : EqDecision ndarray.
Proof. solve_decision. Defined.

(** [int(np.prod(shape))] *)
Definition np_prod (shape : list nat) : nat := foldr Nat.mul 1 shape.

(** [np.ndarray(count, dtype=dt, buffer=buf, offset=offset)]: numpy refuses a
    view that does not fit in the buffer. *)
Definition np_view (count : nat) (dt : dtype) (offset : nat) : M unit :=
  fun buf =>
    if decide (offset + count * itemsize dt <= length buf)
    then (Ok tt, buf) else (Raise TypeError, buf).

(** [view[:] = elems], where [view] has [length elems] elements. *)
Definition np_view_store (dt : dtype) (offset : nat) (elems : list Z) : M unit :=
  np_view (length elems) dt offset >>
  buf_setslice offset (mjoin (le_bytes (itemsize dt) <$> elems)).

(** The elements of a view, copied out. *)
Fixpoint chunks (k : nat) (count : nat) (bs : list Z) : list (list Z) :=
  match count with
  | O => []
  | S c => take k bs :: chunks k c (drop k bs)
  end.

Definition np_view_load (count : nat) (dt : dtype) (offset : nat) : M (list Z) :=
  np_view count dt offset >>
  bs <~ buf_getslice offset (count * itemsize dt) ;
  ret (from_bytes <$> chunks (itemsize dt) count bs).

(** ** Python values handed to [write] and returned by [read] *)

Inductive pyvalue : Type :=
| PyFloat (bits : Z)          (* a float, by its binary64 bit pattern *)
| PyInt (n : Z)
| PyBool (b : bool)
| PyStr (s : list Z)          (* the code points *)
| PyArray (a : ndarray).

Global Instance pyvalue_eq_dec : EqDecision pyvalue.
Proof. solve_decision. Defined.

(** ** UTF-8, as CPython encodes and decodes it *)

Definition is_surrogate (c : Z) : bool := ((0xD800 <=? c) && (c <=? 0xDFFF))%Z.

(** [str.encode('utf-8')] on one code point; strict, so a surrogate is an
    error.  A Python [str] holds code points up to 0x10FFFF only. *)
Definition utf8_encode_char (ch : Z) : option (list Z) :=
  if (ch <? 0)%Z then None
  else if (ch <? 0x80)%Z then Some [ch]
  else if (ch <? 0x800)%Z then
    Some [Z.lor 0xC0 (Z.shiftr ch 6); Z.lor 0x80 (Z.land ch 0x3F)]
  else if is_surrogate ch then None
  else if (ch <? 0x10000)%Z then
    Some [Z.lor 0xE0 (Z.shiftr ch 12);
          Z.lor 0x80 (Z.land (Z.shiftr ch 6) 0x3F);
          Z.lor 0x80 (Z.land ch 0x3F)]
  else if (ch <=? 0x10FFFF)%Z then
    Some [Z.lor 0xF0 (Z.shiftr ch 18);
          Z.lor 0x80 (Z.land (Z.shiftr ch 12) 0x3F);
          Z.lor 0x80 (Z.land (Z.shiftr ch 6) 0x3F);
          Z.lor 0x80 (Z.land ch 0x3F)]
  else None.

Fixpoint utf8_encode (s : list Z) : outcome (list Z) :=
  match s with
  | [] => Ok []
  | ch :: rest =>
      match utf8_encode_char ch with
      | None => Raise UnicodeEncodeError
      | Some bs =>
          match utf8_encode rest with
          | Ok bs' => Ok (bs ++ bs')
          | other => other
          end
      end
  end.

(** [IS_CONTINUATION_BYTE] *)
Definition is_cont (ch : Z) : bool := ((0x80 <=? ch) && (ch <? 0xC0))%Z.

(** Second byte of a three-byte sequence that cannot continue lead [ch]:
    not a continuation byte, an overlong form, or a surrogate. *)
Definition bad_second3 (ch ch2 : Z) : bool :=
  negb (is_cont ch2) ||
  (if (ch2 <? 0xA0)%Z then (ch =? 0xE0)%Z else (ch =? 0xED)%Z).

(** Second byte of a four-byte sequence that cannot continue lead [ch]:
    not a continuation byte, an overlong form, or beyond 0x10FFFF. *)
Definition bad_second4 (ch ch2 : Z) : bool :=
  negb (is_cont ch2) ||
  (if (ch2 <? 0x90)%Z then (ch =? 0xF0)%Z else (ch =? 0xF4)%Z).

(** [bytes.decode('utf-8', errors='ignore')].  The decoder reports an invalid
    start byte (one byte), an invalid continuation byte (the bytes before it)
    or an unexpected end of data (everything that is left); the [ignore]
    handler drops the reported bytes and decoding resumes behind them. *)
Fixpoint utf8_decode_ignore (bs : list Z) : list Z :=
  match bs with
  | [] => []
  | ch :: t1 =>
      if (ch <? 0x80)%Z then ch :: utf8_decode_ignore t1
      else if (ch <? 0xE0)%Z then
        if (ch <? 0xC2)%Z then utf8_decode_ignore t1
        else
          match t1 with
          | [] => []
          | ch2 :: t2 =>
              if negb (is_cont ch2) then utf8_decode_ignore t1
              else (Z.shiftl ch 6 + ch2 - (Z.shiftl 0xC0 6 + 0x80))%Z
                     :: utf8_decode_ignore t2
          end
      else if (ch <? 0xF0)%Z then
        match t1 with
        | [] => []
        | ch2 :: t2 =>
            if bad_second3 ch ch2 then utf8_decode_ignore t1
            else
              match t2 with
              | [] => []
              | ch3 :: t3 =>
                  if negb (is_cont ch3) then utf8_decode_ignore t2
                  else (Z.shiftl ch 12 + Z.shiftl ch2 6 + ch3
                        - (Z.shiftl 0xE0 12 + Z.shiftl 0x80 6 + 0x80))%Z
                         :: utf8_decode_ignore t3
              end
        end
      else if (ch <? 0xF5)%Z then
        match t1 with
        | [] => []
        | ch2 :: t2 =>
            if bad_second4 ch ch2 then utf8_decode_ignore t1
            else
              match t2 with
              | [] => []
              | ch3 :: t3 =>
                  if negb (is_cont ch3) then utf8_decode_ignore t2
                  else
                    match t3 with
                    | [] => []
                    | ch4 :: t4 =>
                        if negb (is_cont ch4) then utf8_decode_ignore t3
                        else (Z.shiftl ch 18 + Z.shiftl ch2 12 + Z.shiftl ch3 6 + ch4
                              - (Z.shiftl 0xF0 18 + Z.shiftl 0x80 12
                                 + Z.shiftl 0x80 6 + 0x80))%Z
                               :: utf8_decode_ignore t4
                    end
              end
        end
      else utf8_decode_ignore t1
  end.

(** The decoder the specification describes instead: every reported error
    yields one U+FFFD ([errors='replace']). *)
Fixpoint utf8_decode_replace (bs : list Z) : list Z :=
  match bs with
  | [] => []
  | ch :: t1 =>
      if (ch <? 0x80)%Z then ch :: utf8_decode_replace t1
      else if (ch <? 0xE0)%Z then
        if (ch <? 0xC2)%Z then 0xFFFD%Z :: utf8_decode_replace t1
        else
          match t1 with
          | [] => [0xFFFD%Z]
          | ch2 :: t2 =>
              if negb (is_cont ch2) then 0xFFFD%Z :: utf8_decode_replace t1
              else (Z.shiftl ch 6 + ch2 - (Z.shiftl 0xC0 6 + 0x80))%Z
                     :: utf8_decode_replace t2
          end
      else if (ch <? 0xF0)%Z then
        match t1 with
        | [] => [0xFFFD%Z]
        | ch2 :: t2 =>
            if bad_second3 ch ch2 then 0xFFFD%Z :: utf8_decode_replace t1
            else
              match t2 with
              | [] => [0xFFFD%Z]
              | ch3 :: t3 =>
                  if negb (is_cont ch3) then 0xFFFD%Z :: utf8_decode_replace t2
                  else (Z.shiftl ch 12 + Z.shiftl ch2 6 + ch3
                        - (Z.shiftl 0xE0 12 + Z.shiftl 0x80 6 + 0x80))%Z
                         :: utf8_decode_replace t3
              end
        end
      else if (ch <? 0xF5)%Z then
        match t1 with
        | [] => [0xFFFD%Z]
        | ch2 :: t2 =>
            if bad_second4 ch ch2 then 0xFFFD%Z :: utf8_decode_replace t1
            else
              match t2 with
              | [] => [0xFFFD%Z]
              | ch3 :: t3 =>
                  if negb (is_cont ch3) then 0xFFFD%Z :: utf8_decode_replace t2
                  else
                    match t3 with
                    | [] => [0xFFFD%Z]
                    | ch4 :: t4 =>
                        if negb (is_cont ch4) then 0xFFFD%Z :: utf8_decode_replace t3
                        else (Z.shiftl ch 18 + Z.shiftl ch2 12 + Z.shiftl ch3 6 + ch4
                              - (Z.shiftl 0xF0 18 + Z.shiftl 0x80 12
                                 + Z.shiftl 0x80 6 + 0x80))%Z
                               :: utf8_decode_replace t4
                    end
              end
        end
      else 0xFFFD%Z :: utf8_decode_replace t1
  end.

(** ** [FieldStatus] and [ValueWithStatus] *)

Definition MASK_TRUNCATED : Z := 1.
Definition MASK_UNWRITTEN : Z := 2.
Definition MASK_MODIFIED : Z := 4.

(** [bool(x)] for a Python integer *)
Definition truthy (x : Z) : bool := negb (x =? 0)%Z.

(** A [FieldStatus] holds the status byte. *)
Definition is_truncated (status : Z) : bool := truthy (Z.land status MASK_TRUNCATED).
Definition is_unwritten (status : Z) : bool := truthy (Z.land status MASK_UNWRITTEN).
Definition is_modified (status : Z) : bool := truthy (Z.land status MASK_MODIFIED).
Definition is_valid (status : Z) : bool :=
  negb (is_truncated status || is_unwritten status).

Record ValueWithStatus : Type := {
  value : pyvalue;
  _status : Z
}.

Definition valid (v : ValueWithStatus) : bool := is_valid (_status v).
Definition modified (v : ValueWithStatus) : bool := is_modified (_status v).
Definition truncated (v : ValueWithStatus) : bool := is_truncated (_status v).
Definition unwritten (v : ValueWithStatus) : bool := is_unwritten (_status v).

(** ** [_AnnotationParser] *)

(** A field's declared type: one of the three scalar classes, a string
    annotation, or any other object, of which only [str()] matters. *)
Inductive pytype : Type :=
| TyFloat | TyInt | TyBool
| TyAnnot (s : string)
| TyOther (str : string).

(** [str(field_type)] *)
Definition annotation_of (ty : pytype) : string :=
  match ty with
  | TyFloat => "<class 'float'>"
  | TyInt => "<class 'int'>"
  | TyBool => "<class 'bool'>"
  | TyAnnot s => s
  | TyOther s => s
  end.

(** [\d], on the ASCII annotations of this model *)
Definition is_digit (c : ascii) : bool :=
  (48 <=? nat_of_ascii c) && (nat_of_ascii c <=? 57).

Fixpoint strip_prefix (p s : string) : option string :=
  match p with
  | EmptyString => Some s
  | String a p' =>
      match s with
      | String b s' => if Ascii.eqb a b then strip_prefix p' s' else None
      | EmptyString => None
      end
  end.

(** The longest prefix whose characters satisfy [f], and the rest: what a
    greedy [+] or [*] takes. *)
Fixpoint span (f : ascii -> bool) (s : string) : string * string :=
  match s with
  | String c r =>
      if f c then let '(a, b) := span f r in (String c a, b)
      else (EmptyString, s)
  | EmptyString => (EmptyString, EmptyString)
  end.

Fixpoint int_digits (acc : nat) (s : string) : nat :=
  match s with
  | EmptyString => acc
  | String c r => int_digits (acc * 10 + (nat_of_ascii c - 48)) r
  end.

(** [int(s)] for a string of digits: the empty string is not a literal. *)
Definition py_int (s : string) : outcome nat :=
  if String.eqb s "" then Raise ValueError else Ok (int_digits 0 s).

(** [s.split(',')] *)
Fixpoint split_comma (s : string) : list string :=
  match s with
  | EmptyString => [EmptyString]
  | String c r =>
      if Ascii.eqb c "," then EmptyString :: split_comma r
      else
        match split_comma r with
        | h :: t => String c h :: t
        | [] => [String c EmptyString]
        end
  end.

(** [re.match(r'str\[(\d+)\]', annotation)]: group 1. *)
Definition parse_string (annotation : string) : option nat :=
  match strip_prefix "str[" annotation with
  | Some r =>
      let '(digits, r') := span is_digit r in
      if String.eqb digits "" then None
      else
        match r' with
        | String "]" _ => Some (int_digits 0 digits)
        | _ => None
        end
  | None => None
  end.

(** [\[([\d,]+)\]] at the head of [r]: group 2. *)
Definition match_shape (r : string) : option string :=
  match r with
  | String "[" r1 =>
      let '(g, r2) := span (fun c => is_digit c || Ascii.eqb c ",") r1 in
      if String.eqb g "" then None
      else
        match r2 with
        | String "]" _ => Some g
        | _ => None
        end
  | _ => None
  end.

(** One alternative [prefix\d+] of group 1, followed by the shape. *)
Definition match_alt_digits (prefix s : string) : option (string * string) :=
  match strip_prefix prefix s with
  | Some r =>
      let '(digits, r') := span is_digit r in
      if String.eqb digits "" then None
      else
        match match_shape r' with
        | Some g => Some ((prefix ++ digits)%string, g)
        | None => None
        end
  | None => None
  end.

(** The alternative [bool] of group 1, followed by the shape. *)
Definition match_alt_bool (s : string) : option (string * string) :=
  match strip_prefix "bool" s with
  | Some r =>
      match match_shape r with
      | Some g => Some ("bool"%string, g)
      | None => None
      end
  | None => None
  end.

(** [re.match(r'(float\d+|int\d+|uint\d+|bool)\[([\d,]+)\]', annotation)]:
    the alternatives are tried in order. *)
Definition match_array (annotation : string) : option (string * string) :=
  match match_alt_digits "float" annotation with
  | Some m => Some m
  | None =>
      match match_alt_digits "int" annotation with
      | Some m => Some m
      | None =>
          match match_alt_digits "uint" annotation with
          | Some m => Some m
          | None => match_alt_bool annotation
          end
      end
  end.

(** [dtype_map.get(dtype_str, np.float64)] *)
Definition dtype_map_get (dtype_str : string) : dtype :=
  if String.eqb dtype_str "float32" then float32
  else if String.eqb dtype_str "float64" then float64
  else if String.eqb dtype_str "int8" then int8
  else if String.eqb dtype_str "int16" then int16
  else if String.eqb dtype_str "int32" then int32
  else if String.eqb dtype_str "int64" then int64
  else if String.eqb dtype_str "uint8" then uint8
  else if String.eqb dtype_str "uint16" then uint16
  else if String.eqb dtype_str "uint32" then uint32
  else if String.eqb dtype_str "uint64" then uint64
  else if String.eqb dtype_str "bool" then bool_
  else float64.

(** [tuple(int(x) for x in parts)] *)
Fixpoint parse_ints (parts : list string) : outcome (list nat) :=
  match parts with
  | [] => Ok []
  | x :: rest =>
      match py_int x with
      | Ok n =>
          match parse_ints rest with
          | Ok ns => Ok (n :: ns)
          | other => other
          end
      | Raise e => Raise e
      | Spin => Spin
      end
  end.

Definition parse_array (annotation : string) : outcome (option (dtype * list nat)) :=
  match match_array annotation with
  | None => Ok None
  | Some (dtype_str, shape_str) =>
      let dtype := dtype_map_get dtype_str in
      match parse_ints (split_comma shape_str) with
      | Ok shape => Ok (Some (dtype, shape))
      | Raise e => Raise e
      | Spin => Spin
      end
  end.

(** ** [_FieldInfo] and [_SharedMemoryLayout] *)

(** [fi_x] is the attribute [x] of a [_FieldInfo]; the [default] attribute,
    which nothing reads, is left out. *)
Record _FieldInfo : Type := {
  fi_name : string;
  fi_field_type : pytype;
  fi_is_scalar : bool;
  fi_is_string : bool;
  fi_is_array : bool;
  fi_string_max_chars : nat;
  fi_array_dtype : option dtype;
  fi_array_shape : option (list nat);
  fi_size : nat;
  fi_offset : nat
}.

(** [type_sizes.get(field_type)]: only the three classes are keys. *)
Definition type_sizes (ty : pytype) : option nat :=
  match ty with
  | TyFloat => Some 8
  | TyInt => Some 4
  | TyBool => Some 1
  | _ => None
  end.

(** [_FieldInfo(name, field_type, default)]: the attribute defaults of
    [__init__] followed by [_parse_type]. *)
Definition _parse_type (name : string) (field_type : pytype) : outcome _FieldInfo :=
  let annotation := annotation_of field_type in
  let string_chars := parse_string annotation in
  match string_chars with
  | Some (S n) =>
      let string_chars := S n in
      Ok {| fi_name := name; fi_field_type := field_type;
            fi_is_scalar := false; fi_is_string := true; fi_is_array := false;
            fi_string_max_chars := string_chars; fi_array_dtype := None;
            fi_array_shape := None; fi_size := 4 + string_chars * 4;
            fi_offset := 0 |}
  | _ =>
      match parse_array annotation with
      | Raise e => Raise e
      | Spin => Spin
      | Ok (Some (dt, shape)) =>
          Ok {| fi_name := name; fi_field_type := field_type;
                fi_is_scalar := false; fi_is_string := false; fi_is_array := true;
                fi_string_max_chars := 0; fi_array_dtype := Some dt;
                fi_array_shape := Some shape;
                fi_size := np_prod shape * itemsize dt; fi_offset := 0 |}
      | Ok None =>
          match type_sizes field_type with
          | Some sz =>
              Ok {| fi_name := name; fi_field_type := field_type;
                    fi_is_scalar := true; fi_is_string := false; fi_is_array := false;
                    fi_string_max_chars := 0; fi_array_dtype := None;
                    fi_array_shape := None; fi_size := sz; fi_offset := 0 |}
          | None => Raise ValueError
          end
      end
  end.

Definition set_offset (f : _FieldInfo) (offset : nat) : _FieldInfo :=
  {| fi_name := fi_name f; fi_field_type := fi_field_type f;
     fi_is_scalar := fi_is_scalar f; fi_is_string := fi_is_string f;
     fi_is_array := fi_is_array f; fi_string_max_chars := fi_string_max_chars f;
     fi_array_dtype := fi_array_dtype f; fi_array_shape := fi_array_shape f;
     fi_size := fi_size f; fi_offset := offset |}.

Record _SharedMemoryLayout : Type := {
  fields : list _FieldInfo;
  total_size : nat
}.

(** [_analyze_fields]: [dataclass_type] is the list [fields(dataclass_type)]
    of names and declared types. *)
Fixpoint _analyze_fields (dataclass_type : list (string * pytype))
    : outcome (list _FieldInfo) :=
  match dataclass_type with
  | [] => Ok []
  | (name, ty) :: rest =>
      match _parse_type name ty with
      | Ok field_info =>
          match _analyze_fields rest with
          | Ok infos => Ok (field_info :: infos)
          | other => other
          end
      | Raise e => Raise e
      | Spin => Spin
      end
  end.

(** The loop of [_calculate_layout]: assigns the offsets, returns the end. *)
Fixpoint assign_offsets (offset : nat) (infos : list _FieldInfo)
    : list _FieldInfo * nat :=
  match infos with
  | [] => ([], offset)
  | field_info :: rest =>
      let '(rest', last) := assign_offsets (offset + fi_size field_info) rest in
      (set_offset field_info offset :: rest', last)
  end.

Definition _calculate_layout (infos : list _FieldInfo) : _SharedMemoryLayout :=
  let num_fields := length infos in
  let offset := 8 + num_fields in
  let offset := (offset + 7) / 8 * 8 in
  let '(infos', offset) := assign_offsets offset infos in
  let offset := offset + 8 in
  {| fields := infos'; total_size := (offset + 7) / 8 * 8 |}.

(** [_SharedMemoryLayout(dataclass_type)] *)
Definition compile_layout (dataclass_type : list (string * pytype))
    : outcome _SharedMemoryLayout :=
  match _analyze_fields dataclass_type with
  | Ok infos => Ok (_calculate_layout infos)
  | Raise e => Raise e
  | Spin => Spin
  end.

(** ** [SharedMemory] *)

(** The handle: everything [__init__] stores except the OS region, which is
    the state of the monad, and its name. *)
Record SharedMemory : Type := {
  dataclass_type : list (string * pytype);
  slots : nat;
  is_fifo : bool;
  _layout : _SharedMemoryLayout;
  _slot_size : nat;
  _metadata_offset : nat;
  _data_offset : nat;
  _write_buffer : gmap string pyvalue;
  _write_buffer_dirty : bool
}.

(** The record [read] returns: the keyword arguments given to the dataclass
    constructor. *)
Abbreviation record := (gmap string ValueWithStatus).

Section methods.
Variable self : SharedMemory.

Definition _get_slot_offset (slot_idx : nat) : nat :=
  _data_offset self + slot_idx * _slot_size self.

Definition _read_uint64 (offset : nat) : M Z :=
  bs <~ buf_getslice offset 8 ; ret (from_bytes bs).

Definition _write_uint64 (offset : nat) (v : Z) : M unit :=
  bs <~ lift (to_bytes 8 v) ; buf_setslice offset bs.

Definition _read_uint32 (offset : nat) : M Z :=
  bs <~ buf_getslice offset 4 ; ret (from_bytes bs).

Definition _write_uint32 (offset : nat) (v : Z) : M unit :=
  bs <~ lift (to_bytes 4 v) ; buf_setslice offset bs.

Definition _get_fifo_metadata : M (Z * Z * Z) :=
  if negb (is_fifo self) then ret (0, 0, 0)%Z
  else
    write_idx <~ _read_uint64 (_metadata_offset self) ;
    read_idx <~ _read_uint64 (_metadata_offset self + 8) ;
    count <~ _read_uint64 (_metadata_offset self + 16) ;
    ret (write_idx, read_idx, count).

Definition _set_fifo_metadata (write_idx read_idx count : Z) : M unit :=
  if negb (is_fifo self) then ret tt
  else
    _write_uint64 (_metadata_offset self) write_idx >>
    _write_uint64 (_metadata_offset self + 8) read_idx >>
    _write_uint64 (_metadata_offset self + 16) count.

(** [for i in range(n)] *)
Definition for_range (n : nat) (body : nat -> M unit) : M unit :=
  for_enumerate (fun i _ => body i) 0 (seq 0 n).

Definition _initialize_slot (slot_idx : nat) : M unit :=
  let offset := _get_slot_offset slot_idx in
  _write_uint64 offset 0 >>
  let num_fields := length (fields (_layout self)) in
  let status_offset := offset + 8 in
  for_range num_fields (fun i => buf_setitem (status_offset + i) MASK_UNWRITTEN) >>
  let seq_end_offset := offset + _slot_size self - 8 in
  _write_uint64 seq_end_offset 0.

(** [bool(a)] for an array: only an array of one element has a truth
    value. *)
Definition array_truthy (a : ndarray) : outcome bool :=
  match a_data a with
  | [x] =>
      Ok (match a_dtype a with
          | float32 => truthy (Z.land x 0x7FFFFFFF)
          | float64 => truthy (Z.land x 0x7FFFFFFFFFFFFFFF)
          | _ => truthy x
          end)
  | _ => Raise ValueError
  end.

(** [bool(value)] *)
Definition py_bool (v : pyvalue) : outcome bool :=
  match v with
  | PyFloat bits => Ok (truthy (Z.land bits 0x7FFFFFFFFFFFFFFF))
  | PyInt n => Ok (truthy n)
  | PyBool b => Ok b
  | PyStr s => Ok (match s with [] => false | _ => true end)
  | PyArray a => array_truthy a
  end.

(** Storing one element through a numpy view of the scalar's type.  A value
    of the field's own Python type is stored as it is (an [int] must fit
    the 32 bits, a [bool] is the integer 0 or 1).  Every other combination
    goes through numpy's conversion rules, which this model does not
    contain: it answers [TypeError] for them. *)
Definition _write_scalar (offset : nat) (v : pyvalue) (field_type : pytype)
    : M unit :=
  match field_type with
  | TyFloat =>
      np_view 1 float64 offset >>
      match v with
      | PyFloat bits => buf_setslice offset (le_bytes 8 bits)
      | _ => raise TypeError
      end
  | TyInt =>
      np_view 1 int32 offset >>
      match v with
      | PyInt n =>
          if ((-2147483648 <=? n) && (n <=? 2147483647))%Z
          then buf_setslice offset (le_bytes 4 n)
          else raise OverflowError
      | PyBool b => buf_setslice offset (le_bytes 4 (if b then 1 else 0)%Z)
      | _ => raise TypeError
      end
  | TyBool =>
      b <~ lift (py_bool v) ;
      buf_setitem offset (if b then 1 else 0)%Z
  | _ => ret tt
  end.

(** [len(value)], [value[:n]] and [value.encode] exist for [str] only among
    the values of this model: a number has no [len], an array no
    [encode]. *)
Definition _write_string (offset : nat) (v : pyvalue) (field_info : _FieldInfo)
    : M bool :=
  match v with
  | PyStr s =>
      let truncated := bool_decide (fi_string_max_chars field_info < length s) in
      let s := if truncated then take (fi_string_max_chars field_info) s else s in
      encoded <~ lift (utf8_encode s) ;
      _write_uint32 offset (Z.of_nat (length encoded)) >>
      buf_setslice (offset + 4) encoded >>
      ret truncated
  | PyArray a =>
      match a_shape a with
      | [] => raise TypeError
      | _ => raise AttributeError
      end
  | _ => raise TypeError
  end.

(** [np.asarray(value, dtype=dt)]: an array that already has the element
    type is taken as it is; conversions are numpy's and not part of this
    model, which answers [TypeError] for them. *)
Definition np_asarray (v : pyvalue) (dt : dtype) : outcome ndarray :=
  match v with
  | PyArray a => if decide (a_dtype a = dt) then Ok a else Raise TypeError
  | _ => Raise TypeError
  end.

Definition _write_array (offset : nat) (v : pyvalue) (field_info : _FieldInfo)
    : M bool :=
  match fi_array_dtype field_info, fi_array_shape field_info with
  | Some array_dtype, Some array_shape =>
      a <~ lift (np_asarray v array_dtype) ;
      let truncated := negb (bool_decide (a_shape a = array_shape)) in
      let flat_value := a_data a in
      let expected_size := np_prod array_shape in
      let '(flat_value, truncated) :=
        if decide (expected_size < length flat_value) then
          (take expected_size flat_value, true)
        else if decide (length flat_value < expected_size) then
          (flat_value ++ replicate (expected_size - length flat_value) 0%Z,
           truncated)
        else (flat_value, truncated) in
      np_view expected_size array_dtype offset >>
      buf_setslice offset (mjoin (le_bytes (itemsize array_dtype) <$> flat_value)) >>
      ret truncated
  | _, _ => raise TypeError
  end.

(** The status byte of a field that was written. *)
Definition status_written (status : Z) (truncated : bool) : Z :=
  let status := Z.land status (Z.lnot MASK_UNWRITTEN) in
  let status := Z.lor status MASK_MODIFIED in
  if truncated then Z.lor status MASK_TRUNCATED
  else Z.land status (Z.lnot MASK_TRUNCATED).

(** The status byte of a field that was not part of the update. *)
Definition status_skipped (status : Z) : Z := Z.land status (Z.lnot MASK_MODIFIED).

(** The dispatch on the kind of the field in [_write_to_slot]; the result is
    the local [truncated]. *)
Definition write_value (field_offset : nat) (v : pyvalue) (field_info : _FieldInfo)
    : M bool :=
  if fi_is_scalar field_info then
    _write_scalar field_offset v (fi_field_type field_info) >> ret false
  else if fi_is_string field_info then
    _write_string field_offset v field_info
  else if fi_is_array field_info then
    _write_array field_offset v field_info
  else ret false.

(** One iteration of the loop of [_write_to_slot]. *)
Definition write_field (offset status_offset : nat) (data : gmap string pyvalue)
    (idx : nat) (field_info : _FieldInfo) : M unit :=
  let field_offset := offset + fi_offset field_info in
  match data !! fi_name field_info with
  | Some v =>
      truncated <~ write_value field_offset v field_info ;
      status <~ buf_getitem (status_offset + idx) ;
      buf_setitem (status_offset + idx) (status_written status truncated)
  | None =>
      status <~ buf_getitem (status_offset + idx) ;
      buf_setitem (status_offset + idx) (status_skipped status)
  end.

Definition _write_to_slot (slot_idx : nat) (data : gmap string pyvalue) : M unit :=
  let offset := _get_slot_offset slot_idx in
  seq <~ _read_uint64 offset ;
  let seq := (seq + 1)%Z in
  _write_uint64 offset seq >>
  let status_offset := offset + 8 in
  for_enumerate (write_field offset status_offset data) 0 (fields (_layout self)) >>
  let seq_end_offset := offset + _slot_size self - 8 in
  _write_uint64 seq_end_offset seq.

Definition _read_scalar (offset : nat) (field_type : pytype) : M pyvalue :=
  match field_type with
  | TyFloat =>
      elems <~ np_view_load 1 float64 offset ;
      ret (PyFloat (default 0%Z (head elems)))
  | TyInt =>
      elems <~ np_view_load 1 int32 offset ;
      let u := default 0%Z (head elems) in
      ret (PyInt (if (u <? 2147483648)%Z then u else u - 4294967296)%Z)
  | TyBool =>
      b <~ buf_getitem offset ; ret (PyBool (truthy b))
  | _ => raise TypeError
  end.

Definition _read_string (offset : nat) (field_info : _FieldInfo) : M pyvalue :=
  len <~ _read_uint32 offset ;
  encoded <~ buf_getslice (offset + 4) (Z.to_nat len) ;
  ret (PyStr (utf8_decode_ignore encoded)).

Definition _read_array (offset : nat) (field_info : _FieldInfo) : M pyvalue :=
  match fi_array_dtype field_info, fi_array_shape field_info with
  | Some array_dtype, Some array_shape =>
      let size := np_prod array_shape in
      flat_array <~ np_view_load size array_dtype offset ;
      ret (PyArray {| a_dtype := array_dtype; a_shape := array_shape;
                      a_data := flat_array |})
  | _, _ => raise TypeError
  end.

(** The dispatch on the kind of the field in [_read_from_slot].
    [_parse_type] sets exactly one of the three kind flags; with none set
    Python would find [value] unassigned. *)
Definition read_value (field_offset : nat) (field_info : _FieldInfo) : M pyvalue :=
  if fi_is_scalar field_info then
    _read_scalar field_offset (fi_field_type field_info)
  else if fi_is_string field_info then
    _read_string field_offset field_info
  else if fi_is_array field_info then
    _read_array field_offset field_info
  else raise RuntimeError.

(** One iteration of the first loop of [_read_from_slot]. *)
Definition read_field (offset status_offset : nat) (idx : nat)
    (field_info : _FieldInfo) (field_values : record) : M record :=
  let field_offset := offset + fi_offset field_info in
  status_byte <~ buf_getitem (status_offset + idx) ;
  v <~ read_value field_offset field_info ;
  ret (<[fi_name field_info := {| value := v; _status := status_byte |}]>
         field_values).

(** [None] is the torn read. *)
Definition _read_from_slot (slot_idx : nat) (reset_modified : bool)
    : M (option record) :=
  let offset := _get_slot_offset slot_idx in
  seq_begin <~ _read_uint64 offset ;
  let status_offset := offset + 8 in
  field_values <~
    fold_enumerate (read_field offset status_offset) 0 (fields (_layout self)) ∅ ;
  let seq_end_offset := offset + _slot_size self - 8 in
  seq_end <~ _read_uint64 seq_end_offset ;
  if negb (seq_begin =? seq_end)%Z then ret None
  else
    (if reset_modified then
       for_range (length (fields (_layout self))) (fun idx =>
         status_byte <~ buf_getitem (status_offset + idx) ;
         buf_setitem (status_offset + idx)
           (Z.land status_byte (Z.lnot MASK_MODIFIED)))
     else ret tt) >>
    ret (Some field_values).

(** [timeout] counts the polls that still fit before the deadline; 0 is the
    non-blocking call [timeout=0]. *)
Fixpoint _read_single (timeout : nat) (reset_modified : bool) : M (option record) :=
  data <~ _read_from_slot 0 reset_modified ;
  match data with
  | Some d => ret (Some d)
  | None =>
      match timeout with
      | O => ret None
      | S t => _read_single t reset_modified
      end
  end.

(** The retry after a torn read checks no deadline, so the loop needs an
    iteration budget [fuel] of its own. *)
Fixpoint _read_fifo (fuel : nat) (timeout : nat) (latest : bool)
    : M (option record) :=
  match fuel with
  | O => lift Spin
  | S fuel' =>
      '(write_idx, read_idx, count) <~ _get_fifo_metadata ;
      if (count =? 0)%Z then
        match timeout with
        | O => ret None
        | S t => _read_fifo fuel' t latest
        end
      else
        let '(read_idx, count) :=
          if latest && (1 <? count)%Z then ((write_idx - 1)%Z, 1%Z)
          else (read_idx, count) in
        let slot_idx := Z.to_nat (read_idx mod Z.of_nat (slots self)) in
        data <~ _read_from_slot slot_idx false ;
        match data with
        | None => _read_fifo fuel' timeout latest
        | Some d =>
            let read_idx := (read_idx + 1)%Z in
            let count := (count - 1)%Z in
            _set_fifo_metadata write_idx read_idx count >>
            ret (Some d)
        end
  end.

Definition set_write_buffer (buffer : gmap string pyvalue) (dirty : bool)
    : SharedMemory :=
  {| dataclass_type := dataclass_type self; slots := slots self;
     is_fifo := is_fifo self; _layout := _layout self;
     _slot_size := _slot_size self; _metadata_offset := _metadata_offset self;
     _data_offset := _data_offset self;
     _write_buffer := buffer; _write_buffer_dirty := dirty |}.

(** [write] with its keyword arguments; the result is the handle after the call. *)
Definition write (kwargs : gmap string pyvalue) : M SharedMemory :=
  if is_fifo self then
    ret (set_write_buffer (kwargs ∪ _write_buffer self) true)
  else
    _write_to_slot 0 kwargs >> ret self.

Definition finalize : M SharedMemory :=
  if negb (is_fifo self) then raise RuntimeError
  else if negb (_write_buffer_dirty self) then ret self
  else
    '(write_idx, read_idx, count) <~ _get_fifo_metadata ;
    let slot_idx := Z.to_nat (write_idx mod Z.of_nat (slots self)) in
    _write_to_slot slot_idx (_write_buffer self) >>
    let write_idx := (write_idx + 1)%Z in
    let '(read_idx, count) :=
      if (count <? Z.of_nat (slots self))%Z then (read_idx, (count + 1)%Z)
      else ((read_idx + 1)%Z, count) in
    _set_fifo_metadata write_idx read_idx count >>
    ret (set_write_buffer ∅ false).

Definition read (fuel : nat) (timeout : nat) (latest reset_modified : bool)
    : M (option record) :=
  if reset_modified && is_fifo self then raise ValueError
  else if is_fifo self then _read_fifo fuel timeout latest
  else _read_single timeout reset_modified.

End methods.

(** [shared_memory.SharedMemory(create=True, size=size)] *)
Definition os_create (size : nat) : M unit :=
  fun _ => (Ok tt, replicate size 0%Z).

(** [SharedMemory(dataclass_type, slots=slots, create=create)].  With
    [create] the OS hands out a fresh zero-filled region of the requested
    size, which replaces the state; without it the state is the region that
    exists under the name. *)
Definition __init__ (dataclass_type : list (string * pytype)) (slots : Z)
    (create : bool) : M SharedMemory :=
  if (slots <? 1)%Z then raise ValueError
  else
    layout <~ lift (compile_layout dataclass_type) ;
    let slots := Z.to_nat slots in
    let is_fifo := bool_decide (1 < slots) in
    let slot_size := total_size layout in
    let metadata_size := if is_fifo then 24 else 0 in
    let size := metadata_size + slot_size * slots in
    let self := {| dataclass_type := dataclass_type; slots := slots;
                   is_fifo := is_fifo; _layout := layout;
                   _slot_size := slot_size; _metadata_offset := 0;
                   _data_offset := metadata_size;
                   _write_buffer := ∅; _write_buffer_dirty := false |} in
    (if create then
       os_create size >>
       (if is_fifo then _set_fifo_metadata self 0 0 0 else ret tt) >>
       for_range slots (fun slot_idx => _initialize_slot self slot_idx)
     else ret tt) >>
    ret self.


(** * Properties *)

(** ** The monad *)

Lemma bind_ok_inv {A B} (m : M A) (k : A -> M B) buf v buf' :
  bind m k buf = (Ok v, buf') ->
  exists a buf1, m buf = (Ok a, buf1) /\ k a buf1 = (Ok v, buf').
Proof.
  unfold bind. destruct (m buf) as [[a| |] buf1]; intros H; try discriminate.
  eauto.
Qed.

Lemma bind_ok {A B} (m : M A) (k : A -> M B) buf a buf1 :
  m buf = (Ok a, buf1) -> bind m k buf = k a buf1.
Proof. unfold bind. intros ->. reflexivity. Qed.

Lemma bind_ret_l {A B} (a : A) (k : A -> M B) buf : bind (ret a) k buf = k a buf.
Proof. reflexivity. Qed.

Definition all_bytes (buf : list Z) : Prop := Forall (fun b => 0 <= b < 256)%Z buf.

(** [touches P m]: whatever its outcome, [m] keeps the length of the buffer,
    changes no byte outside [P] and stores nothing but bytes. *)
Definition touches {A} (P : nat -> Prop) (m : M A) : Prop :=
  forall buf, length (m buf).2 = length buf /\
              (forall j, ~ P j -> (m buf).2 !! j = buf !! j) /\
              (all_bytes buf -> all_bytes (m buf).2).

Lemma touches_weaken {A} (P Q : nat -> Prop) (m : M A) :
  (forall j, P j -> Q j) -> touches P m -> touches Q m.
Proof.
  intros HPQ Hm buf. destruct (Hm buf) as (Hl & Hj & Hb).
  split; [done|]. split; [|done].
  intros j Hn. apply Hj. intros HP. apply Hn, HPQ, HP.
Qed.

Lemma touches_ret {A} P (a : A) : touches P (ret a).
Proof. intros buf. done. Qed.

Lemma touches_raise {A} P e : touches P (@raise A e).
Proof. intros buf. done. Qed.

Lemma touches_lift {A} P (r : outcome A) : touches P (lift r).
Proof. intros buf. done. Qed.

Lemma touches_bind {A B} P (m : M A) (k : A -> M B) :
  touches P m -> (forall a, touches P (k a)) -> touches P (bind m k).
Proof.
  intros Hm Hk buf. unfold bind.
  destruct (Hm buf) as (Hl & Hj & Hb). destruct (m buf) as [[a| |] buf1];
    simpl in *; try done.
  destruct (Hk a buf1) as (Hl' & Hj' & Hb'). split; [congruence|]. split.
  - intros j Hn. rewrite Hj', Hj; done.
  - intros H. apply Hb', Hb, H.
Qed.

Lemma touches_fold_enumerate {A T} P (body : nat -> A -> T -> M T) l :
  forall idx s,
  (forall i x s, l !! i = Some x -> touches P (body (idx + i) x s)) ->
  touches P (fold_enumerate body idx l s).
Proof.
  induction l as [|x l IH]; intros idx s Hb; simpl.
  - apply touches_ret.
  - apply touches_bind.
    + specialize (Hb 0 x s eq_refl). by rewrite Nat.add_0_r in Hb.
    + intros s'. apply IH. intros i y s'' Hy.
      specialize (Hb (S i) y s'' Hy). by rewrite Nat.add_succ_r in Hb.
Qed.

Lemma touches_for_enumerate {A} P (body : nat -> A -> M unit) l idx :
  (forall i x, l !! i = Some x -> touches P (body (idx + i) x)) ->
  touches P (for_enumerate body idx l).
Proof. intros H. apply touches_fold_enumerate. intros i x _. apply H. Qed.

(** A computation that touches nothing leaves the buffer as it is. *)
Lemma touches_nothing {A} (m : M A) buf :
  touches (fun _ => False) m -> (m buf).2 = buf.
Proof.
  intros H. destruct (H buf) as (_ & Hj & _). apply list_eq. intros j.
  apply Hj. tauto.
Qed.

(** ** The buffer primitives *)

Lemma touches_getitem P i : touches P (buf_getitem i).
Proof. intros buf. unfold buf_getitem. by destruct (buf !! i). Qed.

Lemma touches_getslice P start n : touches P (buf_getslice start n).
Proof. intros buf. done. Qed.

Lemma touches_np_view P count dt offset : touches P (np_view count dt offset).
Proof. intros buf. unfold np_view. by case_decide. Qed.

Lemma touches_setitem (P : nat -> Prop) i v : P i -> touches P (buf_setitem i v).
Proof.
  intros HP buf. unfold buf_setitem. case_decide; [|done].
  destruct (is_byte v) eqn:Hv; [|done]. simpl. split; [apply length_insert|].
  split.
  - intros j Hj. apply list_lookup_insert_ne. intros ->. done.
  - intros Hb. apply Forall_insert; [done|]. unfold is_byte in Hv. lia.
Qed.

Lemma setslice_lookup (start : nat) (bs buf : list Z) j :
  start + length bs <= length buf ->
  (take start buf ++ bs ++ drop (start + length bs) buf) !! j =
  if decide (j < start) then buf !! j
  else if decide (j < start + length bs) then bs !! (j - start)
  else buf !! j.
Proof.
  intros Hle. case_decide as H1.
  - rewrite lookup_app_l by (rewrite length_take; lia).
    apply lookup_take_lt. lia.
  - rewrite lookup_app_r by (rewrite length_take; lia).
    rewrite length_take, Nat.min_l by lia.
    case_decide as H2.
    + rewrite lookup_app_l by lia. done.
    + rewrite lookup_app_r by lia. rewrite lookup_drop. f_equal. lia.
Qed.

Lemma setslice_length (start : nat) (bs buf : list Z) :
  start + length bs <= length buf ->
  length (take start buf ++ bs ++ drop (start + length bs) buf) = length buf.
Proof.
  intros Hle. rewrite !length_app, length_take, length_drop. lia.
Qed.

Lemma touches_setslice (P : nat -> Prop) start bs :
  (forall j, start <= j < start + length bs -> P j) ->
  all_bytes bs ->
  touches P (buf_setslice start bs).
Proof.
  intros HP Hbs buf. unfold buf_setslice. case_decide as Hle; [|done]. simpl.
  split; [by apply setslice_length|]. split.
  - intros j Hj. rewrite setslice_lookup by done.
    repeat case_decide; try done. exfalso. apply Hj, HP. lia.
  - intros Hb. unfold all_bytes. rewrite !Forall_app.
    split; [by apply Forall_take|]. split; [done|by apply Forall_drop].
Qed.

Lemma slice_lookup start n (buf : list Z) i :
  slice start n buf !! i = if decide (i < n) then buf !! (start + i) else None.
Proof.
  unfold slice. case_decide.
  - rewrite lookup_take_lt by done. apply lookup_drop.
  - apply lookup_take_ge. lia.
Qed.

Lemma slice_length start n (buf : list Z) :
  start + n <= length buf -> length (slice start n buf) = n.
Proof. intros H. unfold slice. rewrite length_take, length_drop. lia. Qed.

(** Two buffers that hold the same bytes in a window have the same slice. *)
Lemma slice_ext start n (b1 b2 : list Z) :
  (forall j, start <= j < start + n -> b1 !! j = b2 !! j) ->
  slice start n b1 = slice start n b2.
Proof.
  intros H. apply list_eq. intros i. rewrite !slice_lookup.
  case_decide; [|done]. apply H. lia.
Qed.

Lemma setslice_slice (start : nat) (bs buf : list Z) :
  start + length bs <= length buf ->
  slice start (length bs) (take start buf ++ bs ++ drop (start + length bs) buf) = bs.
Proof.
  intros Hle. apply list_eq. intros i. rewrite slice_lookup.
  case_decide as Hi.
  - rewrite setslice_lookup by done.
    rewrite decide_False by lia. rewrite decide_True by lia. f_equal. lia.
  - symmetry. apply lookup_ge_None. lia.
Qed.

Lemma slice_app start n1 n2 (buf : list Z) :
  slice start (n1 + n2) buf = slice start n1 buf ++ slice (start + n1) n2 buf.
Proof.
  unfold slice. rewrite <- take_take_drop. f_equal. by rewrite drop_drop.
Qed.

(** ** Little-endian integers *)

Lemma le_bytes_length n v : length (le_bytes n v) = n.
Proof. revert v. induction n as [|n IH]; intros v; simpl; [done|]. by rewrite IH. Qed.

Lemma le_bytes_is_byte n v : Forall (fun b => 0 <= b < 256)%Z (le_bytes n v).
Proof.
  revert v. induction n as [|n IH]; intros v; simpl; constructor; [|apply IH].
  apply Z.mod_pos_bound. lia.
Qed.

Lemma from_bytes_le_bytes n v :
  from_bytes (le_bytes n v) = (v mod 256 ^ Z.of_nat n)%Z.
Proof.
  revert v. induction n as [|n IH]; intros v.
  - simpl. by rewrite Z.mod_1_r.
  - cbn [le_bytes from_bytes]. rewrite IH.
    rewrite Nat2Z.inj_succ, Z.pow_succ_r by lia.
    rewrite Z.rem_mul_r by lia. lia.
Qed.

Lemma from_bytes_bound bs :
  Forall (fun b => 0 <= b < 256)%Z bs ->
  (0 <= from_bytes bs < 256 ^ Z.of_nat (length bs))%Z.
Proof.
  induction 1 as [|b bs Hb _ IH]; simpl length; cbn [from_bytes]; [simpl; lia|].
  rewrite Nat2Z.inj_succ, Z.pow_succ_r by lia. lia.
Qed.

Lemma to_bytes_ok n v :
  (0 <= v < 256 ^ Z.of_nat n)%Z -> to_bytes n v = Ok (le_bytes n v).
Proof.
  intros H. unfold to_bytes.
  destruct (Z.leb_spec 0 v); [|lia]. destruct (Z.ltb_spec v (256 ^ Z.of_nat n)); [|lia].
  done.
Qed.

Lemma to_bytes_inv n v bs :
  to_bytes n v = Ok bs -> bs = le_bytes n v /\ (0 <= v < 256 ^ Z.of_nat n)%Z.
Proof.
  unfold to_bytes.
  destruct (Z.leb_spec 0 v); [|discriminate].
  destruct (Z.ltb_spec v (256 ^ Z.of_nat n)); [|discriminate].
  simpl. intros [= <-]. split; [done|lia].
Qed.

Lemma to_bytes_length n v bs : to_bytes n v = Ok bs -> length bs = n.
Proof. intros [-> _]%to_bytes_inv. apply le_bytes_length. Qed.

Lemma join_le_bytes_length k (elems : list Z) :
  length (mjoin (le_bytes k <$> elems)) = length elems * k.
Proof.
  induction elems as [|x l IH]; [done|].
  change (mjoin (le_bytes k <$> x :: l))
    with (le_bytes k x ++ mjoin (le_bytes k <$> l)).
  rewrite length_app, le_bytes_length, IH. simpl. lia.
Qed.

Lemma join_le_bytes_is_byte k (elems : list Z) :
  Forall (fun b => 0 <= b < 256)%Z (mjoin (le_bytes k <$> elems)).
Proof.
  induction elems as [|x l IH]; [constructor|].
  change (mjoin (le_bytes k <$> x :: l))
    with (le_bytes k x ++ mjoin (le_bytes k <$> l)).
  apply Forall_app. split; [apply le_bytes_is_byte|done].
Qed.

(** ** Well-formed handles and regions *)

(** Exactly one kind flag is set, with the size [_parse_type] computes. *)
Inductive field_kind (f : _FieldInfo) : Prop :=
| kind_scalar :
    fi_is_scalar f = true ->
    type_sizes (fi_field_type f) = Some (fi_size f) ->
    fi_is_string f = false ->
    field_kind f
| kind_string :
    fi_is_scalar f = false -> fi_is_string f = true ->
    fi_size f = 4 + fi_string_max_chars f * 4 ->
    0 < fi_string_max_chars f ->
    field_kind f
| kind_array dt sh :
    fi_is_scalar f = false -> fi_is_string f = false -> fi_is_array f = true ->
    fi_array_dtype f = Some dt -> fi_array_shape f = Some sh ->
    fi_size f = np_prod sh * itemsize dt ->
    field_kind f.

(** A handle as [__init__] builds it. *)
Record wf_handle (self : SharedMemory) : Prop := {
  wf_layout : compile_layout (dataclass_type self) = Ok (_layout self);
  wf_slots : 1 <= slots self;
  wf_is_fifo : is_fifo self = bool_decide (1 < slots self);
  wf_slot_size : _slot_size self = total_size (_layout self);
  wf_metadata_offset : _metadata_offset self = 0;
  wf_data_offset : _data_offset self = if is_fifo self then 24 else 0
}.

Definition region_size (self : SharedMemory) : nat :=
  _data_offset self + _slot_size self * slots self.

(** A region of the size the handle expects, holding bytes. *)
Definition wf_region (self : SharedMemory) (buf : list Z) : Prop :=
  length buf = region_size self /\ all_bytes buf.

(** The bytes of field [idx]: its status byte and its body. *)
Definition footprint (offset : nat) (idx : nat) (f : _FieldInfo) (j : nat) : Prop :=
  j = offset + 8 + idx \/
  offset + fi_offset f <= j < offset + fi_offset f + fi_size f.

(** ** The layout *)

Lemma align8_bounds n : n <= (n + 7) / 8 * 8 <= n + 7.
Proof.
  pose proof (Nat.div_mod_eq (n + 7) 8).
  pose proof (Nat.mod_upper_bound (n + 7) 8). lia.
Qed.

Lemma parse_type_kind name ty f :
  _parse_type name ty = Ok f -> field_kind f /\ fi_name f = name.
Proof.
  unfold _parse_type.
  destruct (parse_string (annotation_of ty)) as [[|n]|].
  2: { intros [= <-]. split; [|done]. apply kind_string; simpl; try done; lia. }
  all: destruct (parse_array (annotation_of ty)) as [[[dt sh]|]| |]; try discriminate.
  all: try (intros [= <-]; split; [|done]; by eapply kind_array).
  all: destruct (type_sizes ty) as [sz|] eqn:Hsz; try discriminate.
  all: intros [= <-]; split; [|done]; by apply kind_scalar.
Qed.

Lemma field_kind_set_offset f o : field_kind f -> field_kind (set_offset f o).
Proof.
  intros [? ?|? ? ? ?|dt sh ? ? ? ? ? ?].
  - by apply kind_scalar.
  - by apply kind_string.
  - by eapply kind_array.
Qed.

Lemma analyze_fields_spec dc infos :
  _analyze_fields dc = Ok infos ->
  Forall field_kind infos /\ fi_name <$> infos = dc.*1.
Proof.
  revert infos. induction dc as [|[name ty] dc IH]; intros infos; simpl.
  - intros [= <-]. split; constructor.
  - destruct (_parse_type name ty) as [f| |] eqn:Hf; try discriminate.
    destruct (_analyze_fields dc) as [fs| |]; try discriminate.
    intros [= <-]. destruct (IH fs eq_refl) as [IH1 IH2].
    apply parse_type_kind in Hf as [Hk Hn]. split.
    + by constructor.
    + rewrite fmap_cons, Hn, IH2. done.
Qed.

(** The sizes of the fields in front of position [i]. *)
Definition sizes_before (i : nat) (infos : list _FieldInfo) : nat :=
  sum_list (fi_size <$> take i infos).

Lemma sizes_before_le i j infos :
  i <= j -> sizes_before i infos <= sizes_before j infos.
Proof.
  unfold sizes_before. revert i j. induction infos as [|f l IH]; intros i j Hij.
  - by rewrite !take_nil.
  - destruct i as [|i], j as [|j]; try lia.
    + simpl. lia.
    + simpl. apply Nat.add_le_mono_l, IH. lia.
Qed.

Lemma sizes_before_S i f infos :
  infos !! i = Some f -> sizes_before (S i) infos = sizes_before i infos + fi_size f.
Proof.
  unfold sizes_before. revert i. induction infos as [|g l IH]; intros i; [done|].
  destruct i; simpl.
  - intros [= ->]. simpl. lia.
  - intros H. simpl. rewrite <- Nat.add_assoc. f_equal. apply (IH i H).
Qed.

Lemma assign_offsets_spec infos : forall o infos' last,
  assign_offsets o infos = (infos', last) ->
  last = o + sizes_before (length infos) infos /\
  length infos' = length infos /\
  forall i f', infos' !! i = Some f' ->
    exists f, infos !! i = Some f /\ f' = set_offset f (o + sizes_before i infos).
Proof.
  induction infos as [|g l IH]; intros o infos' last; simpl.
  - intros [= <- <-]. unfold sizes_before. simpl. split; [lia|]. split; [done|].
    intros i f'. by rewrite lookup_nil.
  - destruct (assign_offsets (o + fi_size g) l) as [rest' last'] eqn:Hrest.
    intros [= <- <-]. destruct (IH _ _ _ Hrest) as (Hlast & Hlen & Hi).
    split; [|split].
    + rewrite Hlast. unfold sizes_before. simpl. rewrite Nat.add_assoc. done.
    + simpl. by rewrite Hlen.
    + intros [|i] f'; simpl.
      * intros [= <-]. exists g. split; [done|]. unfold sizes_before.
        simpl. f_equal. lia.
      * intros Hf'. destruct (Hi i f' Hf') as (f & Hf & ->). exists f.
        split; [done|]. unfold sizes_before. simpl. f_equal.
        rewrite Nat.add_assoc. done.
Qed.

Section layout_facts.
Variable self : SharedMemory.
Hypothesis Hwf : wf_handle self.

Lemma layout_fields_kind : Forall field_kind (fields (_layout self)).
Proof.
  pose proof (wf_layout _ Hwf) as HL. unfold compile_layout in HL.
  destruct (_analyze_fields (dataclass_type self)) as [infos| |] eqn:Hinfos;
    try discriminate.
  injection HL as HL. unfold _calculate_layout in HL.
  destruct (assign_offsets _ infos) as [infos' last] eqn:Ha.
  rewrite <- HL. simpl.
  apply analyze_fields_spec in Hinfos as [Hk _].
  apply assign_offsets_spec in Ha as (_ & _ & Hi).
  apply Forall_lookup. intros i f' Hf'. destruct (Hi i f' Hf') as (f & Hf & ->).
  apply field_kind_set_offset. eapply Forall_lookup_1; eauto.
Qed.

Lemma layout_names :
  fi_name <$> fields (_layout self) = (dataclass_type self).*1.
Proof.
  pose proof (wf_layout _ Hwf) as HL. unfold compile_layout in HL.
  destruct (_analyze_fields (dataclass_type self)) as [infos| |] eqn:Hinfos;
    try discriminate.
  injection HL as HL. unfold _calculate_layout in HL.
  destruct (assign_offsets _ infos) as [infos' last] eqn:Ha.
  rewrite <- HL. simpl.
  apply analyze_fields_spec in Hinfos as [_ Hn]. rewrite <- Hn.
  apply assign_offsets_spec in Ha as (_ & Hlen & Hi).
  apply list_eq. intros i. rewrite !list_lookup_fmap.
  destruct (infos' !! i) as [f'|] eqn:Hf'.
  - destruct (Hi i f' Hf') as (f & -> & ->). done.
  - apply lookup_ge_None in Hf'. rewrite Hlen in Hf'.
    apply lookup_ge_None in Hf'. by rewrite Hf'.
Qed.

(** Every body lies between the status bytes and the trailing counter, and
    the bodies follow each other in declaration order. *)
Lemma layout_offsets :
  exists infos,
    length infos = length (fields (_layout self)) /\
    let start := (8 + length infos + 7) / 8 * 8 in
    (forall i f, fields (_layout self) !! i = Some f ->
       fi_offset f = start + sizes_before i infos /\
       sizes_before (S i) infos = sizes_before i infos + fi_size f) /\
    start + sizes_before (length infos) infos + 8 <= _slot_size self.
Proof.
  pose proof (wf_layout _ Hwf) as HL. unfold compile_layout in HL.
  destruct (_analyze_fields (dataclass_type self)) as [infos| |] eqn:Hinfos;
    try discriminate.
  injection HL as HL. unfold _calculate_layout in HL.
  destruct (assign_offsets _ infos) as [infos' last] eqn:Ha.
  rewrite (wf_slot_size _ Hwf). rewrite <- HL. cbn [fields total_size].
  apply assign_offsets_spec in Ha as (Hlast & Hlen & Hi).
  exists infos. split; [done|]. split.
  - intros i f' Hf'. destruct (Hi i f' Hf') as (f & Hf & ->).
    cbn [set_offset fi_offset fi_size].
    split; [done|]. by apply sizes_before_S.
  - rewrite Hlast.
    pose proof (align8_bounds
      ((8 + length infos + 7) / 8 * 8 + sizes_before (length infos) infos + 8)).
    lia.
Qed.

Lemma layout_field_bounds i f :
  fields (_layout self) !! i = Some f ->
  8 + length (fields (_layout self)) <= fi_offset f /\
  fi_offset f + fi_size f + 8 <= _slot_size self.
Proof.
  intros Hf. destruct layout_offsets as (infos & Hlen & Hoff & Hend).
  cbv zeta in *. destruct (Hoff i f Hf) as [Ho Hs].
  pose proof (lookup_lt_Some _ _ _ Hf) as Hi.
  pose proof (sizes_before_le (S i) (length infos) infos ltac:(lia)).
  pose proof (align8_bounds (8 + length infos)).
  rewrite <- Hlen. split; [|lia].
  rewrite Ho. lia.
Qed.

Lemma layout_fields_disjoint i j fi fj :
  i < j ->
  fields (_layout self) !! i = Some fi ->
  fields (_layout self) !! j = Some fj ->
  fi_offset fi + fi_size fi <= fi_offset fj.
Proof.
  intros Hij Hi Hj. destruct layout_offsets as (infos & Hlen & Hoff & Hend).
  cbv zeta in *. destruct (Hoff i fi Hi) as [Ho Hs]. destruct (Hoff j fj Hj) as [Ho' _].
  pose proof (sizes_before_le (S i) j infos ltac:(lia)). lia.
Qed.

Lemma slot_size_min : 16 + length (fields (_layout self)) <= _slot_size self.
Proof.
  destruct layout_offsets as (infos & Hlen & Hoff & Hend). cbv zeta in *.
  pose proof (align8_bounds (8 + length infos)). lia.
Qed.

End layout_facts.

(** ** Status bytes *)

Lemma truthy_land_pow2 s k :
  (0 <= k)%Z -> truthy (Z.land s (2 ^ k)) = Z.testbit s k.
Proof.
  intros Hk. unfold truthy.
  assert (Z.land s (2 ^ k) = if Z.testbit s k then 2 ^ k else 0)%Z as ->.
  { apply Z.bits_inj'. intros n Hn. rewrite Z.land_spec, Z.pow2_bits_eqb by done.
    destruct (Z.eqb_spec k n) as [->|Hne].
    - destruct (Z.testbit s n); [|by rewrite Z.bits_0].
      rewrite Z.pow2_bits_true by done. done.
    - rewrite andb_false_r. destruct (Z.testbit s k); [|by rewrite Z.bits_0].
      rewrite Z.pow2_bits_false by done. done. }
  destruct (Z.testbit s k); [|done].
  destruct (Z.eqb_spec (2 ^ k) 0) as [H|]; [|done].
  pose proof (Z.pow_pos_nonneg 2 k). lia.
Qed.

Lemma is_truncated_testbit s : is_truncated s = Z.testbit s 0.
Proof. apply (truthy_land_pow2 s 0). lia. Qed.

Lemma is_unwritten_testbit s : is_unwritten s = Z.testbit s 1.
Proof. apply (truthy_land_pow2 s 1). lia. Qed.

Lemma is_modified_testbit s : is_modified s = Z.testbit s 2.
Proof. apply (truthy_land_pow2 s 2). lia. Qed.

Ltac status_bits :=
  unfold status_written, status_skipped, MASK_TRUNCATED, MASK_UNWRITTEN,
    MASK_MODIFIED;
  repeat (rewrite Z.land_spec || rewrite Z.lor_spec
          || rewrite Z.lnot_spec by lia);
  repeat match goal with
         | |- context [Z.testbit ?x ?k] =>
             is_var x; let b := fresh "b" in
             generalize (Z.testbit x k); intros b; destruct b
         end;
  reflexivity.

Lemma status_written_flags s t :
  is_modified (status_written s t) = true /\
  is_unwritten (status_written s t) = false /\
  is_truncated (status_written s t) = t.
Proof.
  rewrite is_modified_testbit, is_unwritten_testbit, is_truncated_testbit.
  repeat split; destruct t; status_bits.
Qed.

Lemma status_skipped_flags s :
  is_modified (status_skipped s) = false /\
  is_unwritten (status_skipped s) = is_unwritten s /\
  is_truncated (status_skipped s) = is_truncated s.
Proof.
  rewrite !is_modified_testbit, !is_unwritten_testbit, !is_truncated_testbit.
  repeat split; status_bits.
Qed.

(** A property checked on the 256 bytes holds of every byte. *)
Lemma byte_cases (P : Z -> bool) :
  forallb P (Z.of_nat <$> seq 0 256) = true ->
  forall s, (0 <= s < 256)%Z -> P s = true.
Proof.
  intros H s Hs. rewrite forallb_forall in H. apply H.
  apply list_elem_of_In, list_elem_of_fmap. exists (Z.to_nat s). split; [lia|].
  apply list_elem_of_In, in_seq. lia.
Qed.

Lemma status_written_byte s t :
  (0 <= s < 256)%Z -> is_byte (status_written s t) = true.
Proof.
  revert s. destruct t; apply byte_cases; vm_compute; reflexivity.
Qed.

Lemma status_skipped_byte s :
  (0 <= s < 256)%Z -> is_byte (status_skipped s) = true.
Proof. revert s. apply byte_cases. vm_compute. reflexivity. Qed.

Lemma is_byte_true v : is_byte v = true <-> (0 <= v < 256)%Z.
Proof. unfold is_byte. lia. Qed.

(** ** UTF-8: the encoder in arithmetic form *)

(** Linear arithmetic with quotients and remainders by constants. *)
Ltac zlia := Z.to_euclidean_division_equations; lia.

Lemma lor_small (hi bound x : Z) :
  forallb (fun s => if (s <? bound)%Z then (Z.lor hi s =? hi + s)%Z else true)
          (Z.of_nat <$> seq 0 256) = true ->
  (0 <= x < bound)%Z -> (bound <= 256)%Z -> Z.lor hi x = (hi + x)%Z.
Proof.
  intros H Hx Hb.
  pose proof (byte_cases _ H x ltac:(lia)) as Hc. simpl in Hc.
  destruct (Z.ltb_spec x bound); [|lia]. lia.
Qed.

Lemma lor_80 x : (0 <= x < 64)%Z -> Z.lor 0x80 x = (0x80 + x)%Z.
Proof. intros. apply (lor_small 0x80 64); [by vm_compute|lia|lia]. Qed.

Lemma lor_C0 x : (0 <= x < 32)%Z -> Z.lor 0xC0 x = (0xC0 + x)%Z.
Proof. intros. apply (lor_small 0xC0 32); [by vm_compute|lia|lia]. Qed.

Lemma lor_E0 x : (0 <= x < 16)%Z -> Z.lor 0xE0 x = (0xE0 + x)%Z.
Proof. intros. apply (lor_small 0xE0 16); [by vm_compute|lia|lia]. Qed.

Lemma lor_F0 x : (0 <= x < 8)%Z -> Z.lor 0xF0 x = (0xF0 + x)%Z.
Proof. intros. apply (lor_small 0xF0 8); [by vm_compute|lia|lia]. Qed.

Lemma land_3F x : Z.land x 0x3F = (x mod 64)%Z.
Proof. apply (Z.land_ones x 6). lia. Qed.

(** The bytes of a code point, without bit operations. *)
Definition utf8_bytes (ch : Z) : list Z :=
  if (ch <? 0x80)%Z then [ch]
  else if (ch <? 0x800)%Z then [0xC0 + ch / 64; 0x80 + ch mod 64]%Z
  else if (ch <? 0x10000)%Z then
    [0xE0 + ch / 4096; 0x80 + (ch / 64) mod 64; 0x80 + ch mod 64]%Z
  else
    [0xF0 + ch / 262144; 0x80 + (ch / 4096) mod 64;
     0x80 + (ch / 64) mod 64; 0x80 + ch mod 64]%Z.

(** A code point that [str.encode] accepts. *)
Definition is_scalar_value (ch : Z) : Prop :=
  (0 <= ch <= 0x10FFFF)%Z /\ is_surrogate ch = false.

Lemma utf8_encode_char_scalar ch :
  is_scalar_value ch -> utf8_encode_char ch = Some (utf8_bytes ch).
Proof.
  intros [Hr Hs]. unfold utf8_encode_char, utf8_bytes. rewrite Hs.
  rewrite !land_3F, !Z.shiftr_div_pow2 by lia.
  change (2 ^ 6)%Z with 64%Z. change (2 ^ 12)%Z with 4096%Z.
  change (2 ^ 18)%Z with 262144%Z.
  destruct (Z.ltb_spec ch 0); [lia|].
  destruct (Z.ltb_spec ch 0x80); [done|].
  destruct (Z.ltb_spec ch 0x800).
  { rewrite lor_C0, lor_80 by zlia. done. }
  destruct (Z.ltb_spec ch 0x10000).
  { rewrite lor_E0, !lor_80 by zlia. done. }
  destruct (Z.leb_spec ch 0x10FFFF); [|lia].
  rewrite lor_F0, !lor_80 by zlia. done.
Qed.

Lemma utf8_encode_char_some ch bs :
  utf8_encode_char ch = Some bs -> is_scalar_value ch.
Proof.
  unfold utf8_encode_char, is_scalar_value.
  destruct (Z.ltb_spec ch 0); [done|].
  destruct (Z.ltb_spec ch 0x80).
  { intros _. unfold is_surrogate. lia. }
  destruct (Z.ltb_spec ch 0x800).
  { intros _. unfold is_surrogate. lia. }
  destruct (is_surrogate ch) eqn:Hs; [done|].
  destruct (Z.ltb_spec ch 0x10000); [intros _; lia|].
  destruct (Z.leb_spec ch 0x10FFFF); [intros _; lia|done].
Qed.

Lemma utf8_bytes_length ch : 1 <= length (utf8_bytes ch) <= 4.
Proof. unfold utf8_bytes. repeat case_match; simpl; lia. Qed.

Lemma utf8_bytes_is_byte ch :
  is_scalar_value ch -> Forall (fun b => 0 <= b < 256)%Z (utf8_bytes ch).
Proof.
  intros [Hr Hs]. unfold utf8_bytes.
  destruct (Z.ltb_spec ch 0x80); [repeat constructor; lia|].
  destruct (Z.ltb_spec ch 0x800); [repeat constructor; zlia|].
  destruct (Z.ltb_spec ch 0x10000); repeat constructor; zlia.
Qed.

Lemma utf8_encode_scalar s :
  Forall is_scalar_value s -> utf8_encode s = Ok (s ≫= utf8_bytes).
Proof.
  induction 1 as [|ch s Hch _ IH]; [done|].
  cbn [utf8_encode]. rewrite (utf8_encode_char_scalar ch Hch), IH. done.
Qed.

Lemma utf8_encode_ok_inv s bs :
  utf8_encode s = Ok bs -> Forall is_scalar_value s /\ bs = s ≫= utf8_bytes.
Proof.
  revert bs. induction s as [|ch s IH]; intros bs; cbn [utf8_encode].
  - intros [= <-]. split; [constructor|done].
  - destruct (utf8_encode_char ch) as [cb|] eqn:Hc; [|done].
    destruct (utf8_encode s) as [bs'| |]; try done.
    intros [= <-]. destruct (IH bs' eq_refl) as [IH1 IH2].
    pose proof (utf8_encode_char_some _ _ Hc) as Hsc. split; [by constructor|].
    rewrite (utf8_encode_char_scalar ch Hsc) in Hc. injection Hc as <-.
    by rewrite IH2.
Qed.

Lemma utf8_encode_raises s :
  utf8_encode s = Ok (s ≫= utf8_bytes) \/ utf8_encode s = Raise UnicodeEncodeError.
Proof.
  induction s as [|ch s IH]; cbn [utf8_encode]; [by left|].
  destruct (utf8_encode_char ch) as [cb|] eqn:Hc; [|by right].
  destruct IH as [-> | ->]; [|by right]. left.
  pose proof (utf8_encode_char_some _ _ Hc) as Hsc.
  rewrite (utf8_encode_char_scalar ch Hsc) in Hc. by injection Hc as <-.
Qed.

Lemma utf8_bytes_bind_length s : length (s ≫= utf8_bytes) <= 4 * length s.
Proof.
  induction s as [|ch s IH]; [done|].
  rewrite bind_cons, length_app. pose proof (utf8_bytes_length ch). simpl. lia.
Qed.

Lemma utf8_bytes_bind_is_byte s :
  Forall is_scalar_value s -> Forall (fun b => 0 <= b < 256)%Z (s ≫= utf8_bytes).
Proof.
  induction 1 as [|ch s Hch _ IH]; [constructor|].
  rewrite bind_cons. apply Forall_app. split; [by apply utf8_bytes_is_byte|done].
Qed.

(** ** UTF-8: decoding what the encoder wrote *)

Lemma is_cont_true b : is_cont b = true <-> (0x80 <= b < 0xC0)%Z.
Proof. unfold is_cont. lia. Qed.

Lemma utf8_decode_bytes ch rest :
  is_scalar_value ch ->
  utf8_decode_ignore (utf8_bytes ch ++ rest) = ch :: utf8_decode_ignore rest.
Proof.
  intros [Hr Hs]. unfold is_surrogate in Hs. unfold utf8_bytes.
  destruct (Z.ltb_spec ch 0x80) as [H1|H1].
  { cbn [app utf8_decode_ignore]. destruct (Z.ltb_spec ch 0x80); [done|lia]. }
  destruct (Z.ltb_spec ch 0x800) as [H2|H2].
  { cbn [app utf8_decode_ignore].
    destruct (Z.ltb_spec (0xC0 + ch / 64) 0x80); [zlia|].
    destruct (Z.ltb_spec (0xC0 + ch / 64) 0xE0); [|zlia].
    destruct (Z.ltb_spec (0xC0 + ch / 64) 0xC2); [zlia|].
    assert (is_cont (0x80 + ch mod 64) = true) as ->
      by (apply is_cont_true; zlia).
    cbn [negb]. f_equal. rewrite !Z.shiftl_mul_pow2 by lia. zlia. }
  destruct (Z.ltb_spec ch 0x10000) as [H3|H3].
  { cbn [app utf8_decode_ignore].
    destruct (Z.ltb_spec (0xE0 + ch / 4096) 0x80); [zlia|].
    destruct (Z.ltb_spec (0xE0 + ch / 4096) 0xE0); [zlia|].
    destruct (Z.ltb_spec (0xE0 + ch / 4096) 0xF0); [|zlia].
    assert (bad_second3 (0xE0 + ch / 4096) (0x80 + ch / 64 mod 64) = false) as ->.
    { unfold bad_second3.
      assert (is_cont (0x80 + ch / 64 mod 64) = true) as ->
        by (apply is_cont_true; zlia).
      cbn [negb orb].
      destruct (Z.ltb_spec (0x80 + ch / 64 mod 64) 0xA0);
        [destruct (Z.eqb_spec (0xE0 + ch / 4096) 0xE0)
        |destruct (Z.eqb_spec (0xE0 + ch / 4096) 0xED)]; try done; zlia. }
    assert (is_cont (0x80 + ch mod 64) = true) as ->
      by (apply is_cont_true; zlia).
    cbn [negb]. f_equal. rewrite !Z.shiftl_mul_pow2 by lia. zlia. }
  cbn [app utf8_decode_ignore].
  destruct (Z.ltb_spec (0xF0 + ch / 262144) 0x80); [zlia|].
  destruct (Z.ltb_spec (0xF0 + ch / 262144) 0xE0); [zlia|].
  destruct (Z.ltb_spec (0xF0 + ch / 262144) 0xF0); [zlia|].
  destruct (Z.ltb_spec (0xF0 + ch / 262144) 0xF5); [|zlia].
  assert (bad_second4 (0xF0 + ch / 262144) (0x80 + ch / 4096 mod 64) = false) as ->.
  { unfold bad_second4.
    assert (is_cont (0x80 + ch / 4096 mod 64) = true) as ->
      by (apply is_cont_true; zlia).
    cbn [negb orb].
    destruct (Z.ltb_spec (0x80 + ch / 4096 mod 64) 0x90);
      [destruct (Z.eqb_spec (0xF0 + ch / 262144) 0xF0)
      |destruct (Z.eqb_spec (0xF0 + ch / 262144) 0xF4)]; try done; zlia. }
  assert (is_cont (0x80 + ch / 64 mod 64) = true) as ->
    by (apply is_cont_true; zlia).
  assert (is_cont (0x80 + ch mod 64) = true) as ->
    by (apply is_cont_true; zlia).
  cbn [negb]. f_equal. rewrite !Z.shiftl_mul_pow2 by lia. zlia.
Qed.

(** Decoding inverts encoding on every string the encoder accepts. *)
Lemma utf8_decode_encode s :
  Forall is_scalar_value s -> utf8_decode_ignore (s ≫= utf8_bytes) = s.
Proof.
  induction 1 as [|ch s Hch _ IH]; [done|].
  rewrite bind_cons, utf8_decode_bytes by done. by rewrite IH.
Qed.

(** ** Which bytes each operation can change *)

Definition in_range (start n : nat) (j : nat) : Prop := start <= j < start + n.

Lemma touches_bind_lift {A B} P (r : outcome A) (k : A -> M B) :
  (forall a, r = Ok a -> touches P (k a)) -> touches P (bind (lift r) k).
Proof.
  intros Hk buf. unfold bind, lift. destruct r as [a| |]; try done.
  by apply Hk.
Qed.

Lemma touches_read_uint64 P offset : touches P (_read_uint64 offset).
Proof. apply touches_bind; [apply touches_getslice|intros; apply touches_ret]. Qed.

Lemma touches_read_uint32 P offset : touches P (_read_uint32 offset).
Proof. apply touches_bind; [apply touches_getslice|intros; apply touches_ret]. Qed.

Lemma touches_write_uint64 offset v : touches (in_range offset 8) (_write_uint64 offset v).
Proof.
  apply touches_bind_lift. intros bs Hbs. apply touches_setslice.
  - rewrite (to_bytes_length _ _ _ Hbs). done.
  - apply to_bytes_inv in Hbs as [-> _]. apply le_bytes_is_byte.
Qed.

Lemma touches_write_uint32 offset v : touches (in_range offset 4) (_write_uint32 offset v).
Proof.
  apply touches_bind_lift. intros bs Hbs. apply touches_setslice.
  - rewrite (to_bytes_length _ _ _ Hbs). done.
  - apply to_bytes_inv in Hbs as [-> _]. apply le_bytes_is_byte.
Qed.

Lemma touches_write_scalar offset v ty sz :
  type_sizes ty = Some sz -> touches (in_range offset sz) (_write_scalar offset v ty).
Proof.
  destruct ty; cbn [type_sizes]; intros [= <-]; unfold _write_scalar.
  - apply touches_bind; [apply touches_np_view|intros _].
    destruct v; try apply touches_raise.
    apply touches_setslice; [by rewrite le_bytes_length|apply le_bytes_is_byte].
  - apply touches_bind; [apply touches_np_view|intros _].
    destruct v; try apply touches_raise.
    + case_match; [|apply touches_raise].
      apply touches_setslice; [by rewrite le_bytes_length|apply le_bytes_is_byte].
    + apply touches_setslice; [by rewrite le_bytes_length|apply le_bytes_is_byte].
  - apply touches_bind_lift. intros b _. apply touches_setitem.
    unfold in_range. lia.
Qed.

Lemma touches_write_string offset v f :
  fi_size f = 4 + fi_string_max_chars f * 4 ->
  touches (in_range offset (fi_size f)) (_write_string offset v f).
Proof.
  intros Hsz. unfold _write_string. destruct v as [| | |s|a];
    try apply touches_raise.
  2: { destruct (a_shape a); apply touches_raise. }
  apply touches_bind_lift. intros encoded Henc.
  apply utf8_encode_ok_inv in Henc as [Hscalar ->].
  assert (length ((if bool_decide (fi_string_max_chars f < length s)
                   then take (fi_string_max_chars f) s else s) ≫= utf8_bytes)
          <= fi_string_max_chars f * 4) as Hlen.
  { etrans; [apply utf8_bytes_bind_length|].
    case_bool_decide; [rewrite length_take|]; lia. }
  apply touches_bind.
  { eapply touches_weaken; [|apply touches_write_uint32].
    unfold in_range. intros j. lia. }
  intros _. apply touches_bind; [|intros; apply touches_ret].
  apply touches_setslice; [|by apply utf8_bytes_bind_is_byte].
  unfold in_range. intros j. lia.
Qed.

Lemma touches_write_array offset v f dt sh :
  fi_array_dtype f = Some dt -> fi_array_shape f = Some sh ->
  fi_size f = np_prod sh * itemsize dt ->
  touches (in_range offset (fi_size f)) (_write_array offset v f).
Proof.
  intros Hdt Hsh Hsz. unfold _write_array. rewrite Hdt, Hsh.
  apply touches_bind_lift. intros a _.
  set (flat := if decide (np_prod sh < length (a_data a)) then _ else _).
  assert (length flat.1 = np_prod sh) as Hlen.
  { subst flat.
    repeat case_decide; cbn [fst];
      rewrite ?length_take, ?length_app, ?length_replicate; lia. }
  destruct flat as [flat_value t]. cbn [fst] in Hlen.
  apply touches_bind; [apply touches_np_view|intros _].
  apply touches_bind; [|intros; apply touches_ret].
  apply touches_setslice; [|apply join_le_bytes_is_byte].
  rewrite join_le_bytes_length, Hlen, Hsz. done.
Qed.

Lemma touches_write_value offset v f :
  field_kind f -> touches (in_range offset (fi_size f)) (write_value offset v f).
Proof.
  intros [Hs Hsz|Hs Hstr Hsz _|dt sh Hs Hstr Harr Hdt Hsh Hsz]; unfold write_value.
  - rewrite Hs. apply touches_bind; [|intros; apply touches_ret].
    by apply touches_write_scalar.
  - rewrite Hs, Hstr. by apply touches_write_string.
  - rewrite Hs, Hstr, Harr. by eapply touches_write_array.
Qed.

Lemma touches_write_field offset data idx f :
  field_kind f ->
  touches (footprint offset idx f) (write_field offset (offset + 8) data idx f).
Proof.
  intros Hk. unfold write_field.
  assert (forall st, touches (footprint offset idx f)
            (buf_setitem (offset + 8 + idx) st)) as Hset.
  { intros st. apply touches_setitem. by left. }
  destruct (data !! fi_name f) as [v|].
  - apply touches_bind.
    + eapply touches_weaken; [|by apply touches_write_value].
      intros j Hj. right. exact Hj.
    + intros t. apply touches_bind; [apply touches_getitem|]. intros st. apply Hset.
  - apply touches_bind; [apply touches_getitem|]. intros st. apply Hset.
Qed.

Section slot_frames.
Variable self : SharedMemory.
Hypothesis Hwf : wf_handle self.

(** The footprint of every field lies inside its slot, away from the two
    sequence counters. *)
Lemma footprint_in_slot slot_idx i f j :
  fields (_layout self) !! i = Some f ->
  footprint (_get_slot_offset self slot_idx) i f j ->
  _get_slot_offset self slot_idx + 8 <= j
    < _get_slot_offset self slot_idx + _slot_size self - 8.
Proof.
  intros Hf Hj. destruct (layout_field_bounds self Hwf i f Hf) as [H1 H2].
  pose proof (lookup_lt_Some _ _ _ Hf). unfold footprint in Hj. lia.
Qed.

Lemma touches_write_fields slot_idx data :
  touches (fun j => _get_slot_offset self slot_idx + 8 <= j
                      < _get_slot_offset self slot_idx + _slot_size self - 8)
    (for_enumerate (write_field (_get_slot_offset self slot_idx)
                      (_get_slot_offset self slot_idx + 8) data)
       0 (fields (_layout self))).
Proof.
  apply touches_for_enumerate. intros i f Hf. simpl.
  eapply touches_weaken; [|apply touches_write_field].
  - intros j. by apply footprint_in_slot.
  - eapply Forall_lookup_1; [apply (layout_fields_kind self Hwf)|done].
Qed.

Lemma touches_write_to_slot slot_idx data :
  touches (in_range (_get_slot_offset self slot_idx) (_slot_size self))
    (_write_to_slot self slot_idx data).
Proof.
  pose proof (slot_size_min self Hwf) as Hmin.
  unfold _write_to_slot.
  apply touches_bind; [apply touches_read_uint64|intros sq].
  apply touches_bind.
  { eapply touches_weaken; [|apply touches_write_uint64].
    unfold in_range. intros j. lia. }
  intros _. apply touches_bind.
  { eapply touches_weaken; [|apply touches_write_fields].
    unfold in_range. intros j. simpl. lia. }
  intros _. eapply touches_weaken; [|apply touches_write_uint64].
  unfold in_range. intros j. lia.
Qed.

(** A read that does not reset the flags changes nothing. *)
Lemma touches_read_value P offset f : touches P (read_value offset f).
Proof.
  assert (forall count dt off, touches P (np_view_load count dt off)) as Hload.
  { intros. apply touches_bind; [apply touches_np_view|intros _].
    apply touches_bind; [apply touches_getslice|intros; apply touches_ret]. }
  unfold read_value. destruct (fi_is_scalar f).
  { unfold _read_scalar. destruct (fi_field_type f); try apply touches_raise.
    - apply touches_bind; [apply Hload|intros; apply touches_ret].
    - apply touches_bind; [apply Hload|intros; apply touches_ret].
    - apply touches_bind; [apply touches_getitem|intros; apply touches_ret]. }
  destruct (fi_is_string f).
  { apply touches_bind; [apply touches_read_uint32|intros len].
    apply touches_bind; [apply touches_getslice|intros; apply touches_ret]. }
  destruct (fi_is_array f); [|apply touches_raise].
  unfold _read_array. destruct (fi_array_dtype f); [|apply touches_raise].
  destruct (fi_array_shape f); [|apply touches_raise].
  apply touches_bind; [apply Hload|intros; apply touches_ret].
Qed.

Lemma touches_read_field P offset so idx f acc :
  touches P (read_field offset so idx f acc).
Proof.
  apply touches_bind; [apply touches_getitem|intros st].
  apply touches_bind; [apply touches_read_value|intros; apply touches_ret].
Qed.

Lemma touches_read_from_slot slot_idx reset_modified :
  touches (fun j => reset_modified = true /\
                    _get_slot_offset self slot_idx + 8 <= j
                      < _get_slot_offset self slot_idx + 8
                        + length (fields (_layout self)))
    (_read_from_slot self slot_idx reset_modified).
Proof.
  unfold _read_from_slot.
  apply touches_bind; [apply touches_read_uint64|intros sb].
  apply touches_bind.
  { apply touches_fold_enumerate. intros. apply touches_read_field. }
  intros r. apply touches_bind; [apply touches_read_uint64|intros se].
  case_match; [apply touches_ret|].
  apply touches_bind; [|intros; apply touches_ret].
  destruct reset_modified; [|apply touches_ret].
  apply touches_for_enumerate. intros i x Hx.
  apply lookup_seq in Hx as [-> Hi]. simpl.
  apply touches_bind; [apply touches_getitem|intros st].
  apply touches_setitem. split; [done|lia].
Qed.

Lemma touches_set_fifo_metadata w r c :
  touches (fun j => is_fifo self = true /\ j < 24) (_set_fifo_metadata self w r c).
Proof.
  unfold _set_fifo_metadata. rewrite (wf_metadata_offset _ Hwf).
  destruct (is_fifo self); simpl; [|apply touches_ret].
  repeat (apply touches_bind; [|intros _]);
    (eapply touches_weaken; [|apply touches_write_uint64]);
    unfold in_range; intros j; lia.
Qed.

Lemma touches_get_fifo_metadata P : touches P (_get_fifo_metadata self).
Proof.
  unfold _get_fifo_metadata. destruct (is_fifo self); simpl; [|apply touches_ret].
  repeat (apply touches_bind; [apply touches_read_uint64|intros ?]).
  apply touches_ret.
Qed.

End slot_frames.

(** ** Loops *)

Lemma for_enumerate_cons {A} (body : nat -> A -> M unit) idx x l buf :
  for_enumerate body idx (x :: l) buf =
  bind (body idx x) (fun _ => for_enumerate body (S idx) l) buf.
Proof.
  unfold for_enumerate. simpl. unfold bind.
  destruct (body idx x buf) as [[[]| |] buf1]; reflexivity.
Qed.

(** What a completed loop did around iteration [k]: the iteration ran on a
    buffer that differs from the initial one only where earlier iterations
    write, and the final buffer differs from its result only where later
    iterations write. *)
Lemma for_enumerate_inv {A} (body : nat -> A -> M unit)
    (Fp : nat -> A -> nat -> Prop) l :
  forall idx buf buf',
  (forall k x, l !! k = Some x -> touches (Fp (idx + k) x) (body (idx + k) x)) ->
  for_enumerate body idx l buf = (Ok tt, buf') ->
  forall k x, l !! k = Some x ->
  exists b1 b2,
    body (idx + k) x b1 = (Ok tt, b2) /\
    length b1 = length buf /\ length buf' = length buf /\
    (forall j, (forall k' y, k' < k -> l !! k' = Some y -> ~ Fp (idx + k') y j) ->
               b1 !! j = buf !! j) /\
    (forall j, (forall k' y, k < k' -> l !! k' = Some y -> ~ Fp (idx + k') y j) ->
               buf' !! j = b2 !! j).
Proof.
  induction l as [|x0 l IH]; intros idx buf buf' Ht Hrun k x Hx; [done|].
  rewrite for_enumerate_cons in Hrun.
  apply bind_ok_inv in Hrun as ([] & bufx & Hbody & Hrest).
  assert (forall k' y, l !! k' = Some y ->
            touches (Fp (S idx + k') y) (body (S idx + k') y)) as Ht'.
  { intros k' y Hy. specialize (Ht (S k') y Hy).
    by rewrite Nat.add_succ_r in Ht. }
  pose proof (Ht 0 x0 eq_refl) as Ht0. rewrite Nat.add_0_r in Ht0.
  destruct (Ht0 buf) as (Hlen0 & Hfr0 & _). rewrite Hbody in Hlen0, Hfr0.
  simpl in *.
  destruct k as [|k].
  - injection Hx as <-. exists buf, bufx. rewrite Nat.add_0_r.
    pose proof (touches_for_enumerate
      (fun j => exists k' y, l !! k' = Some y /\ Fp (S idx + k') y j)
      body l (S idx)) as Hloop.
    destruct (Hloop (fun i y Hy => touches_weaken _ _ _
                (fun j Hj => ex_intro _ i (ex_intro _ y (conj Hy Hj)))
                (Ht' i y Hy)) bufx) as (Hlen1 & Hfr1 & _).
    rewrite Hrest in Hlen1, Hfr1. simpl in *.
    repeat split; try done; try congruence.
    intros j Hj. apply Hfr1. intros (k' & y & Hy & HF).
    apply (Hj (S k') y); [lia|done|]. by rewrite Nat.add_succ_r.
  - destruct (IH (S idx) bufx buf' Ht' Hrest k x Hx)
      as (b1 & b2 & Hb & Hl1 & Hl2 & Hpre & Hpost).
    exists b1, b2. rewrite Nat.add_succ_r.
    split; [exact Hb|]. split; [congruence|]. split; [congruence|]. split.
    + intros j Hj. rewrite Hpre.
      * apply Hfr0. specialize (Hj 0 x0 ltac:(lia) eq_refl).
        by rewrite Nat.add_0_r in Hj.
      * intros k' y Hk' Hy. specialize (Hj (S k') y ltac:(lia) Hy).
        by rewrite Nat.add_succ_r in Hj.
    + intros j Hj. apply Hpost. intros k' y Hk' Hy.
      specialize (Hj (S k') y ltac:(lia) Hy). by rewrite Nat.add_succ_r in Hj.
Qed.

(** A loop whose iterations all succeed under an invariant succeeds. *)
Lemma for_enumerate_ok {A} (body : nat -> A -> M unit) (Inv : list Z -> Prop) l :
  forall idx buf,
  (forall k x b, l !! k = Some x -> Inv b ->
     exists b', body (idx + k) x b = (Ok tt, b') /\ Inv b') ->
  Inv buf ->
  exists buf', for_enumerate body idx l buf = (Ok tt, buf') /\ Inv buf'.
Proof.
  induction l as [|x0 l IH]; intros idx buf Hb HI.
  - exists buf. done.
  - destruct (Hb 0 x0 buf eq_refl HI) as (b1 & Hb1 & HI1).
    rewrite Nat.add_0_r in Hb1.
    destruct (IH (S idx) b1) as (b' & Hb' & HI'); [|done|].
    { intros k x b Hx HIb. destruct (Hb (S k) x b Hx HIb) as (b2 & ? & ?).
      exists b2. by rewrite Nat.add_succ_r in *. }
    exists b'. rewrite for_enumerate_cons. by rewrite (bind_ok _ _ _ _ _ Hb1).
Qed.

(** ** Inversion of the primitives *)

Lemma getitem_inv i buf v buf' :
  buf_getitem i buf = (Ok v, buf') -> buf' = buf /\ buf !! i = Some v.
Proof.
  unfold buf_getitem. destruct (buf !! i); [|done]. by intros [= <- <-].
Qed.

Lemma getitem_ok i (buf : list Z) v :
  buf !! i = Some v -> buf_getitem i buf = (Ok v, buf).
Proof. unfold buf_getitem. by intros ->. Qed.

Lemma setitem_inv i v buf buf' :
  buf_setitem i v buf = (Ok tt, buf') ->
  i < length buf /\ (0 <= v < 256)%Z /\ buf' = <[i := v]> buf.
Proof.
  unfold buf_setitem. case_decide; [|done].
  destruct (is_byte v) eqn:Hv; [|done]. intros [= <-].
  by apply is_byte_true in Hv.
Qed.

Lemma setitem_ok i v (buf : list Z) :
  i < length buf -> (0 <= v < 256)%Z ->
  buf_setitem i v buf = (Ok tt, <[i := v]> buf).
Proof.
  intros Hi Hv. unfold buf_setitem. rewrite decide_True by done.
  apply is_byte_true in Hv. by rewrite Hv.
Qed.

Lemma setslice_ok start bs (buf : list Z) :
  start + length bs <= length buf ->
  buf_setslice start bs buf =
  (Ok tt, take start buf ++ bs ++ drop (start + length bs) buf).
Proof. intros H. unfold buf_setslice. by rewrite decide_True. Qed.

Lemma np_view_ok count dt offset (buf : list Z) :
  offset + count * itemsize dt <= length buf ->
  np_view count dt offset buf = (Ok tt, buf).
Proof. intros H. unfold np_view. by rewrite decide_True. Qed.

(** ** One iteration of the write loop *)

Lemma write_field_inv offset data idx f buf buf' :
  write_field offset (offset + 8) data idx f buf = (Ok tt, buf') ->
  exists st st0,
    buf' !! (offset + 8 + idx) = Some st /\
    ((exists v t, data !! fi_name f = Some v /\ st = status_written st0 t) \/
     (data !! fi_name f = None /\ buf !! (offset + 8 + idx) = Some st0 /\
      st = status_skipped st0)).
Proof.
  unfold write_field. destruct (data !! fi_name f) as [v|].
  - intros H. apply bind_ok_inv in H as (t & b1 & _ & H).
    apply bind_ok_inv in H as (st0 & b2 & Hget & Hset).
    apply getitem_inv in Hget as [-> Hst0].
    apply setitem_inv in Hset as (Hi & _ & ->).
    exists (status_written st0 t), st0. split.
    + by apply list_lookup_insert_eq.
    + left. by exists v, t.
  - intros H. apply bind_ok_inv in H as (st0 & b2 & Hget & Hset).
    apply getitem_inv in Hget as [-> Hst0].
    apply setitem_inv in Hset as (Hi & _ & ->).
    exists (status_skipped st0), st0. split.
    + by apply list_lookup_insert_eq.
    + by right.
Qed.

(** ** The slot write, inverted *)

Section write_to_slot.
Variable self : SharedMemory.
Hypothesis Hwf : wf_handle self.

Lemma footprint_disjoint offset i k f y j :
  i <> k ->
  fields (_layout self) !! i = Some f ->
  fields (_layout self) !! k = Some y ->
  footprint offset i f j -> ~ footprint offset k y j.
Proof.
  intros Hne Hf Hy Hj Hj'.
  destruct (layout_field_bounds self Hwf i f Hf) as [Hf1 Hf2].
  destruct (layout_field_bounds self Hwf k y Hy) as [Hy1 Hy2].
  pose proof (lookup_lt_Some _ _ _ Hf). pose proof (lookup_lt_Some _ _ _ Hy).
  destruct (decide (i < k)).
  - pose proof (layout_fields_disjoint self Hwf i k f y ltac:(lia) Hf Hy).
    unfold footprint in *. lia.
  - pose proof (layout_fields_disjoint self Hwf k i y f ltac:(lia) Hy Hf).
    unfold footprint in *. lia.
Qed.

Lemma read_uint64_eq offset buf :
  _read_uint64 offset buf = (Ok (from_bytes (slice offset 8 buf)), buf).
Proof. reflexivity. Qed.

Lemma write_uint64_inv offset v buf buf' :
  _write_uint64 offset v buf = (Ok tt, buf') ->
  (0 <= v < 2 ^ 64)%Z /\ offset + 8 <= length buf /\
  buf' = take offset buf ++ le_bytes 8 v ++ drop (offset + 8) buf.
Proof.
  unfold _write_uint64. intros H.
  apply bind_ok_inv in H as (bs & b1 & Hbs & Hset).
  unfold lift in Hbs. injection Hbs as Hbs <-.
  apply to_bytes_inv in Hbs as [-> Hv].
  unfold buf_setslice in Hset. rewrite le_bytes_length in Hset.
  case_decide; [|done]. injection Hset as <-.
  change (256 ^ Z.of_nat 8)%Z with (2 ^ 64)%Z in Hv. done.
Qed.

Lemma write_uint64_ok offset v (buf : list Z) :
  (0 <= v < 2 ^ 64)%Z -> offset + 8 <= length buf ->
  _write_uint64 offset v buf =
  (Ok tt, take offset buf ++ le_bytes 8 v ++ drop (offset + 8) buf).
Proof.
  intros Hv Hlen. unfold _write_uint64, bind, lift.
  rewrite to_bytes_ok by (change (256 ^ Z.of_nat 8)%Z with (2 ^ 64)%Z; lia).
  rewrite setslice_ok by (rewrite le_bytes_length; lia).
  by rewrite le_bytes_length.
Qed.

Lemma stored_uint64_slice offset v (buf : list Z) :
  offset + 8 <= length buf ->
  slice offset 8 (take offset buf ++ le_bytes 8 v ++ drop (offset + 8) buf)
  = le_bytes 8 v.
Proof.
  intros H. pose proof (setslice_slice offset (le_bytes 8 v) buf) as Hs.
  rewrite le_bytes_length in Hs. by apply Hs.
Qed.

(** A completed [_write_to_slot]: both sequence counters hold the
    incremented number, and every field went through its iteration, whose
    result on the field's own bytes is what the final buffer holds. *)
Lemma write_to_slot_inv slot_idx data buf buf' :
  _write_to_slot self slot_idx data buf = (Ok tt, buf') ->
  let offset := _get_slot_offset self slot_idx in
  let sq := (from_bytes (slice offset 8 buf) + 1)%Z in
  (0 <= sq < 2 ^ 64)%Z /\
  length buf' = length buf /\
  offset + _slot_size self <= length buf /\
  slice offset 8 buf' = le_bytes 8 sq /\
  slice (offset + _slot_size self - 8) 8 buf' = le_bytes 8 sq /\
  forall i f, fields (_layout self) !! i = Some f ->
    exists b1 b2,
      write_field offset (offset + 8) data i f b1 = (Ok tt, b2) /\
      length b1 = length buf /\
      b1 !! (offset + 8 + i) = buf !! (offset + 8 + i) /\
      forall j, footprint offset i f j -> buf' !! j = b2 !! j.
Proof.
  intros Hrun offset sq. pose proof (slot_size_min self Hwf) as Hmin.
  unfold _write_to_slot in Hrun. fold offset in Hrun.
  apply bind_ok_inv in Hrun as (sq0 & b0 & Hrd & Hrun).
  rewrite read_uint64_eq in Hrd. injection Hrd as <- <-. fold sq in Hrun.
  apply bind_ok_inv in Hrun as ([] & b1 & Hw1 & Hrun).
  apply write_uint64_inv in Hw1 as (Hsq & Hlen1 & Hb1).
  apply bind_ok_inv in Hrun as ([] & b2 & Hloop & Hw2).
  apply write_uint64_inv in Hw2 as (_ & Hlen2 & Hb').
  assert (length b1 = length buf) as Hl1.
  { rewrite Hb1. pose proof (setslice_length offset (le_bytes 8 sq) buf) as Hs.
    rewrite le_bytes_length in Hs. apply Hs. lia. }
  destruct (touches_write_fields self Hwf slot_idx data b1) as (Hl2 & Hfr2 & _).
  fold offset in Hl2, Hfr2. rewrite Hloop in Hl2, Hfr2. simpl in Hl2, Hfr2.
  assert (length buf' = length b2) as Hl3.
  { rewrite Hb'.
    pose proof (setslice_length (offset + _slot_size self - 8) (le_bytes 8 sq) b2)
      as Hs.
    rewrite le_bytes_length in Hs.
    replace (offset + _slot_size self - 8 + 8) with (offset + _slot_size self) in *
      by lia.
    apply Hs. lia. }
  assert (forall j, j < offset + _slot_size self - 8 -> buf' !! j = b2 !! j) as Hfr3.
  { intros j Hj. rewrite Hb'.
    pose proof (setslice_lookup (offset + _slot_size self - 8) (le_bytes 8 sq) b2 j)
      as Hs.
    rewrite le_bytes_length in Hs. rewrite Hs by lia. by rewrite decide_True. }
  split; [done|]. split; [congruence|]. split; [lia|]. split; [|split].
  - rewrite <- (stored_uint64_slice offset sq buf) by lia. rewrite <- Hb1.
    apply slice_ext. intros j Hj. rewrite Hfr3 by lia. apply Hfr2. lia.
  - rewrite Hb'. apply stored_uint64_slice. lia.
  - intros i f Hf.
    destruct (for_enumerate_inv (write_field offset (offset + 8) data)
                (footprint offset) (fields (_layout self)) 0 b1 b2) with (k := i) (x := f)
      as (bb1 & bb2 & Hbody & Hlb1 & _ & Hpre & Hpost); [|done|done|].
    { intros k x Hx. simpl. apply touches_write_field.
      eapply Forall_lookup_1; [apply (layout_fields_kind self Hwf)|done]. }
    simpl in Hbody. exists bb1, bb2. split; [done|]. split; [congruence|].
    pose proof (lookup_lt_Some _ _ _ Hf) as Hi.
    split.
    + rewrite Hpre.
      * rewrite Hb1.
        pose proof (setslice_lookup offset (le_bytes 8 sq) buf (offset + 8 + i))
          as Hs.
        rewrite le_bytes_length in Hs. rewrite Hs by lia.
        rewrite decide_False by lia. by rewrite decide_False by lia.
      * intros k' y Hk' Hy. simpl.
        apply (footprint_disjoint offset i k' f y); [lia|done|done|]. by left.
    + intros j Hj.
      pose proof (footprint_in_slot self Hwf slot_idx i f j Hf Hj) as Hin.
      fold offset in Hin. rewrite Hfr3 by lia. apply Hpost.
      intros k' y Hk' Hy. simpl.
      apply (footprint_disjoint offset i k' f y); [lia|done|done|done].
Qed.

End write_to_slot.

(** ** Concrete regions used to exercise the theorems *)

(** The schema [{v: F64, n: I32}] of the scenarios. *)
Definition vn_dataclass : list (string * pytype) :=
  [("v"%string, TyFloat); ("n"%string, TyInt)].

Definition vn_layout : _SharedMemoryLayout :=
  Eval vm_compute in _calculate_layout
    [ {| fi_name := "v"; fi_field_type := TyFloat; fi_is_scalar := true;
         fi_is_string := false; fi_is_array := false; fi_string_max_chars := 0;
         fi_array_dtype := None; fi_array_shape := None; fi_size := 8;
         fi_offset := 0 |};
      {| fi_name := "n"; fi_field_type := TyInt; fi_is_scalar := true;
         fi_is_string := false; fi_is_array := false; fi_string_max_chars := 0;
         fi_array_dtype := None; fi_array_shape := None; fi_size := 4;
         fi_offset := 0 |} ].

(** Its second field, as laid out. *)
Definition vn_field_n : _FieldInfo :=
  {| fi_name := "n"; fi_field_type := TyInt; fi_is_scalar := true;
     fi_is_string := false; fi_is_array := false; fi_string_max_chars := 0;
     fi_array_dtype := None; fi_array_shape := None; fi_size := 4;
     fi_offset := 24 |}.

(** The single-slot handle on that schema. *)
Definition vn_single : SharedMemory :=
  {| dataclass_type := vn_dataclass; slots := 1; is_fifo := false;
     _layout := vn_layout; _slot_size := total_size vn_layout;
     _metadata_offset := 0; _data_offset := 0;
     _write_buffer := ∅; _write_buffer_dirty := false |}.

(** The region right after creation. *)
Definition vn_fresh : list Z :=
  Eval vm_compute in (__init__ vn_dataclass 1 true []).2.

Lemma vn_single_created : __init__ vn_dataclass 1 true [] = (Ok vn_single, vn_fresh).
Proof. vm_compute. reflexivity. Qed.

Lemma vn_single_wf : wf_handle vn_single.
Proof. split; vm_compute; reflexivity. Qed.

(** ** C7: the MODIFIED bit after a publish *)



(** ** Slot initialisation *)

Lemma fill_status_spec so v l : forall idx (buf : list Z),
  (0 <= v < 256)%Z ->
  so + idx + length l <= length buf ->
  exists buf',
    for_enumerate (fun i (_ : nat) => buf_setitem (so + i) v) idx l buf = (Ok tt, buf') /\
    length buf' = length buf /\
    forall j, buf' !! j =
      if decide (so + idx <= j < so + idx + length l) then Some v else buf !! j.
Proof.
  induction l as [|x l IH]; intros idx buf Hv Hlen.
  - exists buf. split; [done|]. split; [done|]. intros j.
    rewrite decide_False; [done|]. simpl. lia.
  - simpl in Hlen.
    destruct (IH (S idx) (<[so + idx := v]> buf) Hv) as (buf' & Hrun & Hl & Hj).
    { rewrite length_insert. lia. }
    exists buf'. rewrite for_enumerate_cons.
    rewrite (bind_ok _ _ _ _ _ (setitem_ok (so + idx) v buf ltac:(lia) Hv)).
    split; [done|]. rewrite length_insert in Hl. split; [done|].
    intros j. rewrite Hj. simpl.
    destruct (decide (j = so + idx)) as [->|Hne].
    + rewrite decide_False by lia. rewrite decide_True by lia.
      apply list_lookup_insert_eq. lia.
    + rewrite list_lookup_insert_ne by done.
      repeat case_decide; try done; lia.
Qed.

Section initialize.
Variable self : SharedMemory.
Hypothesis Hwf : wf_handle self.

(** A slot as [_initialize_slot] leaves it. *)
Definition slot_fresh (slot_idx : nat) (buf : list Z) : Prop :=
  let offset := _get_slot_offset self slot_idx in
  slice offset 8 buf = le_bytes 8 0 /\
  slice (offset + _slot_size self - 8) 8 buf = le_bytes 8 0 /\
  forall i, i < length (fields (_layout self)) ->
    buf !! (offset + 8 + i) = Some MASK_UNWRITTEN.

Lemma initialize_slot_spec slot_idx buf :
  _get_slot_offset self slot_idx + _slot_size self <= length buf ->
  exists buf',
    _initialize_slot self slot_idx buf = (Ok tt, buf') /\
    length buf' = length buf /\
    slot_fresh slot_idx buf' /\
    (forall j, ~ in_range (_get_slot_offset self slot_idx) (_slot_size self) j ->
               buf' !! j = buf !! j) /\
    (all_bytes buf -> all_bytes buf').
Proof.
  intros Hlen. pose proof (slot_size_min self Hwf) as Hmin.
  set (offset := _get_slot_offset self slot_idx) in *.
  set (n := length (fields (_layout self))) in *.
  set (b1 := take offset buf ++ le_bytes 8 0 ++ drop (offset + 8) buf).
  assert (length b1 = length buf) as Hl1.
  { pose proof (setslice_length offset (le_bytes 8 0) buf) as Hs.
    rewrite le_bytes_length in Hs. apply Hs. lia. }
  destruct (fill_status_spec (offset + 8) MASK_UNWRITTEN (seq 0 n) 0 b1)
    as (b2 & Hfill & Hl2 & Hj2).
  { unfold MASK_UNWRITTEN. lia. }
  { rewrite length_seq. lia. }
  rewrite length_seq in Hj2.
  set (b3 := take (offset + _slot_size self - 8) b2 ++ le_bytes 8 0
             ++ drop (offset + _slot_size self - 8 + 8) b2).
  assert (forall j, b3 !! j =
            if decide (j < offset + _slot_size self - 8) then b2 !! j
            else if decide (j < offset + _slot_size self) then
                   le_bytes 8 0 !! (j - (offset + _slot_size self - 8))
                 else b2 !! j) as Hj3.
  { intros j. subst b3.
    pose proof (setslice_lookup (offset + _slot_size self - 8) (le_bytes 8 0) b2 j)
      as Hs.
    rewrite le_bytes_length in Hs. rewrite Hs by lia.
    repeat case_decide; try done; lia. }
  assert (forall j, b1 !! j =
            if decide (j < offset) then buf !! j
            else if decide (j < offset + 8) then le_bytes 8 0 !! (j - offset)
                 else buf !! j) as Hj1.
  { intros j. subst b1.
    pose proof (setslice_lookup offset (le_bytes 8 0) buf j) as Hs.
    rewrite le_bytes_length in Hs. by rewrite Hs by lia. }
  exists b3. split; [|split; [|split; [|split]]].
  - unfold _initialize_slot. fold offset. fold n.
    rewrite (bind_ok _ _ _ _ _ (write_uint64_ok offset 0 buf ltac:(lia) ltac:(lia))).
    fold b1. unfold for_range.
    rewrite (bind_ok _ _ _ _ _ Hfill).
    rewrite (write_uint64_ok (offset + _slot_size self - 8) 0 b2
               ltac:(lia) ltac:(lia)). done.
  - subst b3.
    pose proof (setslice_length (offset + _slot_size self - 8) (le_bytes 8 0) b2) as Hs.
    rewrite le_bytes_length in Hs. rewrite Hs by lia. congruence.
  - unfold slot_fresh. fold offset. fold n. split; [|split].
    + rewrite <- (stored_uint64_slice offset 0 buf) by lia. fold b1.
      apply slice_ext. intros j Hj. rewrite Hj3, decide_True by lia.
      rewrite Hj2. rewrite decide_False by lia. done.
    + subst b3. apply stored_uint64_slice. lia.
    + intros i Hi. rewrite Hj3, decide_True by lia.
      rewrite Hj2. by rewrite decide_True by lia.
  - intros j Hj. unfold in_range in Hj. fold offset in Hj.
    rewrite Hj3, Hj2, Hj1. repeat case_decide; try done; lia.
  - intros Hb.
    destruct (touches_write_uint64 offset 0 buf) as (_ & _ & Hb1).
    rewrite (write_uint64_ok offset 0 buf ltac:(lia) ltac:(lia)) in Hb1.
    specialize (Hb1 Hb). simpl in Hb1. fold b1 in Hb1.
    assert (all_bytes b2) as Hb2.
    { apply Forall_lookup. intros j x Hx. rewrite Hj2 in Hx.
      case_decide; [injection Hx as <-; unfold MASK_UNWRITTEN; lia|].
      eapply Forall_lookup_1 in Hb1; [|exact Hx]. done. }
    destruct (touches_write_uint64 (offset + _slot_size self - 8) 0 b2) as (_ & _ & Hb3).
    rewrite (write_uint64_ok (offset + _slot_size self - 8) 0 b2
               ltac:(lia) ltac:(lia)) in Hb3.
    by apply Hb3.
Qed.

End initialize.

(** ** Stores and slices *)

(** The buffer after [buf[start:start+len(bs)] = bs]. *)
Definition store (start : nat) (bs buf : list Z) : list Z :=
  take start buf ++ bs ++ drop (start + length bs) buf.

Lemma store_length start bs buf :
  start + length bs <= length buf -> length (store start bs buf) = length buf.
Proof. apply setslice_length. Qed.

Lemma slice_store_same start bs buf :
  start + length bs <= length buf ->
  slice start (length bs) (store start bs buf) = bs.
Proof. apply setslice_slice. Qed.

Lemma slice_store_other start bs buf start' n :
  start + length bs <= length buf ->
  start' + n <= start \/ start + length bs <= start' ->
  slice start' n (store start bs buf) = slice start' n buf.
Proof.
  intros Hlen Hdis. apply slice_ext. intros j Hj. unfold store.
  rewrite setslice_lookup by done. repeat case_decide; try done; lia.
Qed.

Lemma lookup_store_other start bs buf j :
  start + length bs <= length buf ->
  j < start \/ start + length bs <= j ->
  store start bs buf !! j = buf !! j.
Proof.
  intros Hlen Hj. unfold store. rewrite setslice_lookup by done.
  repeat case_decide; try done; lia.
Qed.

Lemma write_uint64_store offset v (buf : list Z) :
  (0 <= v < 2 ^ 64)%Z -> offset + 8 <= length buf ->
  _write_uint64 offset v buf = (Ok tt, store offset (le_bytes 8 v) buf).
Proof. intros. unfold store. rewrite le_bytes_length. by apply write_uint64_ok. Qed.

Lemma from_bytes_le_bytes_u64 v :
  (0 <= v < 2 ^ 64)%Z -> from_bytes (le_bytes 8 v) = v.
Proof.
  intros Hv. rewrite from_bytes_le_bytes.
  change (256 ^ Z.of_nat 8)%Z with (2 ^ 64)%Z. apply Z.mod_small. lia.
Qed.

(** ** The ring counters *)

Section metadata.
Variable self : SharedMemory.
Hypothesis Hwf : wf_handle self.
Hypothesis Hfifo : is_fifo self = true.

Lemma get_fifo_metadata_eq buf :
  _get_fifo_metadata self buf =
  (Ok (from_bytes (slice 0 8 buf), from_bytes (slice 8 8 buf),
       from_bytes (slice 16 8 buf)), buf).
Proof.
  unfold _get_fifo_metadata. rewrite Hfifo, (wf_metadata_offset _ Hwf). reflexivity.
Qed.

Lemma get_fifo_metadata_ext b b' :
  (forall j, j < 24 -> b !! j = b' !! j) ->
  (_get_fifo_metadata self b).1 = (_get_fifo_metadata self b').1.
Proof.
  intros H. rewrite !get_fifo_metadata_eq. simpl.
  rewrite (slice_ext 0 8 b b'), (slice_ext 8 8 b b'), (slice_ext 16 8 b b');
    [done|..]; intros j Hj; apply H; lia.
Qed.

Lemma set_fifo_metadata_spec w r c buf :
  (0 <= w < 2 ^ 64)%Z -> (0 <= r < 2 ^ 64)%Z -> (0 <= c < 2 ^ 64)%Z ->
  24 <= length buf ->
  exists buf',
    _set_fifo_metadata self w r c buf = (Ok tt, buf') /\
    length buf' = length buf /\
    _get_fifo_metadata self buf' = (Ok (w, r, c), buf') /\
    (forall j, 24 <= j -> buf' !! j = buf !! j) /\
    (all_bytes buf -> all_bytes buf').
Proof.
  intros Hw Hr Hc Hlen.
  set (b1 := store 0 (le_bytes 8 w) buf).
  set (b2 := store 8 (le_bytes 8 r) b1).
  set (b3 := store 16 (le_bytes 8 c) b2).
  assert (length b1 = length buf) as Hl1
    by (apply store_length; rewrite le_bytes_length; lia).
  assert (length b2 = length buf) as Hl2
    by (unfold b2; rewrite store_length; rewrite ?le_bytes_length; lia).
  assert (length b3 = length buf) as Hl3
    by (unfold b3; rewrite store_length; rewrite ?le_bytes_length; lia).
  assert (_set_fifo_metadata self w r c buf = (Ok tt, b3)) as Hrun.
  { unfold _set_fifo_metadata. rewrite Hfifo, (wf_metadata_offset _ Hwf). simpl.
    rewrite (bind_ok _ _ _ _ _ (write_uint64_store 0 w buf Hw ltac:(lia))).
    fold b1.
    rewrite (bind_ok _ _ _ _ _ (write_uint64_store 8 r b1 Hr ltac:(lia))).
    fold b2.
    by rewrite (write_uint64_store 16 c b2 Hc ltac:(lia)). }
  exists b3. split; [done|]. split; [done|]. split; [|split].
  - rewrite get_fifo_metadata_eq. do 2 f_equal.
    assert (slice 0 8 b3 = le_bytes 8 w) as ->.
    { unfold b3. rewrite slice_store_other by (rewrite ?le_bytes_length; lia).
      unfold b2. rewrite slice_store_other by (rewrite ?le_bytes_length; lia).
      pose proof (slice_store_same 0 (le_bytes 8 w) buf) as Hs.
      rewrite le_bytes_length in Hs. apply Hs. lia. }
    assert (slice 8 8 b3 = le_bytes 8 r) as ->.
    { unfold b3. rewrite slice_store_other by (rewrite ?le_bytes_length; lia).
      pose proof (slice_store_same 8 (le_bytes 8 r) b1) as Hs.
      rewrite le_bytes_length in Hs. apply Hs. lia. }
    assert (slice 16 8 b3 = le_bytes 8 c) as ->.
    { pose proof (slice_store_same 16 (le_bytes 8 c) b2) as Hs.
      rewrite le_bytes_length in Hs. apply Hs. lia. }
    by rewrite !from_bytes_le_bytes_u64.
  - intros j Hj. unfold b3.
    rewrite lookup_store_other by (rewrite ?le_bytes_length; lia).
    unfold b2. rewrite lookup_store_other by (rewrite ?le_bytes_length; lia).
    unfold b1. rewrite lookup_store_other by (rewrite ?le_bytes_length; lia).
    done.
  - intros Hb. destruct (touches_set_fifo_metadata self Hwf w r c buf) as (_ & _ & H).
    rewrite Hrun in H. by apply H.
Qed.

End metadata.

(** ** Creation *)

Section creation.
Variable self : SharedMemory.
Hypothesis Hwf : wf_handle self.

Lemma slot_in_region k :
  k < slots self -> _get_slot_offset self k + _slot_size self <= region_size self.
Proof.
  intros Hk. unfold _get_slot_offset, region_size.
  pose proof (Nat.mul_le_mono_r (S k) (slots self) (_slot_size self) ltac:(lia)).
  rewrite (Nat.mul_comm (_slot_size self)). simpl in *. lia.
Qed.

Lemma slot_ranges_disjoint k k' j :
  k <> k' ->
  in_range (_get_slot_offset self k) (_slot_size self) j ->
  ~ in_range (_get_slot_offset self k') (_slot_size self) j.
Proof.
  unfold in_range, _get_slot_offset. intros Hne Hj Hj'.
  destruct (decide (k < k')).
  - pose proof (Nat.mul_le_mono_r (S k) k' (_slot_size self) ltac:(lia)).
    simpl in *. lia.
  - pose proof (Nat.mul_le_mono_r (S k') k (_slot_size self) ltac:(lia)).
    simpl in *. lia.
Qed.

Lemma slot_above_metadata k j :
  in_range (_get_slot_offset self k) (_slot_size self) j -> _data_offset self <= j.
Proof. unfold in_range, _get_slot_offset. lia. Qed.

Lemma touches_initialize_slot slot_idx :
  touches (in_range (_get_slot_offset self slot_idx) (_slot_size self))
    (_initialize_slot self slot_idx).
Proof.
  pose proof (slot_size_min self Hwf) as Hmin. unfold _initialize_slot.
  apply touches_bind.
  { eapply touches_weaken; [|apply touches_write_uint64].
    unfold in_range. intros j. lia. }
  intros _. apply touches_bind.
  { apply touches_for_enumerate. intros i x Hx.
    apply lookup_seq in Hx as [-> Hi]. simpl.
    apply touches_setitem. unfold in_range. lia. }
  intros _. eapply touches_weaken; [|apply touches_write_uint64].
  unfold in_range. intros j. lia.
Qed.

Lemma slot_fresh_ext slot_idx b b' :
  (forall j, in_range (_get_slot_offset self slot_idx) (_slot_size self) j ->
             b !! j = b' !! j) ->
  slot_fresh self slot_idx b -> slot_fresh self slot_idx b'.
Proof.
  pose proof (slot_size_min self Hwf) as Hmin.
  intros Hext (H1 & H2 & H3). unfold slot_fresh. split; [|split].
  - rewrite <- H1. apply slice_ext. intros j Hj. symmetry. apply Hext.
    unfold in_range. lia.
  - rewrite <- H2. apply slice_ext. intros j Hj. symmetry. apply Hext.
    unfold in_range. lia.
  - intros i Hi. rewrite <- Hext; [by apply H3|]. unfold in_range. lia.
Qed.

(** Initialising all slots of a region of the right size. *)
Lemma initialize_slots_spec buf buf' :
  length buf = region_size self ->
  for_range (slots self) (fun slot_idx => _initialize_slot self slot_idx) buf
    = (Ok tt, buf') ->
  length buf' = length buf /\
  (forall k, k < slots self -> slot_fresh self k buf') /\
  (forall j, j < _data_offset self -> buf' !! j = buf !! j) /\
  (all_bytes buf -> all_bytes buf').
Proof.
  intros Hlen Hrun. unfold for_range in Hrun.
  assert (forall k x, seq 0 (slots self) !! k = Some x ->
            touches (in_range (_get_slot_offset self (0 + k)) (_slot_size self))
              (_initialize_slot self (0 + k))) as Ht.
  { intros k x _. apply touches_initialize_slot. }
  pose proof (touches_for_enumerate
    (fun j => _data_offset self <= j) (fun i (_ : nat) => _initialize_slot self i)
    (seq 0 (slots self)) 0) as Hall.
  destruct (Hall (fun i x Hx => touches_weaken _ _ _
              (slot_above_metadata (0 + i)) (Ht i x Hx)) buf) as (Hl & Hfr & Hb).
  rewrite Hrun in Hl, Hfr, Hb. simpl in Hl, Hfr, Hb.
  split; [done|]. split; [|split; [|done]].
  - intros k Hk.
    destruct (for_enumerate_inv (fun i (_ : nat) => _initialize_slot self i)
                (fun i (_ : nat) => in_range (_get_slot_offset self i) (_slot_size self))
                (seq 0 (slots self)) 0 buf buf' Ht Hrun k k)
      as (b1 & b2 & Hbody & Hl1 & _ & _ & Hpost).
    { apply lookup_seq. lia. }
    simpl in Hbody, Hpost.
    destruct (initialize_slot_spec self Hwf k b1) as (b2' & Hb2 & _ & Hfresh & _).
    { rewrite Hl1, Hlen. by apply slot_in_region. }
    rewrite Hbody in Hb2. injection Hb2 as <-.
    eapply slot_fresh_ext; [|exact Hfresh].
    intros j Hj. symmetry. apply Hpost. intros k' y Hk' _.
    apply (slot_ranges_disjoint k k'); [lia|done].
  - intros j Hj. apply Hfr. lia.
Qed.

End creation.

(** What [__init__] returns: a well-formed handle with an empty staging
    buffer and, on creation, a region of the right size in which every slot
    is fresh and the ring counters are zero. *)
Lemma init_spec dc nslots create buf0 self buf :
  __init__ dc nslots create buf0 = (Ok self, buf) ->
  wf_handle self /\
  dataclass_type self = dc /\ Z.of_nat (slots self) = nslots /\
  _write_buffer self = ∅ /\ _write_buffer_dirty self = false /\
  (create = false -> buf = buf0) /\
  (create = true ->
     wf_region self buf /\
     (forall k, k < slots self -> slot_fresh self k buf) /\
     (is_fifo self = true ->
        _get_fifo_metadata self buf = (Ok (0, 0, 0)%Z, buf))).
Proof.
  unfold __init__. destruct (Z.ltb_spec nslots 1) as [|Hslots]; [done|].
  intros H. apply bind_ok_inv in H as (layout & b0 & Hlay & H).
  unfold lift in Hlay. injection Hlay as Hlay <-.
  set (n := Z.to_nat nslots) in *.
  set (fifo := bool_decide (1 < n)) in *.
  set (h := {| dataclass_type := dc; slots := n; is_fifo := fifo;
               _layout := layout; _slot_size := total_size layout;
               _metadata_offset := 0;
               _data_offset := if fifo then 24 else 0;
               _write_buffer := ∅; _write_buffer_dirty := false |}) in *.
  assert (wf_handle h) as Hwf.
  { split; simpl; try done. subst n. lia. }
  apply bind_ok_inv in H as ([] & b1 & Hcreate & Hret).
  injection Hret as <- <-.
  split; [done|]. split; [done|]. split; [subst n; simpl; lia|].
  split; [done|]. split; [done|]. split.
  - intros ->. by injection Hcreate as <-.
  - intros ->.
    apply bind_ok_inv in Hcreate as ([] & c0 & Hos & Hcreate).
    unfold os_create in Hos. injection Hos as <-.
    set (size := (if fifo then 24 else 0) + total_size layout * n) in *.
    apply bind_ok_inv in Hcreate as ([] & c1 & Hmeta & Hslots_init).
    assert (all_bytes (replicate size 0%Z)) as Hzero.
    { apply Forall_replicate. lia. }
    pose proof (slot_size_min h Hwf) as Hmin. cbn [_layout _slot_size h] in Hmin.
    assert (length c1 = size /\ all_bytes c1 /\
            (fifo = true -> _get_fifo_metadata h c1 = (Ok (0, 0, 0)%Z, c1)))
      as (Hl1 & Hb1 & Hm1).
    { destruct fifo eqn:Hf.
      - destruct (set_fifo_metadata_spec h Hwf eq_refl 0 0 0 (replicate size 0%Z))
          as (c1' & Hset & Hl & Hget & _ & Hb); try lia.
        { rewrite length_replicate. subst size.
          assert (1 < n) by (subst fifo; by apply bool_decide_eq_true in Hf).
          pose proof (Nat.mul_le_mono_l 2 n (total_size layout) ltac:(lia)). lia. }
        rewrite Hset in Hmeta. injection Hmeta as <-.
        rewrite length_replicate in Hl. split; [done|]. split; [by apply Hb|done].
      - injection Hmeta as <-. rewrite length_replicate. done. }
    destruct (initialize_slots_spec h Hwf c1 b1) as (Hl & Hfresh & Hfr & Hb);
      [done|done|].
    split; [|split].
    + split; [|by apply Hb]. rewrite Hl, Hl1. done.
    + done.
    + intros Hf. simpl in Hf.
      pose proof (get_fifo_metadata_ext h Hwf Hf b1 c1) as Hext.
      rewrite (Hm1 Hf) in Hext.
      rewrite (get_fifo_metadata_eq h Hwf Hf) in Hext |- *. simpl in Hext.
      rewrite Hext; [done|].
      intros j Hj. apply Hfr. simpl. rewrite Hf. done.
Qed.

(** ** Reading a slot *)

Lemma np_view_load_ok count dt offset (buf : list Z) :
  offset + count * itemsize dt <= length buf ->
  np_view_load count dt offset buf =
  (Ok (from_bytes <$> chunks (itemsize dt) count
         (slice offset (count * itemsize dt) buf)), buf).
Proof.
  intros H. unfold np_view_load.
  rewrite (bind_ok _ _ _ _ _ (np_view_ok count dt offset buf H)). reflexivity.
Qed.

(** Inside the buffer, decoding a field never fails. *)
Lemma read_value_total offset f (buf : list Z) :
  field_kind f -> offset + fi_size f <= length buf ->
  exists v, read_value offset f buf = (Ok v, buf).
Proof.
  intros [Hs Hsz|Hs Hstr Hsz _|dt sh Hs Hstr Harr Hdt Hsh Hsz] Hlen;
    unfold read_value; rewrite Hs.
  - unfold _read_scalar. destruct (fi_field_type f); simpl in Hsz; try done;
      injection Hsz as Hsz.
    + rewrite (bind_ok _ _ _ _ _ (np_view_load_ok 1 float64 offset buf
                                     ltac:(simpl; lia))). eauto.
    + rewrite (bind_ok _ _ _ _ _ (np_view_load_ok 1 int32 offset buf
                                     ltac:(simpl; lia))). eauto.
    + destruct (lookup_lt_is_Some_2 buf offset ltac:(lia)) as [b Hb].
      rewrite (bind_ok _ _ _ _ _ (getitem_ok offset buf b Hb)). eauto.
  - rewrite Hstr. unfold _read_string. eexists. reflexivity.
  - rewrite Hstr, Harr. unfold _read_array. rewrite Hdt, Hsh.
    rewrite (bind_ok _ _ _ _ _ (np_view_load_ok (np_prod sh) dt offset buf
                                   ltac:(lia))). eauto.
Qed.

(** The loop that decodes the fields: it succeeds inside the buffer, leaves
    the buffer alone, and each entry of its result is either an entry of the
    initial dictionary or the status byte and the decoded body of a field. *)
Lemma read_fields_spec offset so (buf : list Z) l : forall idx (acc : record),
  (forall k f, l !! k = Some f ->
     field_kind f /\ offset + fi_offset f + fi_size f <= length buf /\
     so + idx + k < length buf) ->
  exists r,
    fold_enumerate (read_field offset so) idx l acc buf = (Ok r, buf) /\
    (forall name vws, r !! name = Some vws ->
       acc !! name = Some vws \/
       exists k f, l !! k = Some f /\ fi_name f = name /\
         buf !! (so + idx + k) = Some (_status vws) /\
         read_value (offset + fi_offset f) f buf = (Ok (value vws), buf)) /\
    (forall name, is_Some (acc !! name) -> is_Some (r !! name)) /\
    (forall k f, l !! k = Some f -> is_Some (r !! fi_name f)) /\
    (forall k f, l !! k = Some f ->
       (forall k' g, k < k' -> l !! k' = Some g -> fi_name g <> fi_name f) ->
       exists vws, r !! fi_name f = Some vws /\
         buf !! (so + idx + k) = Some (_status vws) /\
         read_value (offset + fi_offset f) f buf = (Ok (value vws), buf)).
Proof.
  induction l as [|f0 l IH]; intros idx acc Hb.
  - exists acc. split; [reflexivity|]. split; [by left|].
    split; [by intros|].
    split; intros k f Hf; rewrite lookup_nil in Hf; discriminate Hf.
  - destruct (Hb 0 f0 eq_refl) as (Hk0 & Hlen0 & Hst0). rewrite Nat.add_0_r in Hst0.
    destruct (lookup_lt_is_Some_2 buf (so + idx) Hst0) as [st Hst].
    destruct (read_value_total (offset + fi_offset f0) f0 buf Hk0 ltac:(lia))
      as [v Hv].
    set (vws0 := {| value := v; _status := st |}).
    destruct (IH (S idx) (<[fi_name f0 := vws0]> acc)) as (r & Hrun & Hin & Hmono & Hall & Hlast).
    { intros k f Hf. destruct (Hb (S k) f Hf) as (? & ? & ?).
      split; [done|]. split; [done|]. lia. }
    exists r. split; [|split; [|split; [|split]]].
    + cbn [fold_enumerate]. unfold read_field at 1.
      unfold bind at 1. unfold bind at 1.
      rewrite (getitem_ok _ _ _ Hst). unfold bind at 1. rewrite Hv. exact Hrun.
    + intros name vws Hr. destruct (Hin name vws Hr) as [Hacc|(k & f & Hf & Hn & Hs & Hrv)].
      * destruct (decide (fi_name f0 = name)) as [Heq|Hne].
        -- rewrite <- Heq, lookup_insert_eq in Hacc. injection Hacc as <-.
           right. exists 0, f0. rewrite Nat.add_0_r. done.
        -- rewrite lookup_insert_ne in Hacc by done. by left.
      * right. exists (S k), f.
        replace (so + idx + S k) with (so + S idx + k) by lia. done.
    + intros name Hacc. apply Hmono.
      destruct (decide (fi_name f0 = name)) as [<-|Hne].
      * rewrite lookup_insert_eq. eauto.
      * by rewrite lookup_insert_ne.
    + intros [|k] f Hf.
      * injection Hf as <-. apply Hmono. rewrite lookup_insert_eq. eauto.
      * by apply (Hall k).
    + intros [|k] f Hf Hlater.
      * injection Hf as <-. exists vws0. rewrite Nat.add_0_r. split; [|done].
        assert (is_Some (r !! fi_name f0)) as [vws Hvws].
        { apply Hmono. rewrite lookup_insert_eq. eauto. }
        destruct (Hin _ _ Hvws) as [Hacc|(k & g & Hg & Hn & _)].
        -- rewrite lookup_insert_eq in Hacc. by injection Hacc as <-.
        -- exfalso. apply (Hlater (S k) g); [lia|done|done].
      * destruct (Hlast k f Hf) as (vws & ? & ? & ?).
        { intros k' g Hk' Hg. apply (Hlater (S k') g); [lia|done]. }
        exists vws. replace (so + idx + S k) with (so + S idx + k) by lia. done.
Qed.

Section read_from_slot.
Variable self : SharedMemory.
Hypothesis Hwf : wf_handle self.

(** A read of a slot whose two counters differ is torn; nothing changes. *)
Lemma read_from_slot_torn slot_idx reset_modified buf :
  let offset := _get_slot_offset self slot_idx in
  offset + _slot_size self <= length buf ->
  from_bytes (slice offset 8 buf)
    <> from_bytes (slice (offset + _slot_size self - 8) 8 buf) ->
  _read_from_slot self slot_idx reset_modified buf = (Ok None, buf).
Proof.
  intros offset Hlen Hneq. unfold _read_from_slot. fold offset.
  rewrite (bind_ok _ _ _ _ _ (read_uint64_eq offset buf)).
  destruct (read_fields_spec offset (offset + 8) buf (fields (_layout self)) 0 ∅)
    as (r & Hrun & _).
  { intros k f Hf. pose proof (layout_field_bounds self Hwf k f Hf).
    pose proof (lookup_lt_Some _ _ _ Hf).
    pose proof (slot_size_min self Hwf).
    split; [|lia].
    eapply Forall_lookup_1; [apply (layout_fields_kind self Hwf)|done]. }
  rewrite (bind_ok _ _ _ _ _ Hrun).
  rewrite (bind_ok _ _ _ _ _ (read_uint64_eq _ buf)).
  destruct (Z.eqb_spec (from_bytes (slice offset 8 buf))
              (from_bytes (slice (offset + _slot_size self - 8) 8 buf)));
    [done|reflexivity].
Qed.

(** A read of a consistent slot returns a record with one entry per field
    name: the status byte and the decoded body of a field of that name. *)
Lemma read_from_slot_spec slot_idx reset_modified buf :
  let offset := _get_slot_offset self slot_idx in
  offset + _slot_size self <= length buf ->
  all_bytes buf ->
  from_bytes (slice offset 8 buf)
    = from_bytes (slice (offset + _slot_size self - 8) 8 buf) ->
  exists r buf',
    _read_from_slot self slot_idx reset_modified buf = (Ok (Some r), buf') /\
    (reset_modified = false -> buf' = buf) /\
    (forall name vws, r !! name = Some vws ->
       exists k f, fields (_layout self) !! k = Some f /\ fi_name f = name /\
         buf !! (offset + 8 + k) = Some (_status vws) /\
         read_value (offset + fi_offset f) f buf = (Ok (value vws), buf)) /\
    (forall k f, fields (_layout self) !! k = Some f -> is_Some (r !! fi_name f)) /\
    (forall k f, fields (_layout self) !! k = Some f ->
       (forall k' g, k < k' -> fields (_layout self) !! k' = Some g ->
                     fi_name g <> fi_name f) ->
       exists vws, r !! fi_name f = Some vws /\
         buf !! (offset + 8 + k) = Some (_status vws) /\
         read_value (offset + fi_offset f) f buf = (Ok (value vws), buf)).
Proof.
  intros offset Hlen Hbytes Hseq. pose proof (slot_size_min self Hwf) as Hmin.
  destruct (read_fields_spec offset (offset + 8) buf (fields (_layout self)) 0 ∅)
    as (r & Hrun & Hin & _ & Hall & Hlast).
  { intros k f Hf. pose proof (layout_field_bounds self Hwf k f Hf).
    pose proof (lookup_lt_Some _ _ _ Hf).
    split; [|lia].
    eapply Forall_lookup_1; [apply (layout_fields_kind self Hwf)|done]. }
  assert (exists buf',
    (if reset_modified then
       for_range (length (fields (_layout self))) (fun idx =>
         bind (buf_getitem (offset + 8 + idx)) (fun status_byte =>
           buf_setitem (offset + 8 + idx)
             (Z.land status_byte (Z.lnot MASK_MODIFIED))))
     else ret tt) buf = (Ok tt, buf') /\ (reset_modified = false -> buf' = buf))
    as (buf' & Hreset & Hsame).
  { destruct reset_modified; [|by exists buf].
    destruct (for_enumerate_ok
      (fun idx (_ : nat) =>
         bind (buf_getitem (offset + 8 + idx)) (fun status_byte =>
           buf_setitem (offset + 8 + idx)
             (Z.land status_byte (Z.lnot MASK_MODIFIED))))
      (fun b => length b = length buf /\ all_bytes b)
      (seq 0 (length (fields (_layout self)))) 0 buf) as (buf' & Hrun' & _);
      [|done|by exists buf'].
    intros k x b Hx [Hl Hb]. apply lookup_seq in Hx as [-> Hk]. simpl.
    destruct (lookup_lt_is_Some_2 b (offset + 8 + k) ltac:(lia)) as [st Hst].
    pose proof (Forall_lookup_1 _ _ _ _ Hb Hst) as Hrange. simpl in Hrange.
    pose proof (status_skipped_byte st Hrange) as Hbyte. apply is_byte_true in Hbyte.
    exists (<[offset + 8 + k := status_skipped st]> b).
    rewrite (bind_ok _ _ _ _ _ (getitem_ok _ _ _ Hst)).
    split; [apply setitem_ok; [lia|done]|].
    split; [by rewrite length_insert|]. by apply Forall_insert. }
  exists r, buf'. split; [|split; [done|split; [|split; [done|]]]].
  - unfold _read_from_slot. fold offset.
    rewrite (bind_ok _ _ _ _ _ (read_uint64_eq offset buf)).
    rewrite (bind_ok _ _ _ _ _ Hrun).
    rewrite (bind_ok _ _ _ _ _ (read_uint64_eq _ buf)).
    rewrite Hseq, Z.eqb_refl. cbn [negb].
    by rewrite (bind_ok _ _ _ _ _ Hreset).
  - intros name vws Hr.
    destruct (Hin name vws Hr) as [Hacc|(k & f & Hf & Hn & Hst & Hv)]; [done|].
    rewrite Nat.add_0_r in Hst. by exists k, f.
  - intros k f Hf Hlater. destruct (Hlast k f Hf Hlater) as (vws & Hr & Hst & Hv).
    rewrite Nat.add_0_r in Hst. by exists vws.
Qed.

End read_from_slot.

(** ** C10: reading a region nothing was published to *)

(** C10. On a single-slot region right after its creation, a non-blocking
    read (with or without [reset_modified]) does not return [None]: it
    returns a record with an entry for every field, and in every entry
    [unwritten] is true and [valid], [modified] and [truncated] are false. *)
Theorem fresh_region_read_unwritten dc buf0 self buf fuel reset_modified :
  __init__ dc 1 true buf0 = (Ok self, buf) ->
  exists r buf',
    read self fuel 0 false reset_modified buf = (Ok (Some r), buf') /\
    (forall k f, fields (_layout self) !! k = Some f -> is_Some (r !! fi_name f)) /\
    forall name vws, r !! name = Some vws ->
      unwritten vws = true /\ valid vws = false /\
      modified vws = false /\ truncated vws = false.
Proof.
  intros Hinit.
  destruct (init_spec _ _ _ _ _ _ Hinit)
    as (Hwf & _ & Hslots & _ & _ & _ & Hcreate).
  destruct (Hcreate eq_refl) as ((Hlen & Hbytes) & Hfresh & _).
  assert (slots self = 1) as Hone by lia.
  assert (is_fifo self = false) as Hfifo.
  { rewrite (wf_is_fifo _ Hwf), Hone. done. }
  destruct (Hfresh 0 ltac:(lia)) as (Hsb & Hse & Hst).
  destruct (read_from_slot_spec self Hwf 0 reset_modified buf)
    as (r & buf' & Hread & _ & Hin & Hall & _).
  { rewrite Hlen. unfold region_size, _get_slot_offset. rewrite Hone. lia. }
  { done. }
  { by rewrite Hsb, Hse. }
  exists r, buf'. split; [|split; [done|]].
  - unfold read. rewrite Hfifo, andb_false_r. cbn [_read_single].
    by rewrite (bind_ok _ _ _ _ _ Hread).
  - intros name vws Hr. destruct (Hin name vws Hr) as (k & f & Hf & _ & Hs & _).
    rewrite (Hst k (lookup_lt_Some _ _ _ Hf)) in Hs. injection Hs as Hs.
    unfold unwritten, valid, modified, truncated. rewrite <- Hs. done.
Qed.

Lemma fresh_region_read_unwritten_witness :
  exists r buf',
    read vn_single 0 0 false false vn_fresh = (Ok (Some r), buf') /\
    (forall k f, fields (_layout vn_single) !! k = Some f ->
                 is_Some (r !! fi_name f)) /\
    forall name vws, r !! name = Some vws ->
      unwritten vws = true /\ valid vws = false /\
      modified vws = false /\ truncated vws = false.
Proof.
  apply (fresh_region_read_unwritten vn_dataclass [] vn_single vn_fresh 0 false).
  vm_compute. reflexivity.
Defined.

(** ** Values that numpy stores unconverted *)

(** [_write_scalar] and [_write_array] hand the value to numpy, which
    converts a value that is not of the element type; those conversions are
    not part of this model.  [unconverted f v]: field [f] takes [v] as it
    is, so that the model of the write follows the code: a [float] for a
    [float] field, an [int] of 32 bits or a [bool] for an [int] field, an
    array of the declared element type (of any shape) for an array field.
    A [bool] field stores the truth value of a number, a [bool] or a string,
    and a string field stores a string: numpy has no part in these. *)
Definition unconverted (f : _FieldInfo) (v : pyvalue) : bool :=
  if fi_is_scalar f then
    match fi_field_type f, v with
    | TyFloat, PyFloat _ => true
    | TyInt, PyInt n => ((-2147483648 <=? n) && (n <=? 2147483647))%Z
    | TyInt, PyBool _ => true
    | TyBool, (PyFloat _ | PyInt _ | PyBool _ | PyStr _) => true
    | _, _ => false
    end
  else if fi_is_string f then
    match v with
    | PyStr _ => true
    | _ => false
    end
  else
    match fi_array_dtype f, v with
    | Some dt, PyArray a => bool_decide (a_dtype a = dt)
    | _, _ => false
    end.

(** Every value of the update is taken as it is by the field it names. *)
Definition unconverted_update (self : SharedMemory) (data : gmap string pyvalue)
    : bool :=
  forallb (fun f => match data !! fi_name f with
                    | Some v => unconverted f v
                    | None => true
                    end)
    (fields (_layout self)).

(** ** C9: the UNWRITTEN bit *)









Section unwritten.
Variable self : SharedMemory.
Hypothesis Hwf : wf_handle self.
Variables slot_idx i : nat.
Hypothesis Hi : i < length (fields (_layout self)).

Let p := _get_slot_offset self slot_idx + 8 + i.






End unwritten.



(** ** C4: what a read without [reset_modified] changes *)

(** [n] consecutive calls of [read] without [reset_modified]: the outcomes
    and the buffer they leave. *)
Fixpoint read_n (self : SharedMemory) (fuel timeout : nat) (latest : bool)
    (n : nat) (buf : list Z) : list (outcome (option record)) * list Z :=
  match n with
  | O => ([], buf)
  | S k =>
      let '(r, buf1) := read self fuel timeout latest false buf in
      let '(rs, buf2) := read_n self fuel timeout latest k buf1 in
      (r :: rs, buf2)
  end.

(** [float(n)] as a binary64 bit pattern, for an integer [0 <= n < 2^53]. *)
Definition f64_of_Z (n : Z) : Z :=
  if (n =? 0)%Z then 0%Z
  else
    let e := Z.log2 n in
    (Z.shiftl (1023 + e) 52 + Z.shiftl (n - 2 ^ e) (52 - e))%Z.

(** The schema [{v: F64}] and the ring of three slots of scenario S4. *)
Definition v_dataclass : list (string * pytype) := [("v"%string, TyFloat)].

Definition v_layout : _SharedMemoryLayout :=
  Eval vm_compute in _calculate_layout
    [ {| fi_name := "v"; fi_field_type := TyFloat; fi_is_scalar := true;
         fi_is_string := false; fi_is_array := false; fi_string_max_chars := 0;
         fi_array_dtype := None; fi_array_shape := None; fi_size := 8;
         fi_offset := 0 |} ].

Definition v_ring3 : SharedMemory :=
  {| dataclass_type := v_dataclass; slots := 3; is_fifo := true;
     _layout := v_layout; _slot_size := total_size v_layout;
     _metadata_offset := 0; _data_offset := 24;
     _write_buffer := ∅; _write_buffer_dirty := false |}.

Definition v_ring3_fresh : list Z :=
  Eval vm_compute in (__init__ v_dataclass 3 true []).2.

(** [write(v=float(n))] followed by [finalize()]. *)
Definition publish_v (self : SharedMemory) (n : Z) : M SharedMemory :=
  self <~ write self {["v"%string := PyFloat (f64_of_Z n)]} ;
  finalize self.

(** The buffer after the values [ns] were published in turn. *)
Definition v_ring3_after (ns : list Z) : list Z :=
  (fold_enumerate (fun _ n self => publish_v self n) 0 ns v_ring3 v_ring3_fresh).2.

(** The field [v] of what a read returned. *)
Definition read_v (r : outcome (option record)) : option pyvalue :=
  match r with
  | Ok (Some d) => value <$> d !! "v"%string
  | _ => None
  end.

Lemma v_ring3_created : __init__ v_dataclass 3 true [] = (Ok v_ring3, v_ring3_fresh).
Proof. vm_compute. reflexivity. Qed.

Lemma v_ring3_wf : wf_handle v_ring3.
Proof. split; vm_compute; try reflexivity. lia. Qed.

Section read_frames.
Variable self : SharedMemory.
Hypothesis Hwf : wf_handle self.

Lemma touches_read_single timeout :
  touches (fun _ => False) (_read_single self timeout false).
Proof.
  induction timeout as [|t IH]; cbn [_read_single].
  - apply touches_bind.
    + eapply touches_weaken; [|by apply touches_read_from_slot]. by intros j [? _].
    + intros [d|]; apply touches_ret.
  - apply touches_bind.
    + eapply touches_weaken; [|by apply touches_read_from_slot]. by intros j [? _].
    + intros [d|]; [apply touches_ret|apply IH].
Qed.

Lemma touches_read_fifo fuel : forall timeout latest,
  touches (fun j => is_fifo self = true /\ j < 24)
    (_read_fifo self fuel timeout latest).
Proof.
  induction fuel as [|fuel IH]; intros timeout latest; cbn [_read_fifo].
  - apply touches_lift.
  - apply touches_bind; [apply touches_get_fifo_metadata|].
    intros [[w r] c]. case_match.
    { destruct timeout; [apply touches_ret|apply IH]. }
    case_match. apply touches_bind.
    + eapply touches_weaken; [|by apply touches_read_from_slot]. by intros j [? _].
    + intros [d|]; [|apply IH].
      apply touches_bind; [by apply touches_set_fifo_metadata|].
      intros _. apply touches_ret.
Qed.

Lemma touches_read fuel timeout latest :
  touches (fun j => is_fifo self = true /\ j < 24)
    (read self fuel timeout latest false).
Proof.
  unfold read. simpl. destruct (is_fifo self) eqn:Hf.
  - eapply touches_weaken; [|apply touches_read_fifo]. by intros j [_ ?].
  - eapply touches_weaken; [|apply touches_read_single]. done.
Qed.

End read_frames.

(** C4, as the code has it.  A [read] without [reset_modified] keeps the
    length of the region and every byte of every slot, status bytes
    included; the only bytes it can change are the ring counters.  On a
    single-slot region it therefore changes nothing at all, and any number
    of consecutive reads return the same record and leave the region as it
    was. *)
Theorem read_without_reset_frame self fuel timeout latest buf :
  wf_handle self ->
  length (read self fuel timeout latest false buf).2 = length buf /\
  (forall j, _data_offset self <= j ->
     (read self fuel timeout latest false buf).2 !! j = buf !! j) /\
  (is_fifo self = false ->
     forall n, read_n self fuel timeout latest n buf =
               (replicate n (read self fuel timeout latest false buf).1, buf)).
Proof.
  intros Hwf. destruct (touches_read self Hwf fuel timeout latest buf) as (Hl & Hj & _).
  split; [done|]. split.
  - intros j Hjd. apply Hj. intros [Hf Hlt].
    rewrite (wf_data_offset _ Hwf), Hf in Hjd. lia.
  - intros Hf n.
    assert ((read self fuel timeout latest false buf).2 = buf) as Hsame.
    { apply list_eq. intros j. apply Hj. rewrite Hf. by intros [? _]. }
    induction n as [|n IH]; [done|]. cbn [read_n].
    destruct (read self fuel timeout latest false buf) as [r buf1] eqn:Hr.
    simpl in Hsame. subst buf1. rewrite IH. done.
Qed.

Lemma read_without_reset_frame_witness :
  length (read vn_single 0 0 false false vn_fresh).2 = length vn_fresh /\
  (forall j, _data_offset vn_single <= j ->
     (read vn_single 0 0 false false vn_fresh).2 !! j = vn_fresh !! j) /\
  (is_fifo vn_single = false ->
     forall n, read_n vn_single 0 0 false n vn_fresh =
               (replicate n (read vn_single 0 0 false false vn_fresh).1, vn_fresh)).
Proof.
  apply (read_without_reset_frame vn_single 0 0 false vn_fresh vn_single_wf).
Defined.

(** C4 fails on a ring: with two entries pending, a read without
    [reset_modified] changes the counters, and the next read returns another
    record. *)
Lemma ring_read_consumes :
  let buf := v_ring3_after [1; 2]%Z in
  let buf1 := (read v_ring3 1 0 false false buf).2 in
  (_get_fifo_metadata v_ring3 buf).1 = Ok (2, 0, 2)%Z /\
  (_get_fifo_metadata v_ring3 buf1).1 = Ok (2, 1, 1)%Z /\
  read_v (read v_ring3 1 0 false false buf).1 = Some (PyFloat (f64_of_Z 1)) /\
  read_v (read v_ring3 1 0 false false buf1).1 = Some (PyFloat (f64_of_Z 2)) /\
  (read v_ring3 1 0 false false buf1).1 <> (read v_ring3 1 0 false false buf).1.
Proof.
  cbv zeta. split; [by vm_compute|]. split; [by vm_compute|].
  split; [by vm_compute|]. split; [by vm_compute|].
  intros H. apply (f_equal read_v) in H. vm_compute in H. discriminate H.
Qed.

(** ** [finalize] *)

Lemma slice_all_bytes start n buf : all_bytes buf -> all_bytes (slice start n buf).
Proof. intros H. unfold slice. by apply Forall_take, Forall_drop. Qed.

Lemma from_bytes_slice_u64 start buf :
  all_bytes buf -> (0 <= from_bytes (slice start 8 buf) < 2 ^ 64)%Z.
Proof.
  intros H. pose proof (from_bytes_bound _ (slice_all_bytes start 8 buf H)) as Hb.
  assert (length (slice start 8 buf) <= 8) as Hl.
  { unfold slice. rewrite length_take. lia. }
  assert (256 ^ Z.of_nat (length (slice start 8 buf)) <= 2 ^ 64)%Z.
  { change (2 ^ 64)%Z with (256 ^ 8)%Z. apply Z.pow_le_mono_r; lia. }
  lia.
Qed.

Lemma all_bytes_check buf : forallb is_byte buf = true -> all_bytes buf.
Proof.
  intros H. apply Forall_forall. intros x Hx. rewrite forallb_forall in H.
  apply is_byte_true, H. by apply list_elem_of_In.
Qed.

(** The counters after a commit. *)
Definition counters_after (nslots : nat) (w r c : Z) : Z * Z * Z :=
  if (c <? Z.of_nat nslots)%Z then ((w + 1)%Z, r, (c + 1)%Z)
  else ((w + 1)%Z, (r + 1)%Z, c).

Section finalize.
Variable self : SharedMemory.
Hypothesis Hwf : wf_handle self.
Hypothesis Hfifo : is_fifo self = true.

Lemma finalize_clean buf :
  _write_buffer_dirty self = false -> finalize self buf = (Ok self, buf).
Proof. intros Hd. unfold finalize. by rewrite Hfifo, Hd. Qed.

(** A [finalize] with staged data whose slot write completes: the write went
    to slot [write_idx mod slots], the counters are advanced and stored, the
    staging buffer is empty again. *)
Lemma finalize_effect buf w r c b1 :
  _write_buffer_dirty self = true ->
  all_bytes buf ->
  (_get_fifo_metadata self buf).1 = Ok (w, r, c) ->
  _write_to_slot self (Z.to_nat (w mod Z.of_nat (slots self)))
    (_write_buffer self) buf = (Ok tt, b1) ->
  (w + 1 < 2 ^ 64)%Z -> (r + 1 < 2 ^ 64)%Z -> (c + 1 < 2 ^ 64)%Z ->
  exists buf',
    finalize self buf = (Ok (set_write_buffer self ∅ false), buf') /\
    length buf' = length buf /\
    (_get_fifo_metadata self buf').1 = Ok (counters_after (slots self) w r c) /\
    (forall j, 24 <= j -> buf' !! j = b1 !! j) /\
    all_bytes buf'.
Proof.
  intros Hdirty Hbytes Hmeta Hwrite Hw Hr Hc.
  rewrite (get_fifo_metadata_eq self Hwf Hfifo) in Hmeta. simpl in Hmeta.
  injection Hmeta as Hw0 Hr0 Hc0.
  pose proof (from_bytes_slice_u64 0 buf Hbytes).
  pose proof (from_bytes_slice_u64 8 buf Hbytes).
  pose proof (from_bytes_slice_u64 16 buf Hbytes).
  destruct (write_to_slot_inv self Hwf _ _ buf b1 Hwrite)
    as (_ & Hl1 & Hlen & _).
  destruct (touches_write_to_slot self Hwf
              (Z.to_nat (w mod Z.of_nat (slots self))) (_write_buffer self) buf)
    as (_ & _ & Hb1).
  rewrite Hwrite in Hb1. specialize (Hb1 Hbytes). simpl in Hb1.
  assert (24 <= length b1) as H24.
  { rewrite Hl1. unfold _get_slot_offset in Hlen.
    rewrite (wf_data_offset _ Hwf), Hfifo in Hlen. lia. }
  set (res := counters_after (slots self) w r c).
  destruct res as [[w' r'] c'] eqn:Hres.
  destruct (set_fifo_metadata_spec self Hwf Hfifo w' r' c' b1)
    as (buf' & Hset & Hl' & Hget & Hfr & Hb'); [..|done|].
  1-3: subst res; unfold counters_after in Hres;
       destruct (Z.ltb_spec c (Z.of_nat (slots self)));
       injection Hres as <- <- <-; lia.
  exists buf'. split; [|split; [congruence|split; [by rewrite Hget|split; [done|]]]].
  - unfold finalize. rewrite Hfifo, Hdirty. cbn [negb].
    rewrite (bind_ok _ _ _ _ _ (get_fifo_metadata_eq self Hwf Hfifo buf)).
    rewrite Hw0, Hr0, Hc0.
    rewrite (bind_ok _ _ _ _ _ Hwrite).
    subst res. unfold counters_after in Hres.
    destruct (c <? Z.of_nat (slots self))%Z; injection Hres as <- <- <-;
      by rewrite (bind_ok _ _ _ _ _ Hset).
  - by apply Hb'.
Qed.

End finalize.

(** ** C6: the commit *)

(** The ring of scenario S4 with [v = 0.0] staged by a [write]. *)
Definition v_ring3_staged : SharedMemory :=
  set_write_buffer v_ring3 {["v"%string := PyFloat (f64_of_Z 0)]} true.

Lemma v_ring3_staged_wf : wf_handle v_ring3_staged.
Proof. split; vm_compute; try reflexivity. lia. Qed.




(** ** C2: the ring under overrun *)





(** ** C5: which field lists the layout compiler refuses *)

(** The declared types [_parse_type] refuses: the annotation gives no
    positive string length, and either it has the form of an array
    annotation with an empty shape component, or it has not that form and
    the type is none of the three scalar classes. *)
Definition field_rejected (ty : pytype) : Prop :=
  (parse_string (annotation_of ty) = None \/
   parse_string (annotation_of ty) = Some 0) /\
  match match_array (annotation_of ty) with
  | Some (_, shape_str) => EmptyString ∈ split_comma shape_str
  | None => type_sizes ty = None
  end.

Lemma py_int_cases x :
  (x = EmptyString /\ py_int x = Raise ValueError) \/
  (x <> EmptyString /\ exists n, py_int x = Ok n).
Proof.
  unfold py_int. destruct (String.eqb_spec x ""); [by left|right].
  split; [done|]. eauto.
Qed.

Lemma parse_ints_cases parts :
  ((EmptyString ∈ parts) /\ parse_ints parts = Raise ValueError) \/
  ((EmptyString ∉ parts) /\ exists ns, parse_ints parts = Ok ns).
Proof.
  induction parts as [|x parts IH]; cbn [parse_ints].
  - right. split; [by intros ?%not_elem_of_nil|]. eauto.
  - destruct (py_int_cases x) as [[-> ->]|[Hx [n ->]]].
    + left. split; [apply list_elem_of_here|done].
    + destruct IH as [[Hin ->]|[Hnin [ns ->]]].
      * left. split; [by apply list_elem_of_further|done].
      * right. split; [|eauto]. intros [?|?]%elem_of_cons; congruence.
Qed.

Lemma parse_type_cases name ty :
  (field_rejected ty /\ _parse_type name ty = Raise ValueError) \/
  (~ field_rejected ty /\ exists f, _parse_type name ty = Ok f).
Proof.
  unfold _parse_type, field_rejected, parse_array.
  destruct (parse_string (annotation_of ty)) as [[|n]|].
  2: { right. split; [|eauto]. intros [[?|?] _]; discriminate. }
  all: destruct (match_array (annotation_of ty)) as [[dtype_str shape_str]|].
  all: try (destruct (parse_ints_cases (split_comma shape_str))
              as [[Hin ->]|[Hnin [ns ->]]];
            [left; split; [split; [tauto|done]|done]
            |right; split; [tauto|eauto]]).
  all: destruct (type_sizes ty) as [sz|];
    [right; split; [intros [_ ?]; discriminate|eauto]
    |left; split; [split; [tauto|done]|done]].
Qed.

Lemma analyze_fields_cases dc :
  ((exists name ty, (name, ty) ∈ dc /\ field_rejected ty) /\
   _analyze_fields dc = Raise ValueError) \/
  ((forall name ty, (name, ty) ∈ dc -> ~ field_rejected ty) /\
   exists infos, _analyze_fields dc = Ok infos).
Proof.
  induction dc as [|[name ty] dc IH]; cbn [_analyze_fields].
  - right. split; [by intros ?? ?%not_elem_of_nil|]. eauto.
  - destruct (parse_type_cases name ty) as [[Hrej ->]|[Hok [f ->]]].
    + left. split; [|done]. exists name, ty. split; [apply list_elem_of_here|done].
    + destruct IH as [[(n' & t' & Hin & Hrej) ->]|[Hall [infos ->]]].
      * left. split; [|done]. exists n', t'. split; [by apply list_elem_of_further|done].
      * right. split; [|eauto]. intros n' t' [[= -> ->]|Hin]%elem_of_cons;
          [done|by eapply Hall].
Qed.

(** An annotation with a string length is no array annotation, and its type
    is no scalar class. *)
Lemma parse_string_excludes ty n :
  parse_string (annotation_of ty) = Some n ->
  match_array (annotation_of ty) = None /\ type_sizes ty = None.
Proof.
  unfold parse_string.
  destruct (strip_prefix "str[" (annotation_of ty)) as [r|] eqn:Hp; [|done].
  intros _. destruct ty as [| | |s|s]; try (vm_compute in Hp; discriminate Hp).
  all: split; [|done]; cbn [annotation_of] in *.
  all: destruct s as [|c s]; [done|].
  all: cbn [strip_prefix] in Hp.
  all: destruct (Ascii.eqb_spec "s" c) as [<-|]; [|done].
  all: reflexivity.
Qed.

(** C5, as the code has it.  Layout compilation raises nothing but
    [ValueError], and does so exactly when some field's declared type is
    refused: it is none of [float], [int], [bool], its annotation does not
    start with [str[<digits>]] for a positive number, and it does not start
    with an array annotation, or it does and a shape component is empty.  A
    string length of zero is always refused.  A layout that is produced
    carries the field names as they were given. *)
Theorem layout_compilation_errors dc :
  (forall e, compile_layout dc = Raise e -> e = ValueError) /\
  compile_layout dc <> Spin /\
  (compile_layout dc = Raise ValueError <->
   exists name ty, (name, ty) ∈ dc /\ field_rejected ty) /\
  (forall ty, parse_string (annotation_of ty) = Some 0 -> field_rejected ty) /\
  (forall layout, compile_layout dc = Ok layout ->
     fi_name <$> fields layout = dc.*1).
Proof.
  unfold compile_layout.
  destruct (analyze_fields_cases dc) as [[Hex Hrun]|[Hall [infos Hrun]]];
    rewrite Hrun.
  - split; [by intros e [= <-]|]. split; [done|]. split; [done|].
    split; [|done].
    intros ty Hty. destruct (parse_string_excludes ty 0 Hty) as [Ha Hs].
    unfold field_rejected. rewrite Ha. split; [by right|done].
  - split; [done|]. split; [done|]. split; [|split].
    + split; [done|]. intros (name & ty & Hin & Hrej). by destruct (Hall name ty Hin).
    + intros ty Hty. destruct (parse_string_excludes ty 0 Hty) as [Ha Hs].
      unfold field_rejected. rewrite Ha. split; [by right|done].
    + intros layout [= <-]. unfold _calculate_layout.
      destruct (assign_offsets _ infos) as [infos' last] eqn:Ha. simpl.
      apply analyze_fields_spec in Hrun as [_ Hn]. rewrite <- Hn.
      apply assign_offsets_spec in Ha as (_ & Hlen & Hi).
      apply list_eq. intros i. rewrite !list_lookup_fmap.
      destruct (infos' !! i) as [f'|] eqn:Hf'.
      * destruct (Hi i f' Hf') as (f & -> & ->). done.
      * apply lookup_ge_None in Hf'. rewrite Hlen in Hf'.
        apply lookup_ge_None in Hf'. by rewrite Hf'.
Qed.

(** C5 fails on a shape dimension of zero and on an element type that is
    not in the table: a layout is produced for each, the second with
    [float64] elements. *)
Lemma zero_dimension_accepted :
  (exists layout f,
     compile_layout [("a"%string, TyAnnot "float32[0,4]")] = Ok layout /\
     fields layout = [f] /\ fi_array_shape f = Some [0; 4] /\ fi_size f = 0) /\
  (exists layout f,
     compile_layout [("a"%string, TyAnnot "float16[2]")] = Ok layout /\
     fields layout = [f] /\ fi_array_dtype f = Some float64).
Proof.
  split.
  - eexists _, _. vm_compute. repeat split; reflexivity.
  - eexists _, _. vm_compute. repeat split; reflexivity.
Qed.

(** ** C3: decoding stored bytes *)

(** A well-formed two-byte sequence is the encoding of what it decodes to. *)
Lemma utf8_bytes_decoded2 b1 b2 :
  (0xC2 <= b1 < 0xE0)%Z -> is_cont b2 = true ->
  let ch := (Z.shiftl b1 6 + b2 - (Z.shiftl 0xC0 6 + 0x80))%Z in
  is_scalar_value ch /\ utf8_bytes ch = [b1; b2].
Proof.
  intros H1 H2%is_cont_true ch. subst ch. rewrite !Z.shiftl_mul_pow2 by lia.
  change (2 ^ 6)%Z with 64%Z.
  set (ch := (b1 * 64 + b2 - (0xC0 * 64 + 0x80))%Z).
  assert (0x80 <= ch < 0x800)%Z as Hch by (subst ch; lia).
  split.
  - split; [lia|]. unfold is_surrogate. lia.
  - unfold utf8_bytes. destruct (Z.ltb_spec ch 0x80); [lia|].
    destruct (Z.ltb_spec ch 0x800); [|lia].
    f_equal; [|f_equal]; subst ch; zlia.
Qed.

Lemma utf8_bytes_decoded3 b1 b2 b3 :
  (0xE0 <= b1 < 0xF0)%Z -> bad_second3 b1 b2 = false -> is_cont b3 = true ->
  let ch := (Z.shiftl b1 12 + Z.shiftl b2 6 + b3
             - (Z.shiftl 0xE0 12 + Z.shiftl 0x80 6 + 0x80))%Z in
  is_scalar_value ch /\ utf8_bytes ch = [b1; b2; b3].
Proof.
  intros H1 H2 H3%is_cont_true ch. subst ch. rewrite !Z.shiftl_mul_pow2 by lia.
  change (2 ^ 6)%Z with 64%Z. change (2 ^ 12)%Z with 4096%Z.
  unfold bad_second3 in H2. apply orb_false_iff in H2 as [H2 H2'].
  apply negb_false_iff, is_cont_true in H2.
  set (ch := (b1 * 4096 + b2 * 64 + b3 - (0xE0 * 4096 + 0x80 * 64 + 0x80))%Z).
  assert (0x800 <= ch < 0x10000 /\ ~ (0xD800 <= ch <= 0xDFFF))%Z as [Hch Hns].
  { subst ch. destruct (Z.ltb_spec b2 0xA0).
    - destruct (Z.eqb_spec b1 0xE0); [done|]. lia.
    - destruct (Z.eqb_spec b1 0xED); [done|]. lia. }
  split.
  - split; [lia|]. unfold is_surrogate. lia.
  - unfold utf8_bytes. destruct (Z.ltb_spec ch 0x80); [lia|].
    destruct (Z.ltb_spec ch 0x800); [lia|].
    destruct (Z.ltb_spec ch 0x10000); [|lia].
    f_equal; [|f_equal; [|f_equal]]; subst ch; zlia.
Qed.

Lemma utf8_bytes_decoded4 b1 b2 b3 b4 :
  (0xF0 <= b1 < 0xF5)%Z -> bad_second4 b1 b2 = false ->
  is_cont b3 = true -> is_cont b4 = true ->
  let ch := (Z.shiftl b1 18 + Z.shiftl b2 12 + Z.shiftl b3 6 + b4
             - (Z.shiftl 0xF0 18 + Z.shiftl 0x80 12 + Z.shiftl 0x80 6 + 0x80))%Z in
  is_scalar_value ch /\ utf8_bytes ch = [b1; b2; b3; b4].
Proof.
  intros H1 H2 H3%is_cont_true H4%is_cont_true ch. subst ch.
  rewrite !Z.shiftl_mul_pow2 by lia.
  change (2 ^ 6)%Z with 64%Z. change (2 ^ 12)%Z with 4096%Z.
  change (2 ^ 18)%Z with 262144%Z.
  unfold bad_second4 in H2. apply orb_false_iff in H2 as [H2 H2'].
  apply negb_false_iff, is_cont_true in H2.
  set (ch := (b1 * 262144 + b2 * 4096 + b3 * 64 + b4
              - (0xF0 * 262144 + 0x80 * 4096 + 0x80 * 64 + 0x80))%Z).
  assert (0x10000 <= ch <= 0x10FFFF)%Z as Hch.
  { subst ch. destruct (Z.ltb_spec b2 0x90).
    - destruct (Z.eqb_spec b1 0xF0); [done|]. lia.
    - destruct (Z.eqb_spec b1 0xF4); [done|]. lia. }
  split.
  - split; [lia|]. unfold is_surrogate. lia.
  - unfold utf8_bytes. destruct (Z.ltb_spec ch 0x80); [lia|].
    destruct (Z.ltb_spec ch 0x800); [lia|].
    destruct (Z.ltb_spec ch 0x10000); [lia|].
    f_equal; [|f_equal; [|f_equal; [|f_equal]]]; subst ch; zlia.
Qed.

(** Whatever the bytes, the decoder returns code points that [str.encode]
    accepts, and their encodings, put together, are a subsequence of the
    input: bytes are dropped, nothing is put in their place. *)
Lemma utf8_decode_ignore_sublist n : forall bs,
  length bs <= n -> all_bytes bs ->
  Forall is_scalar_value (utf8_decode_ignore bs) /\
  sublist (utf8_decode_ignore bs ≫= utf8_bytes) bs.
Proof.
  induction n as [|n IH]; intros bs Hlen Hb.
  { destruct bs; [|simpl in Hlen; lia]. split; [constructor|]. constructor. }
  assert (forall k t, bs = k ++ t -> k <> [] ->
            Forall is_scalar_value (utf8_decode_ignore t) /\
            sublist (utf8_decode_ignore t ≫= utf8_bytes) bs) as Hskip.
  { intros k t -> Hk. apply Forall_app in Hb as [_ Hb].
    destruct (IH t) as [IH1 IH2]; [|done|].
    - rewrite length_app in Hlen. destruct k; [done|]. simpl in Hlen. lia.
    - split; [done|]. by apply sublist_inserts_l. }
  assert (forall k t ch, bs = k ++ t -> k <> [] ->
            is_scalar_value ch /\ utf8_bytes ch = k ->
            Forall is_scalar_value (ch :: utf8_decode_ignore t) /\
            sublist ((ch :: utf8_decode_ignore t) ≫= utf8_bytes) bs) as Hkeep.
  { intros k t ch -> Hk [Hch Henc]. apply Forall_app in Hb as [_ Hb].
    destruct (IH t) as [IH1 IH2]; [|done|].
    - rewrite length_app in Hlen. destruct k; [done|]. simpl in Hlen. lia.
    - split; [by constructor|]. rewrite bind_cons, Henc.
      by apply sublist_app. }
  destruct bs as [|ch t1]; [split; constructor|].
  cbn [utf8_decode_ignore].
  pose proof (Forall_inv Hb) as Hch. simpl in Hch.
  destruct (Z.ltb_spec ch 0x80).
  { apply (Hkeep [ch] t1 ch); [done|done|]. split.
    - split; [lia|]. unfold is_surrogate. lia.
    - unfold utf8_bytes. by destruct (Z.ltb_spec ch 0x80); [|lia]. }
  destruct (Z.ltb_spec ch 0xE0).
  { destruct (Z.ltb_spec ch 0xC2); [by apply (Hskip [ch] t1)|].
    destruct t1 as [|ch2 t2]; [split; [constructor|apply sublist_nil_l]|].
    destruct (is_cont ch2) eqn:Hc2; cbn [negb].
    - apply (Hkeep [ch; ch2] t2); [done|done|]. by apply utf8_bytes_decoded2.
    - by apply (Hskip [ch] (ch2 :: t2)). }
  destruct (Z.ltb_spec ch 0xF0).
  { destruct t1 as [|ch2 t2]; [split; [constructor|apply sublist_nil_l]|].
    destruct (bad_second3 ch ch2) eqn:Hb2; [by apply (Hskip [ch] (ch2 :: t2))|].
    destruct t2 as [|ch3 t3]; [split; [constructor|apply sublist_nil_l]|].
    destruct (is_cont ch3) eqn:Hc3; cbn [negb].
    - apply (Hkeep [ch; ch2; ch3] t3); [done|done|]. by apply utf8_bytes_decoded3.
    - by apply (Hskip [ch; ch2] (ch3 :: t3)). }
  destruct (Z.ltb_spec ch 0xF5); [|by apply (Hskip [ch] t1)].
  destruct t1 as [|ch2 t2]; [split; [constructor|apply sublist_nil_l]|].
  destruct (bad_second4 ch ch2) eqn:Hb2; [by apply (Hskip [ch] (ch2 :: t2))|].
  destruct t2 as [|ch3 t3]; [split; [constructor|apply sublist_nil_l]|].
  destruct (is_cont ch3) eqn:Hc3; cbn [negb];
    [|by apply (Hskip [ch; ch2] (ch3 :: t3))].
  destruct t3 as [|ch4 t4]; [split; [constructor|apply sublist_nil_l]|].
  destruct (is_cont ch4) eqn:Hc4; cbn [negb].
  - apply (Hkeep [ch; ch2; ch3; ch4] t4); [done|done|].
    by apply utf8_bytes_decoded4.
  - by apply (Hskip [ch; ch2; ch3] (ch4 :: t4)).
Qed.

(** The field [m: str[4]], laid out in a schema of its own. *)
Definition m_dataclass : list (string * pytype) := [("m"%string, TyAnnot "str[4]")].

Definition m_field : _FieldInfo :=
  {| fi_name := "m"; fi_field_type := TyAnnot "str[4]"; fi_is_scalar := false;
     fi_is_string := true; fi_is_array := false; fi_string_max_chars := 4;
     fi_array_dtype := None; fi_array_shape := None; fi_size := 20;
     fi_offset := 16 |}.

Definition m_single : SharedMemory :=
  {| dataclass_type := m_dataclass; slots := 1; is_fifo := false;
     _layout := {| fields := [m_field]; total_size := 48 |}; _slot_size := 48;
     _metadata_offset := 0; _data_offset := 0;
     _write_buffer := ∅; _write_buffer_dirty := false |}.

Definition m_fresh : list Z :=
  Eval vm_compute in (__init__ m_dataclass 1 true []).2.

Lemma m_single_created : __init__ m_dataclass 1 true [] = (Ok m_single, m_fresh).
Proof. vm_compute. reflexivity. Qed.

Lemma m_single_wf : wf_handle m_single.
Proof. split; vm_compute; reflexivity. Qed.

(** C3, as the code has it.  Whatever bytes the region holds, [_read_string]
    does not raise: it reads the length prefix, takes that many bytes (as far
    as the region goes) and decodes them with invalid sequences dropped.
    The result holds only code points that UTF-8 can encode, their encodings
    form a subsequence of the stored bytes, so nothing is put in the place
    of what was dropped, and well-formed UTF-8 is decoded exactly. *)
Theorem read_string_drops_invalid offset f buf :
  all_bytes buf ->
  let stored := slice (offset + 4) (Z.to_nat (from_bytes (slice offset 4 buf))) buf in
  exists s,
    _read_string offset f buf = (Ok (PyStr s), buf) /\
    s = utf8_decode_ignore stored /\
    Forall is_scalar_value s /\
    sublist (s ≫= utf8_bytes) stored /\
    (forall t, Forall is_scalar_value t -> stored = t ≫= utf8_bytes -> s = t).
Proof.
  intros Hb stored. exists (utf8_decode_ignore stored).
  destruct (utf8_decode_ignore_sublist (length stored) stored (le_n _))
    as [Hs Hsub]; [by apply slice_all_bytes|].
  split; [reflexivity|]. split; [done|]. split; [done|]. split; [done|].
  intros t Ht ->. by apply utf8_decode_encode.
Qed.

Lemma read_string_drops_invalid_witness :
  let stored := slice (16 + 4) (Z.to_nat (from_bytes (slice 16 4 m_fresh))) m_fresh in
  exists s,
    _read_string 16 m_field m_fresh = (Ok (PyStr s), m_fresh) /\
    s = utf8_decode_ignore stored /\
    Forall is_scalar_value s /\
    sublist (s ≫= utf8_bytes) stored /\
    (forall t, Forall is_scalar_value t -> stored = t ≫= utf8_bytes -> s = t).
Proof.
  apply (read_string_drops_invalid 16 m_field m_fresh).
  apply all_bytes_check. vm_compute. reflexivity.
Defined.

(** C3 fails on an invalid byte: stored [b'a\xffb'] is read back as ["ab"],
    where the replacement character would give ["a", U+FFFD, "b"]. *)
Lemma invalid_byte_not_replaced :
  let buf := store 16 [3; 0; 0; 0; 97; 255; 98]%Z m_fresh in
  _read_string 16 m_field buf = (Ok (PyStr [97; 98]%Z), buf) /\
  utf8_decode_replace [97; 255; 98]%Z = [97; 0xFFFD; 98]%Z /\
  (_read_string 16 m_field buf).1
    <> Ok (PyStr (utf8_decode_replace [97; 255; 98]%Z)).
Proof.
  cbv zeta. split; [by vm_compute|]. split; [by vm_compute|].
  vm_compute. discriminate.
Qed.

(** ** What a write leaves in the body of a field *)

(** The bytes a completed write of [v] puts at the start of the body of
    field [f], and the truncation flag it reports; [None] when the write
    does not complete. *)
Definition field_image (f : _FieldInfo) (v : pyvalue) : option (list Z * bool) :=
  if fi_is_scalar f then
    match fi_field_type f, v with
    | TyFloat, PyFloat bits => Some (le_bytes 8 bits, false)
    | TyInt, PyInt n =>
        if ((-2147483648 <=? n) && (n <=? 2147483647))%Z
        then Some (le_bytes 4 n, false) else None
    | TyInt, PyBool b => Some (le_bytes 4 (if b then 1 else 0)%Z, false)
    | TyBool, _ =>
        match py_bool v with
        | Ok b => Some ([if b then 1 else 0]%Z, false)
        | _ => None
        end
    | _, _ => None
    end
  else if fi_is_string f then
    match v with
    | PyStr s =>
        let truncated := bool_decide (fi_string_max_chars f < length s) in
        let s := if truncated then take (fi_string_max_chars f) s else s in
        match utf8_encode s with
        | Ok encoded =>
            if (Z.of_nat (length encoded) <? 2 ^ 32)%Z
            then Some (le_bytes 4 (Z.of_nat (length encoded)) ++ encoded, truncated)
            else None
        | _ => None
        end
    | _ => None
    end
  else if fi_is_array f then
    match fi_array_dtype f, fi_array_shape f, v with
    | Some dt, Some sh, PyArray a =>
        if decide (a_dtype a = dt) then
          let truncated := negb (bool_decide (a_shape a = sh)) in
          let '(flat_value, truncated) :=
            if decide (np_prod sh < length (a_data a)) then
              (take (np_prod sh) (a_data a), true)
            else if decide (length (a_data a) < np_prod sh) then
              (a_data a ++ replicate (np_prod sh - length (a_data a)) 0%Z, truncated)
            else (a_data a, truncated) in
          Some (mjoin (le_bytes (itemsize dt) <$> flat_value), truncated)
        else None
    | _, _, _ => None
    end
  else None.

Lemma insert_as_store i v (buf : list Z) :
  i < length buf -> <[i := v]> buf = store i [v] buf.
Proof.
  intros Hi. apply list_eq. intros j. unfold store.
  rewrite setslice_lookup by (simpl; lia). simpl.
  destruct (decide (j = i)) as [->|Hne].
  - rewrite list_lookup_insert_eq by done.
    rewrite decide_False by lia. rewrite decide_True by lia.
    by rewrite Nat.sub_diag.
  - rewrite list_lookup_insert_ne by done. repeat case_decide; try done; lia.
Qed.

Lemma store_store_app start (a b buf : list Z) :
  start + length a + length b <= length buf ->
  store (start + length a) b (store start a buf) = store start (a ++ b) buf.
Proof.
  intros Hlen. apply list_eq. intros j. unfold store.
  rewrite setslice_lookup by (rewrite setslice_length; lia).
  rewrite setslice_lookup by lia.
  rewrite setslice_lookup by (rewrite length_app; lia).
  rewrite length_app.
  repeat case_decide; try lia; try done.
  - rewrite lookup_app_l by lia. done.
  - rewrite lookup_app_r by lia. f_equal. lia.
Qed.

Lemma write_uint32_store offset v (buf : list Z) :
  (0 <= v < 2 ^ 32)%Z -> offset + 4 <= length buf ->
  _write_uint32 offset v buf = (Ok tt, store offset (le_bytes 4 v) buf).
Proof.
  intros Hv Hlen. unfold _write_uint32, bind, lift.
  rewrite to_bytes_ok by (change (256 ^ Z.of_nat 4)%Z with (2 ^ 32)%Z; lia).
  rewrite setslice_ok by (rewrite le_bytes_length; lia). done.
Qed.

Lemma setslice_store start bs (buf : list Z) :
  start + length bs <= length buf ->
  buf_setslice start bs buf = (Ok tt, store start bs buf).
Proof. apply setslice_ok. Qed.

(** [write_value] computes [field_image]. *)
Lemma write_value_image offset f v img t (buf : list Z) :
  field_kind f -> field_image f v = Some (img, t) ->
  offset + fi_size f <= length buf ->
  write_value offset v f buf = (Ok t, store offset img buf) /\
  length img <= fi_size f.
Proof.
  intros [Hs Hsz|Hs Hstr Hsz _|dt sh Hs Hstr Harr Hdt Hsh Hsz] Himg Hlen;
    unfold write_value, field_image in *; rewrite Hs in *.
  - assert (_write_scalar offset v (fi_field_type f) buf
            = (Ok tt, store offset img buf) /\ length img <= fi_size f /\ t = false)
      as (Hw & Hl & ->); [|by rewrite (bind_ok _ _ _ _ _ Hw)].
    unfold _write_scalar.
    destruct (fi_field_type f); cbn [type_sizes] in Hsz; try done;
      injection Hsz as Hsz.
    + destruct v; try done. injection Himg as <- <-.
      rewrite (bind_ok _ _ _ _ _ (np_view_ok 1 float64 offset buf
                                     ltac:(simpl; lia))).
      rewrite (setslice_store offset (le_bytes 8 bits) buf
                 ltac:(rewrite le_bytes_length; lia)).
      split; [done|]. split; [simpl; lia|done].
    + rewrite (bind_ok _ _ _ _ _ (np_view_ok 1 int32 offset buf
                                     ltac:(simpl; lia))).
      destruct v; try done.
      * destruct ((-2147483648 <=? n) && (n <=? 2147483647))%Z; [|done].
        injection Himg as <- <-.
        rewrite (setslice_store offset (le_bytes 4 n) buf
                   ltac:(rewrite le_bytes_length; lia)).
        split; [done|]. split; [simpl; lia|done].
      * injection Himg as <- <-.
        rewrite (setslice_store offset (le_bytes 4 (if b then 1 else 0)%Z) buf
                   ltac:(rewrite le_bytes_length; lia)).
        split; [done|]. split; [simpl; lia|done].
    + destruct (py_bool v) as [b| |] eqn:Hb; try done. injection Himg as <- <-.
      unfold bind at 1. unfold lift.
      rewrite setitem_ok by (lia || by destruct b).
      rewrite insert_as_store by lia. split; [done|]. simpl. split; [lia|done].
  - rewrite Hstr in *. unfold _write_string. destruct v as [| | |s|]; try done.
    destruct (utf8_encode _) as [encoded| |] eqn:Henc; try done.
    destruct (Z.ltb_spec (Z.of_nat (length encoded)) (2 ^ 32)); [|done].
    injection Himg as <- <-.
    assert (length encoded <= fi_string_max_chars f * 4) as Hel.
    { apply utf8_encode_ok_inv in Henc as [_ ->].
      etrans; [apply utf8_bytes_bind_length|].
      case_bool_decide; [rewrite length_take|]; lia. }
    unfold bind at 1. unfold lift.
    rewrite (bind_ok _ _ _ _ _ (write_uint32_store offset
               (Z.of_nat (length encoded)) buf ltac:(lia) ltac:(lia))).
    rewrite (bind_ok _ _ _ _ _ (setslice_store (offset + 4) encoded
               (store offset (le_bytes 4 (Z.of_nat (length encoded))) buf)
               ltac:(rewrite store_length; rewrite ?le_bytes_length; lia))).
    split.
    + unfold ret. f_equal.
      pose proof (store_store_app offset (le_bytes 4 (Z.of_nat (length encoded)))
                    encoded buf) as Hss.
      rewrite le_bytes_length in Hss. apply Hss. lia.
    + simpl. lia.
  - rewrite Hstr, Harr in *. unfold _write_array. rewrite Hdt, Hsh in *.
    destruct v as [| | | |a]; try done. unfold np_asarray.
    destruct (decide (a_dtype a = dt)) as [Hadt|]; [|done].
    unfold bind at 1. unfold lift.
    set (flat := if decide (np_prod sh < length (a_data a)) then _ else _) in *.
    assert (length flat.1 = np_prod sh) as Hfl.
    { subst flat.
      repeat case_decide; cbn [fst];
        rewrite ?length_take, ?length_app, ?length_replicate; lia. }
    destruct flat as [flat_value t']. cbn [fst] in Hfl. injection Himg as <- <-.
    rewrite (bind_ok _ _ _ _ _ (np_view_ok (np_prod sh) dt offset buf ltac:(lia))).
    rewrite (bind_ok _ _ _ _ _ (setslice_store offset
               (mjoin (le_bytes (itemsize dt) <$> flat_value)) buf
               ltac:(rewrite join_le_bytes_length; lia))).
    split; [done|]. rewrite join_le_bytes_length. lia.
Qed.

(** One iteration of the write loop, computed. *)
Lemma write_field_image offset data idx f (buf : list Z) st :
  field_kind f ->
  offset + fi_offset f + fi_size f <= length buf ->
  offset + 8 + idx < offset + fi_offset f ->
  buf !! (offset + 8 + idx) = Some st -> (0 <= st < 256)%Z ->
  match data !! fi_name f with
  | Some v =>
      forall img t, field_image f v = Some (img, t) ->
      write_field offset (offset + 8) data idx f buf =
      (Ok tt, <[offset + 8 + idx := status_written st t]>
                (store (offset + fi_offset f) img buf))
  | None =>
      write_field offset (offset + 8) data idx f buf =
      (Ok tt, <[offset + 8 + idx := status_skipped st]> buf)
  end.
Proof.
  intros Hk Hlen Hso Hst Hbyte. unfold write_field.
  destruct (data !! fi_name f) as [v|].
  - intros img t Himg.
    destruct (write_value_image (offset + fi_offset f) f v img t buf Hk Himg
                ltac:(lia)) as [Hw Hil].
    rewrite (bind_ok _ _ _ _ _ Hw).
    assert (store (offset + fi_offset f) img buf !! (offset + 8 + idx) = Some st)
      as Hst'.
    { rewrite lookup_store_other by lia. done. }
    rewrite (bind_ok _ _ _ _ _ (getitem_ok _ _ _ Hst')).
    apply setitem_ok.
    + rewrite store_length by lia. lia.
    + apply is_byte_true, status_written_byte. done.
  - rewrite (bind_ok _ _ _ _ _ (getitem_ok _ _ _ Hst)).
    apply setitem_ok; [lia|]. apply is_byte_true, status_skipped_byte. done.
Qed.

(** ** Publishing, then reading *)

Section publish_read.
Variable self : SharedMemory.
Hypothesis Hwf : wf_handle self.

(** Every value of the update can be stored in its field. *)
Definition storable (data : gmap string pyvalue) : Prop :=
  forall k g u, fields (_layout self) !! k = Some g ->
    data !! fi_name g = Some u -> is_Some (field_image g u).

Lemma write_to_slot_ok slot_idx data buf :
  let offset := _get_slot_offset self slot_idx in
  offset + _slot_size self <= length buf ->
  all_bytes buf ->
  (from_bytes (slice offset 8 buf) + 1 < 2 ^ 64)%Z ->
  storable data ->
  exists buf', _write_to_slot self slot_idx data buf = (Ok tt, buf').
Proof.
  intros offset Hlen Hbytes Hseq Hdata.
  pose proof (slot_size_min self Hwf) as Hmin.
  pose proof (from_bytes_slice_u64 offset buf Hbytes) as Hsq.
  set (sq := (from_bytes (slice offset 8 buf) + 1)%Z) in *.
  set (b1 := store offset (le_bytes 8 sq) buf).
  assert (length b1 = length buf) as Hl1
    by (apply store_length; rewrite le_bytes_length; lia).
  assert (all_bytes b1) as Hb1.
  { destruct (touches_write_uint64 offset sq buf) as (_ & _ & H).
    rewrite (write_uint64_store offset sq buf ltac:(lia) ltac:(lia)) in H.
    by apply H. }
  destruct (for_enumerate_ok (write_field offset (offset + 8) data)
              (fun b => length b = length buf /\ all_bytes b)
              (fields (_layout self)) 0 b1) as (b2 & Hloop & Hl2 & Hb2); [|done|].
  { intros k g b Hg [Hl Hb]. simpl.
    pose proof (Forall_lookup_1 _ _ _ _ (layout_fields_kind self Hwf) Hg) as Hkind.
    destruct (layout_field_bounds self Hwf k g Hg) as [Hg1 Hg2].
    pose proof (lookup_lt_Some _ _ _ Hg) as Hk.
    destruct (lookup_lt_is_Some_2 b (offset + 8 + k) ltac:(lia)) as [st Hst].
    pose proof (Forall_lookup_1 _ _ _ _ Hb Hst) as Hbyte. simpl in Hbyte.
    pose proof (write_field_image offset data k g b st Hkind ltac:(lia) ltac:(lia)
                  Hst Hbyte) as Hrun.
    destruct (touches_write_field offset data k g Hkind b) as (Hlt & _ & Hbt).
    destruct (data !! fi_name g) as [u|] eqn:Hu.
    - destruct (Hdata k g u Hg Hu) as [[img t] Himg].
      specialize (Hrun img t Himg). rewrite Hrun in Hlt, Hbt. simpl in Hlt, Hbt.
      eexists. split; [exact Hrun|]. split; [congruence|by apply Hbt].
    - rewrite Hrun in Hlt, Hbt. simpl in Hlt, Hbt.
      eexists. split; [exact Hrun|]. split; [congruence|by apply Hbt]. }
  exists (store (offset + _slot_size self - 8) (le_bytes 8 sq) b2).
  unfold _write_to_slot. fold offset.
  rewrite (bind_ok _ _ _ _ _ (read_uint64_eq offset buf)). fold sq.
  rewrite (bind_ok _ _ _ _ _ (write_uint64_store offset sq buf
                                 ltac:(lia) ltac:(lia))). fold b1.
  rewrite (bind_ok _ _ _ _ _ Hloop).
  apply write_uint64_store; lia.
Qed.

(** The field names of a dataclass differ from each other. *)
Lemma later_names_differ i f :
  NoDup (dataclass_type self).*1 ->
  fields (_layout self) !! i = Some f ->
  forall k' g, i < k' -> fields (_layout self) !! k' = Some g ->
               fi_name g <> fi_name f.
Proof.
  intros Hnd Hf k' g Hlt Hg Heq.
  rewrite <- (layout_names self Hwf) in Hnd.
  assert (k' = i); [|lia].
  eapply NoDup_lookup; [exact Hnd| |].
  - rewrite list_lookup_fmap, Hg. simpl. by rewrite Heq.
  - by rewrite list_lookup_fmap, Hf.
Qed.

(** A publish of storable values completes; a read of the slot then returns
    a record whose entry for a published field carries the decoded image of
    the value, the truncation flag of the write, MODIFIED set and UNWRITTEN
    clear. *)
Lemma publish_read_core slot_idx data buf i f v img t :
  let offset := _get_slot_offset self slot_idx in
  offset + _slot_size self <= length buf ->
  all_bytes buf ->
  (from_bytes (slice offset 8 buf) + 1 < 2 ^ 64)%Z ->
  NoDup (dataclass_type self).*1 ->
  storable data ->
  fields (_layout self) !! i = Some f ->
  data !! fi_name f = Some v ->
  field_image f v = Some (img, t) ->
  exists buf' r vws,
    _write_to_slot self slot_idx data buf = (Ok tt, buf') /\
    _read_from_slot self slot_idx false buf' = (Ok (Some r), buf') /\
    r !! fi_name f = Some vws /\
    slice (offset + fi_offset f) (length img) buf' = img /\
    offset + fi_offset f + fi_size f <= length buf' /\
    read_value (offset + fi_offset f) f buf' = (Ok (value vws), buf') /\
    truncated vws = t /\ unwritten vws = false /\ modified vws = true.
Proof.
  intros offset Hlen Hbytes Hseq Hnd Hdata Hf Hv Himg.
  pose proof (slot_size_min self Hwf) as Hmin.
  pose proof (Forall_lookup_1 _ _ _ _ (layout_fields_kind self Hwf) Hf) as Hkind.
  destruct (layout_field_bounds self Hwf i f Hf) as [Hf1 Hf2].
  pose proof (lookup_lt_Some _ _ _ Hf) as Hi.
  destruct (write_to_slot_ok slot_idx data buf Hlen Hbytes Hseq Hdata)
    as (buf' & Hwrite).
  destruct (write_to_slot_inv self Hwf slot_idx data buf buf' Hwrite)
    as (_ & Hl' & _ & Hsb & Hse & Hfields). fold offset in Hsb, Hse, Hfields.
  destruct (touches_write_to_slot self Hwf slot_idx data buf) as (_ & _ & Hb').
  rewrite Hwrite in Hb'. specialize (Hb' Hbytes). simpl in Hb'.
  destruct (Hfields i f Hf) as (b1 & b2 & Hbody & Hl1 & Hst1 & Hfp).
  destruct (lookup_lt_is_Some_2 buf (offset + 8 + i) ltac:(lia)) as [st Hst].
  pose proof (Forall_lookup_1 _ _ _ _ Hbytes Hst) as Hbyte. simpl in Hbyte.
  rewrite Hst in Hst1.
  pose proof (write_field_image offset data i f b1 st Hkind ltac:(lia) ltac:(lia)
                Hst1 Hbyte) as Hrun.
  rewrite Hv in Hrun. specialize (Hrun img t Himg).
  rewrite Hbody in Hrun. injection Hrun as Hb2.
  destruct (write_value_image (offset + fi_offset f) f v img t b1 Hkind Himg
              ltac:(lia)) as [_ Hil].
  assert (slice (offset + fi_offset f) (length img) buf' = img) as Himg'.
  { etrans; [|apply (slice_store_same (offset + fi_offset f) img b1); lia].
    apply slice_ext. intros j Hj. rewrite Hfp by (right; lia). rewrite Hb2.
    apply list_lookup_insert_ne. lia. }
  assert (buf' !! (offset + 8 + i) = Some (status_written st t)) as Hst'.
  { rewrite Hfp by (by left). rewrite Hb2. apply list_lookup_insert_eq.
    rewrite store_length by lia. lia. }
  destruct (read_from_slot_spec self Hwf slot_idx false buf')
    as (r & buf'' & Hread & Hsame & _ & _ & Hlast).
  { fold offset. lia. }
  { done. }
  { fold offset. by rewrite Hsb, Hse. }
  rewrite (Hsame eq_refl) in Hread.
  destruct (Hlast i f Hf (later_names_differ i f Hnd Hf)) as (vws & Hr & Hs & Hrv).
  fold offset in Hs, Hrv. rewrite Hst' in Hs. injection Hs as Hs.
  exists buf', r, vws.
  split; [done|]. split; [done|]. split; [done|]. split; [done|].
  split; [lia|]. split; [done|].
  unfold truncated, unwritten, modified. rewrite <- Hs.
  destruct (status_written_flags st t) as (-> & -> & ->). done.
Qed.

End publish_read.

(** ** Values that fit their field *)

(** [v] has the Python type of field [f] and lies within its bounds: a
    binary64 pattern, an integer of 32 bits, a boolean, a string of at most
    [max_chars] code points that UTF-8 can encode, an array of the declared
    element type and shape. *)
Definition fits (f : _FieldInfo) (v : pyvalue) : Prop :=
  if fi_is_scalar f then
    match fi_field_type f, v with
    | TyFloat, PyFloat bits => (0 <= bits < 2 ^ 64)%Z
    | TyInt, PyInt n => (-2147483648 <= n <= 2147483647)%Z
    | TyBool, PyBool _ => True
    | _, _ => False
    end
  else if fi_is_string f then
    match v with
    | PyStr s => length s <= fi_string_max_chars f /\ Forall is_scalar_value s
    | _ => False
    end
  else
    match fi_array_dtype f, fi_array_shape f, v with
    | Some dt, Some sh, PyArray a =>
        a_dtype a = dt /\ a_shape a = sh /\ length (a_data a) = np_prod sh /\
        Forall (fun x => 0 <= x < 256 ^ Z.of_nat (itemsize dt))%Z (a_data a)
    | _, _, _ => False
    end.

(** A value that fits its field is one the field takes unconverted. *)
Lemma fits_unconverted f v : fits f v -> unconverted f v = true.
Proof.
  unfold fits, unconverted. destruct (fi_is_scalar f).
  - destruct (fi_field_type f), v; try done. intros [? ?].
    apply andb_true_iff. split; by apply Z.leb_le.
  - destruct (fi_is_string f); [by destruct v|].
    destruct (fi_array_dtype f), (fi_array_shape f), v; try done.
    intros (-> & _). by apply bool_decide_eq_true.
Qed.

(** The image of a string, whatever its length. *)
Lemma string_image f s :
  fi_is_scalar f = false -> fi_is_string f = true ->
  fi_size f = 4 + fi_string_max_chars f * 4 ->
  (Z.of_nat (fi_size f) < 2 ^ 32)%Z ->
  Forall is_scalar_value (take (fi_string_max_chars f) s) ->
  let encoded := take (fi_string_max_chars f) s ≫= utf8_bytes in
  field_image f (PyStr s) =
  Some (le_bytes 4 (Z.of_nat (length encoded)) ++ encoded,
        bool_decide (fi_string_max_chars f < length s)).
Proof.
  intros Hs Hstr Hsz Hsmall Hsc encoded. unfold field_image. rewrite Hs, Hstr.
  assert ((if bool_decide (fi_string_max_chars f < length s)
           then take (fi_string_max_chars f) s else s)
          = take (fi_string_max_chars f) s) as ->.
  { case_bool_decide; [done|]. rewrite take_ge by lia. done. }
  rewrite (utf8_encode_scalar _ Hsc). fold encoded.
  assert (length encoded <= fi_string_max_chars f * 4) as Hel.
  { subst encoded. etrans; [apply utf8_bytes_bind_length|].
    rewrite length_take. lia. }
  destruct (Z.ltb_spec (Z.of_nat (length encoded)) (2 ^ 32)); [done|lia].
Qed.

(** Reading a body that holds the image of a string. *)
Lemma string_read_back offset f s (buf : list Z) :
  fi_is_scalar f = false -> fi_is_string f = true ->
  Forall is_scalar_value s ->
  let encoded := s ≫= utf8_bytes in
  (Z.of_nat (length encoded) < 2 ^ 32)%Z ->
  slice offset (length (le_bytes 4 (Z.of_nat (length encoded)) ++ encoded)) buf
    = le_bytes 4 (Z.of_nat (length encoded)) ++ encoded ->
  read_value offset f buf = (Ok (PyStr s), buf).
Proof.
  intros Hs Hstr Hsc encoded Hsmall Hslice.
  rewrite length_app, le_bytes_length in Hslice.
  rewrite slice_app in Hslice.
  assert (length (slice offset 4 buf) = 4) as Hl4.
  { apply (f_equal length) in Hslice.
    rewrite !length_app, le_bytes_length in Hslice.
    assert (length (slice offset 4 buf) <= 4)
      by (unfold slice; rewrite length_take; lia).
    assert (length (slice (offset + 4) (length encoded) buf) <= length encoded)
      by (unfold slice; rewrite length_take; lia).
    lia. }
  apply app_inj_1 in Hslice as [H4 Henc]; [|by rewrite le_bytes_length].
  unfold read_value. rewrite Hs, Hstr. unfold _read_string, _read_uint32.
  unfold bind, buf_getslice, ret. rewrite H4, from_bytes_le_bytes.
  change (256 ^ Z.of_nat 4)%Z with (2 ^ 32)%Z.
  rewrite Z.mod_small by lia. rewrite Nat2Z.id, Henc.
  subst encoded. by rewrite utf8_decode_encode.
Qed.

Lemma chunks_join_le_bytes k (elems : list Z) :
  chunks k (length elems) (mjoin (le_bytes k <$> elems)) = le_bytes k <$> elems.
Proof.
  induction elems as [|x l IH]; [done|].
  change (mjoin (le_bytes k <$> x :: l))
    with (le_bytes k x ++ mjoin (le_bytes k <$> l)).
  cbn [length chunks]. rewrite fmap_cons. f_equal.
  - rewrite take_app_length'; [done|]. by rewrite le_bytes_length.
  - rewrite drop_app_length'; [done|]. by rewrite le_bytes_length.
Qed.

Lemma from_bytes_le_bytes_small k (elems : list Z) :
  Forall (fun x => 0 <= x < 256 ^ Z.of_nat k)%Z elems ->
  from_bytes <$> (le_bytes k <$> elems) = elems.
Proof.
  induction 1 as [|x l Hx _ IH]; [done|].
  rewrite !fmap_cons, IH, from_bytes_le_bytes, Z.mod_small by done. done.
Qed.

(** A value that fits has an image, without truncation, and reading a body
    that holds the image returns the value. *)
Lemma fits_read_back offset f v (buf : list Z) :
  field_kind f -> fits f v ->
  (Z.of_nat (fi_size f) < 2 ^ 32)%Z ->
  exists img,
    field_image f v = Some (img, false) /\
    (slice offset (length img) buf = img ->
     offset + fi_size f <= length buf ->
     read_value offset f buf = (Ok v, buf)).
Proof.
  intros [Hs Hsz|Hs Hstr Hsz Hpos|dt sh Hs Hstr Harr Hdt Hsh Hsz] Hfit Hsmall;
    unfold fits in Hfit; rewrite Hs in Hfit.
  - unfold field_image, read_value. rewrite Hs. unfold _read_scalar.
    destruct (fi_field_type f); cbn [type_sizes] in Hsz; try done;
      injection Hsz as Hsz; destruct v; try done.
    + eexists. split; [reflexivity|]. rewrite le_bytes_length.
      intros Hslice Hlen.
      rewrite (bind_ok _ _ _ _ _ (np_view_load_ok 1 float64 offset buf
                                     ltac:(simpl; lia))).
      cbn [itemsize Nat.mul chunks fmap list_fmap head default].
      change (8 + 0) with 8. rewrite Hslice.
      rewrite take_ge by (rewrite le_bytes_length; lia).
      rewrite from_bytes_le_bytes_u64 by done. done.
    + destruct (Z.leb_spec (-2147483648) n); [|lia].
      destruct (Z.leb_spec n 2147483647); [|lia]. cbn [andb].
      eexists. split; [reflexivity|]. rewrite le_bytes_length.
      intros Hslice Hlen.
      rewrite (bind_ok _ _ _ _ _ (np_view_load_ok 1 int32 offset buf
                                     ltac:(simpl; lia))).
      cbn [itemsize Nat.mul chunks fmap list_fmap head default].
      change (4 + 0) with 4. rewrite Hslice.
      rewrite take_ge by (rewrite le_bytes_length; lia).
      rewrite from_bytes_le_bytes. change (256 ^ Z.of_nat 4)%Z with 4294967296%Z.
      unfold ret, id. do 3 f_equal.
      destruct (Z.ltb_spec (n mod 4294967296) 2147483648); zlia.
    + cbn [py_bool]. eexists. split; [reflexivity|]. cbn [length].
      intros Hslice Hlen.
      assert (buf !! offset = Some (if b then 1 else 0)%Z) as Hb.
      { apply (f_equal (fun l => l !! 0)) in Hslice.
        rewrite slice_lookup in Hslice. rewrite decide_True in Hslice by lia.
        by rewrite Nat.add_0_r in Hslice. }
      rewrite (bind_ok _ _ _ _ _ (getitem_ok _ _ _ Hb)). by destruct b.
  - rewrite Hstr in Hfit. destruct v as [| | |s|]; try done.
    destruct Hfit as [Hlen Hsc].
    assert (take (fi_string_max_chars f) s = s) as Htake by (by rewrite take_ge).
    pose proof (string_image f s Hs Hstr Hsz Hsmall) as Himg.
    rewrite Htake in Himg. specialize (Himg Hsc). cbv zeta in Himg.
    rewrite bool_decide_eq_false_2 in Himg by lia.
    eexists. split; [exact Himg|]. intros Hslice _.
    apply string_read_back; try done.
    pose proof (utf8_bytes_bind_length s). lia.
  - rewrite Hstr, Hdt, Hsh in Hfit. destruct v as [| | | |a]; try done.
    destruct Hfit as (Hadt & Hash & Halen & Hrange).
    unfold field_image, read_value. rewrite Hs, Hstr, Harr, Hdt, Hsh.
    rewrite decide_True by done. rewrite bool_decide_eq_true_2 by done.
    rewrite decide_False by lia. rewrite decide_False by lia. cbn [negb].
    eexists. split; [reflexivity|]. rewrite join_le_bytes_length, Halen.
    intros Hslice Hlen.
    unfold _read_array. rewrite Hdt, Hsh.
    rewrite (bind_ok _ _ _ _ _ (np_view_load_ok (np_prod sh) dt offset buf
                                   ltac:(lia))).
    rewrite Hslice, <- Halen, chunks_join_le_bytes.
    rewrite from_bytes_le_bytes_small by done.
    unfold ret. do 3 f_equal. destruct a. simpl in *. by subst.
Qed.

(** ** C1: round trip *)

Section round_trip.
Variable self : SharedMemory.
Hypothesis Hwf : wf_handle self.
Hypothesis Hnames : NoDup (dataclass_type self).*1.

Lemma field_small slot_idx buf k g :
  slot_idx < slots self -> wf_region self buf ->
  (Z.of_nat (length buf) < 2 ^ 32)%Z ->
  fields (_layout self) !! k = Some g ->
  (Z.of_nat (fi_size g) < 2 ^ 32)%Z /\
  _get_slot_offset self slot_idx + _slot_size self <= length buf.
Proof.
  intros Hslot [Hlen _] Hsmall Hg.
  destruct (layout_field_bounds self Hwf k g Hg) as [_ Hb].
  pose proof (slot_in_region self slot_idx Hslot). lia.
Qed.

Lemma same_name_same_field i f k g :
  fields (_layout self) !! i = Some f ->
  fields (_layout self) !! k = Some g ->
  fi_name g = fi_name f -> k = i /\ g = f.
Proof.
  intros Hf Hg Heq.
  assert (k = i) as ->.
  { pose proof Hnames as Hnd. rewrite <- (layout_names self Hwf) in Hnd.
    eapply NoDup_lookup; [exact Hnd| |].
    - rewrite list_lookup_fmap, Hg. simpl. by rewrite Heq.
    - by rewrite list_lookup_fmap, Hf. }
  split; [done|congruence].
Qed.

End round_trip.

(** C1, as the code has it.  In a region of less than 4 GiB whose slot has
    not been written 2^64 - 1 times, a publish of values that fit their
    fields (for a string: at most [max_chars] code points, none of them a
    surrogate) completes, and a read of the slot then returns a record in
    which every published field has the published value, is valid and is
    modified. *)
Theorem publish_consume_round_trip self slot_idx data buf i f x :
  wf_handle self -> NoDup (dataclass_type self).*1 ->
  wf_region self buf -> slot_idx < slots self ->
  (Z.of_nat (length buf) < 2 ^ 32)%Z ->
  (from_bytes (slice (_get_slot_offset self slot_idx) 8 buf) + 1 < 2 ^ 64)%Z ->
  (forall k g u, fields (_layout self) !! k = Some g ->
     data !! fi_name g = Some u -> fits g u) ->
  fields (_layout self) !! i = Some f ->
  data !! fi_name f = Some x ->
  exists buf' r vws,
    _write_to_slot self slot_idx data buf = (Ok tt, buf') /\
    _read_from_slot self slot_idx false buf' = (Ok (Some r), buf') /\
    r !! fi_name f = Some vws /\
    value vws = x /\ valid vws = true /\ modified vws = true.
Proof.
  intros Hwf Hnd Hreg Hslot Hsmall Hseq Hfits Hf Hx.
  pose proof (layout_fields_kind self Hwf) as Hkinds.
  destruct (field_small self Hwf slot_idx buf i f Hslot Hreg Hsmall Hf)
    as [Hfsmall Hlen].
  pose proof (Forall_lookup_1 _ _ _ _ Hkinds Hf) as Hkind.
  assert (storable self data) as Hstor.
  { intros k g u Hg Hu.
    destruct (field_small self Hwf slot_idx buf k g Hslot Hreg Hsmall Hg) as [Hgs _].
    destruct (fits_read_back 0 g u [] (Forall_lookup_1 _ _ _ _ Hkinds Hg)
                (Hfits k g u Hg Hu) Hgs) as (img & -> & _). eauto. }
  destruct (publish_read_core self Hwf slot_idx data buf i f x) with
    (img := (default ([], false) (field_image f x)).1) (t := false)
    as (buf' & r & vws & Hw & Hr & Hrec & Hslice & Hlen' & Hrv & Ht & Hu & Hm);
    try done; try apply Hreg.
  { destruct (fits_read_back 0 f x [] Hkind (Hfits i f x Hf Hx) Hfsmall)
      as (img & -> & _). done. }
  exists buf', r, vws. split; [done|]. split; [done|]. split; [done|].
  destruct (fits_read_back (_get_slot_offset self slot_idx + fi_offset f) f x buf'
              Hkind (Hfits i f x Hf Hx) Hfsmall) as (img & Himg & Hback).
  rewrite Himg in Hslice. simpl in Hslice.
  rewrite (Hback Hslice Hlen') in Hrv. injection Hrv as Hrv.
  split; [done|]. split; [|done].
  unfold valid, is_valid. unfold truncated in Ht. unfold unwritten in Hu.
  by rewrite Ht, Hu.
Qed.

(** The update [v = 42.0, n = 10] of scenario S1. *)
Definition s1_update : gmap string pyvalue :=
  {["v"%string := PyFloat (f64_of_Z 42); "n"%string := PyInt 10]}.

Lemma publish_consume_round_trip_witness :
  exists buf' r vws,
    _write_to_slot vn_single 0 s1_update vn_fresh = (Ok tt, buf') /\
    _read_from_slot vn_single 0 false buf' = (Ok (Some r), buf') /\
    r !! fi_name vn_field_n = Some vws /\
    value vws = PyInt 10 /\ valid vws = true /\ modified vws = true.
Proof.
  apply (publish_consume_round_trip vn_single 0 s1_update vn_fresh 1 vn_field_n
           (PyInt 10) vn_single_wf).
  - apply (bool_decide_eq_true_1 _). vm_compute. reflexivity.
  - split; [reflexivity|]. apply all_bytes_check. vm_compute. reflexivity.
  - vm_compute. lia.
  - vm_compute. reflexivity.
  - vm_compute. reflexivity.
  - intros k g u Hg Hu.
    destruct k as [|[|k]]; vm_compute in Hg; inversion Hg; subst g;
      vm_compute in Hu; inversion Hu; subst u; vm_compute; try done.
  - reflexivity.
  - reflexivity.
Defined.

(** C1 fails on a string with a lone surrogate: one code point fits
    [str[4]], but the publish raises and leaves the slot torn, so the read
    that follows returns no record. *)
Lemma surrogate_publish_raises :
  let data : gmap string pyvalue := {["m"%string := PyStr [0xD800]%Z]} in
  length [0xD800%Z] <= fi_string_max_chars m_field /\
  fields (_layout m_single) !! 0 = Some m_field /\
  (_write_to_slot m_single 0 data m_fresh).1 = Raise UnicodeEncodeError /\
  (_read_from_slot m_single 0 false (_write_to_slot m_single 0 data m_fresh).2).1
    = Ok None.
Proof.
  cbv zeta. split; [vm_compute; lia|]. repeat split; vm_compute; reflexivity.
Qed.

(** ** C8: the truncation boundary of strings *)

(** C8, as the code has it.  For a string field and a published string
    without surrogate code points (the other published values fitting their
    fields, in a region of less than 4 GiB whose slot can still be written):
    the publish completes and the read returns the first [max_chars] code
    points with [truncated] set exactly when the string is longer; so a
    string of exactly [max_chars] code points comes back whole and not
    truncated, and one of [max_chars + 1] comes back truncated to its first
    [max_chars]. *)
Theorem string_truncation_boundary self slot_idx data buf i f s :
  wf_handle self -> NoDup (dataclass_type self).*1 ->
  wf_region self buf -> slot_idx < slots self ->
  (Z.of_nat (length buf) < 2 ^ 32)%Z ->
  (from_bytes (slice (_get_slot_offset self slot_idx) 8 buf) + 1 < 2 ^ 64)%Z ->
  fields (_layout self) !! i = Some f ->
  fi_is_string f = true ->
  data !! fi_name f = Some (PyStr s) ->
  Forall is_scalar_value s ->
  (forall k g u, fields (_layout self) !! k = Some g -> k <> i ->
     data !! fi_name g = Some u -> fits g u) ->
  exists buf' r vws,
    _write_to_slot self slot_idx data buf = (Ok tt, buf') /\
    _read_from_slot self slot_idx false buf' = (Ok (Some r), buf') /\
    r !! fi_name f = Some vws /\
    value vws = PyStr (take (fi_string_max_chars f) s) /\
    truncated vws = bool_decide (fi_string_max_chars f < length s) /\
    (length s = fi_string_max_chars f ->
       truncated vws = false /\ value vws = PyStr s) /\
    (length s = S (fi_string_max_chars f) ->
       truncated vws = true /\
       value vws = PyStr (take (fi_string_max_chars f) s)).
Proof.
  intros Hwf Hnd Hreg Hslot Hsmall Hseq Hf Hstr Hs Hsc Hfits.
  pose proof (layout_fields_kind self Hwf) as Hkinds.
  destruct (field_small self Hwf slot_idx buf i f Hslot Hreg Hsmall Hf)
    as [Hfsmall Hlen].
  pose proof (Forall_lookup_1 _ _ _ _ Hkinds Hf) as Hkind.
  assert (fi_is_scalar f = false /\ fi_size f = 4 + fi_string_max_chars f * 4)
    as [Hnsc Hsz].
  { destruct Hkind as [? ? Hns|? ? ? ?|dt sh ? Hns ? ? ? ?];
      [congruence|done|congruence]. }
  pose proof (string_image f s Hnsc Hstr Hsz Hfsmall
                (Forall_take _ _ _ Hsc)) as Himg. cbv zeta in Himg.
  set (encoded := take (fi_string_max_chars f) s ≫= utf8_bytes) in *.
  assert (storable self data) as Hstor.
  { intros k g u Hg Hu. destruct (decide (k = i)) as [->|Hne].
    - rewrite Hf in Hg. injection Hg as <-. rewrite Hs in Hu. injection Hu as <-.
      rewrite Himg. eauto.
    - destruct (field_small self Hwf slot_idx buf k g Hslot Hreg Hsmall Hg)
        as [Hgs _].
      destruct (fits_read_back 0 g u [] (Forall_lookup_1 _ _ _ _ Hkinds Hg)
                  (Hfits k g u Hg Hne Hu) Hgs) as (img & -> & _). eauto. }
  destruct (publish_read_core self Hwf slot_idx data buf i f (PyStr s) _ _
              Hlen (proj2 Hreg) Hseq Hnd Hstor Hf Hs Himg)
    as (buf' & r & vws & Hw & Hr & Hrec & Hslice & Hlen' & Hrv & Ht & Hu & Hm).
  assert (value vws = PyStr (take (fi_string_max_chars f) s)) as Hval.
  { pose proof (string_read_back (_get_slot_offset self slot_idx + fi_offset f) f
                  (take (fi_string_max_chars f) s) buf' Hnsc Hstr
                  (Forall_take _ _ _ Hsc)) as Hback.
    cbv zeta in Hback. fold encoded in Hback.
    assert (length encoded <= fi_string_max_chars f * 4).
    { subst encoded. etrans; [apply utf8_bytes_bind_length|].
      rewrite length_take. lia. }
    rewrite (Hback ltac:(lia) Hslice) in Hrv. by injection Hrv as <-. }
  exists buf', r, vws. split; [done|]. split; [done|]. split; [done|].
  split; [done|]. split; [done|]. split.
  - intros Hl. rewrite Ht, Hval. rewrite bool_decide_eq_false_2 by lia.
    by rewrite take_ge by lia.
  - intros Hl. rewrite Ht, Hval. by rewrite bool_decide_eq_true_2 by lia.
Qed.

Lemma string_truncation_boundary_witness :
  exists buf' r vws,
    _write_to_slot m_single 0 {["m"%string := PyStr [97; 98; 99; 100; 101]%Z]}
      m_fresh = (Ok tt, buf') /\
    _read_from_slot m_single 0 false buf' = (Ok (Some r), buf') /\
    r !! fi_name m_field = Some vws /\
    value vws = PyStr (take (fi_string_max_chars m_field) [97; 98; 99; 100; 101]%Z) /\
    truncated vws = bool_decide (fi_string_max_chars m_field
                                 < length [97; 98; 99; 100; 101]%Z) /\
    (length [97; 98; 99; 100; 101]%Z = fi_string_max_chars m_field ->
       truncated vws = false /\ value vws = PyStr [97; 98; 99; 100; 101]%Z) /\
    (length [97; 98; 99; 100; 101]%Z = S (fi_string_max_chars m_field) ->
       truncated vws = true /\
       value vws = PyStr (take (fi_string_max_chars m_field)
                            [97; 98; 99; 100; 101]%Z)).
Proof.
  apply (string_truncation_boundary m_single 0
           {["m"%string := PyStr [97; 98; 99; 100; 101]%Z]} m_fresh 0 m_field
           [97; 98; 99; 100; 101]%Z m_single_wf).
  - apply (bool_decide_eq_true_1 _). vm_compute. reflexivity.
  - split; [reflexivity|]. apply all_bytes_check. vm_compute. reflexivity.
  - vm_compute. lia.
  - vm_compute. reflexivity.
  - vm_compute. reflexivity.
  - reflexivity.
  - reflexivity.
  - reflexivity.
  - repeat constructor; vm_compute; try reflexivity; discriminate.
  - intros k g u Hg Hk. destruct k as [|k]; [done|]. discriminate Hg.
Defined.

(** C8 fails on a string of exactly [max_chars] code points one of which is
    a lone surrogate: the publish raises. *)
Lemma surrogate_at_boundary_raises :
  let s := [97; 0xD800; 98; 99]%Z in
  length s = fi_string_max_chars m_field /\
  fields (_layout m_single) !! 0 = Some m_field /\
  (_write_to_slot m_single 0 {["m"%string := PyStr s]} m_fresh).1
    = Raise UnicodeEncodeError.
Proof. cbv zeta. repeat split; vm_compute; reflexivity. Qed.

(** * Further properties *)

(** ** The layout of a slot *)

Lemma assign_offsets_sizes infos o infos' last :
  assign_offsets o infos = (infos', last) ->
  fi_size <$> infos' = fi_size <$> infos.
Proof.
  intros Ha. apply assign_offsets_spec in Ha as (_ & Hlen & Hi).
  apply list_eq. intros i. rewrite !list_lookup_fmap.
  destruct (infos' !! i) as [f'|] eqn:Hf'.
  - destruct (Hi i f' Hf') as (f & -> & ->). done.
  - apply lookup_ge_None in Hf'. rewrite Hlen in Hf'.
    apply lookup_ge_None in Hf'. by rewrite Hf'.
Qed.

Lemma sum_list_take_le (l : list nat) i : sum_list (take i l) <= sum_list l.
Proof.
  revert i. induction l as [|x l IH]; intros [|i]; simpl; try lia.
  specialize (IH i). lia.
Qed.

Lemma sum_list_take_S (l : list nat) i x :
  l !! i = Some x -> sum_list (take (S i) l) = sum_list (take i l) + x.
Proof.
  revert i. induction l as [|y l IH]; intros [|i]; simpl; try done.
  - intros [= ->]. lia.
  - intros H. rewrite (IH i H). lia.
Qed.

Lemma sum_list_take_mono (l : list nat) i j :
  i <= j -> sum_list (take i l) <= sum_list (take j l).
Proof.
  revert i j. induction l as [|x l IH]; intros [|i] [|j] Hij; simpl; try lia.
  specialize (IH i j). lia.
Qed.

(** X1.  The slot of a compiled layout: a header of 8 bytes and one status
    byte per field, rounded up to a multiple of 8; then the fields in their
    declared order, packed without gaps; then a footer of 8 bytes, the
    whole rounded up to a multiple of 8.  So the fields overlap neither each
    other nor the header nor the footer. *)
Theorem layout_geometry dc layout :
  compile_layout dc = Ok layout ->
  let n := length (fields layout) in
  let start := (8 + n + 7) / 8 * 8 in
  n = length dc /\
  total_size layout =
    (start + sum_list (fi_size <$> fields layout) + 8 + 7) / 8 * 8 /\
  (forall i f, fields layout !! i = Some f ->
     fi_offset f = start + sum_list (fi_size <$> take i (fields layout))) /\
  (forall i f, fields layout !! i = Some f ->
     8 + n <= fi_offset f /\ fi_offset f + fi_size f + 8 <= total_size layout) /\
  (forall i j f g, i < j ->
     fields layout !! i = Some f -> fields layout !! j = Some g ->
     fi_offset f + fi_size f <= fi_offset g).
Proof.
  unfold compile_layout.
  destruct (_analyze_fields dc) as [infos| |] eqn:Hinfos; try discriminate.
  intros [= <-]. unfold _calculate_layout.
  destruct (assign_offsets _ infos) as [infos' last] eqn:Ha.
  cbn [fields total_size]. cbv zeta.
  pose proof (assign_offsets_sizes _ _ _ _ Ha) as Hsz.
  apply assign_offsets_spec in Ha as (Hlast & Hlen & Hi).
  apply analyze_fields_spec in Hinfos as [_ Hnames].
  assert (length infos = length dc) as Hdc.
  { apply (f_equal length) in Hnames. by rewrite !length_fmap in Hnames. }
  unfold sizes_before in *. rewrite firstn_all in Hlast.
  assert (forall i f, infos' !! i = Some f ->
            fi_offset f = (8 + length infos' + 7) / 8 * 8
                          + sum_list (fi_size <$> take i infos')) as Hoff.
  { intros i f Hf. destruct (Hi i f Hf) as (f0 & Hf0 & ->).
    cbn [set_offset fi_offset]. rewrite Hlen. f_equal.
    by rewrite !fmap_take, Hsz. }
  pose proof (align8_bounds (8 + length infos')) as Hal.
  split; [congruence|]. split; [|split; [exact Hoff|split]].
  - rewrite Hlast, Hsz, Hlen. done.
  - intros i f Hf. rewrite (Hoff i f Hf). split; [lia|].
    pose proof (align8_bounds (last + 8)) as Hal2.
    rewrite Hlast, <- Hsz, <- Hlen in Hal2.
    assert ((fi_size <$> infos') !! i = Some (fi_size f)) as Hfi
      by (by rewrite list_lookup_fmap, Hf).
    pose proof (sum_list_take_S _ _ _ Hfi) as HS.
    pose proof (sum_list_take_le (fi_size <$> infos') (S i)) as Hle.
    rewrite <- fmap_take in HS. rewrite fmap_take. rewrite fmap_take in HS.
    rewrite Hlast, <- Hsz, <- Hlen. lia.
  - intros i j f g Hij Hf Hg. rewrite (Hoff i f Hf), (Hoff j g Hg).
    assert ((fi_size <$> infos') !! i = Some (fi_size f)) as Hfi
      by (by rewrite list_lookup_fmap, Hf).
    pose proof (sum_list_take_S _ _ _ Hfi) as HS.
    pose proof (sum_list_take_mono (fi_size <$> infos') (S i) j ltac:(lia)) as Hm.
    rewrite !fmap_take. lia.
Qed.

Lemma layout_geometry_witness :
  let n := length (fields vn_layout) in
  let start := (8 + n + 7) / 8 * 8 in
  n = length vn_dataclass /\
  total_size vn_layout =
    (start + sum_list (fi_size <$> fields vn_layout) + 8 + 7) / 8 * 8 /\
  (forall i f, fields vn_layout !! i = Some f ->
     fi_offset f = start + sum_list (fi_size <$> take i (fields vn_layout))) /\
  (forall i f, fields vn_layout !! i = Some f ->
     8 + n <= fi_offset f /\ fi_offset f + fi_size f + 8 <= total_size vn_layout) /\
  (forall i j f g, i < j ->
     fields vn_layout !! i = Some f -> fields vn_layout !! j = Some g ->
     fi_offset f + fi_size f <= fi_offset g).
Proof. apply (layout_geometry vn_dataclass vn_layout). vm_compute. reflexivity. Defined.

(** What [_parse_type] decides about a field it accepts. *)
Definition field_classified (ty : pytype) (f : _FieldInfo) : Prop :=
  (fi_is_scalar f = true /\ fi_is_string f = false /\ fi_is_array f = false /\
   type_sizes ty = Some (fi_size f)) \/
  (fi_is_scalar f = false /\ fi_is_string f = true /\ fi_is_array f = false /\
   0 < fi_string_max_chars f /\
   parse_string (annotation_of ty) = Some (fi_string_max_chars f) /\
   fi_size f = 4 + fi_string_max_chars f * 4) \/
  (fi_is_scalar f = false /\ fi_is_string f = false /\ fi_is_array f = true /\
   exists dt sh,
     parse_array (annotation_of ty) = Ok (Some (dt, sh)) /\
     fi_array_dtype f = Some dt /\ fi_array_shape f = Some sh /\
     fi_size f = np_prod sh * itemsize dt).

Lemma parse_type_classified name ty f :
  _parse_type name ty = Ok f ->
  fi_name f = name /\ fi_field_type f = ty /\ field_classified ty f.
Proof.
  unfold _parse_type, field_classified.
  destruct (parse_string (annotation_of ty)) as [[|n]|] eqn:Hps.
  2: { intros [= <-]. cbn. split; [done|]. split; [done|]. right; left.
       repeat split; try done; lia. }
  all: destruct (parse_array (annotation_of ty)) as [[[dt sh]|]| |];
    try discriminate.
  all: try (intros [= <-]; cbn; split; [done|]; split; [done|]; right; right;
            repeat split; try done; by exists dt, sh).
  all: destruct (type_sizes ty) as [sz|] eqn:Hsz; try discriminate.
  all: intros [= <-]; cbn; split; [done|]; split; [done|]; left; done.
Qed.

Lemma analyze_fields_lookup dc infos i name ty :
  _analyze_fields dc = Ok infos -> dc !! i = Some (name, ty) ->
  exists f, infos !! i = Some f /\ _parse_type name ty = Ok f.
Proof.
  revert infos i. induction dc as [|[n0 t0] dc IH]; intros infos i; [done|].
  cbn [_analyze_fields].
  destruct (_parse_type n0 t0) as [f0| |] eqn:Hf0; try discriminate.
  destruct (_analyze_fields dc) as [fs| |]; try discriminate.
  intros [= <-]. destruct i as [|i]; simpl.
  - intros [= <- <-]. eauto.
  - intros Hi. by apply IH.
Qed.

(** X2.  Every declared field of a compiled layout becomes the field of the
    same position, name and type, of exactly one kind: a scalar with the size
    of its class (8 for [float], 4 for [int], 1 for [bool]), a string of at
    least one code point with 4 bytes of length and 4 bytes for each code
    point, or an array with one item of its element type for each element. *)
Theorem layout_field_kinds dc layout i name ty :
  compile_layout dc = Ok layout ->
  dc !! i = Some (name, ty) ->
  exists f, fields layout !! i = Some f /\
    fi_name f = name /\ fi_field_type f = ty /\ field_classified ty f.
Proof.
  unfold compile_layout.
  destruct (_analyze_fields dc) as [infos| |] eqn:Hinfos; try discriminate.
  intros [= <-] Hdc. unfold _calculate_layout.
  destruct (assign_offsets _ infos) as [infos' last] eqn:Ha. cbn [fields].
  destruct (analyze_fields_lookup _ _ _ _ _ Hinfos Hdc) as (f & Hf & Hpt).
  apply assign_offsets_spec in Ha as (_ & Hlen & Hi).
  destruct (infos' !! i) as [f'|] eqn:Hf'.
  - destruct (Hi i f' Hf') as (f0 & Hf0 & ->). rewrite Hf in Hf0.
    injection Hf0 as <-. eexists. split; [done|].
    by apply parse_type_classified in Hpt.
  - apply lookup_ge_None in Hf'. apply lookup_lt_Some in Hf. lia.
Qed.

Lemma layout_field_kinds_witness :
  exists f, fields vn_layout !! 1 = Some f /\
    fi_name f = "n"%string /\ fi_field_type f = TyInt /\ field_classified TyInt f.
Proof.
  apply (layout_field_kinds vn_dataclass vn_layout 1 "n"%string TyInt).
  - vm_compute. reflexivity.
  - reflexivity.
Defined.

(** ** Annotations are matched at their head *)

Lemma strip_prefix_app p s r t :
  strip_prefix p s = Some r -> strip_prefix p (s ++ t) = Some (r ++ t)%string.
Proof.
  revert s. induction p as [|a p IH]; intros s; simpl.
  - by intros [= ->].
  - destruct s as [|b s]; [done|]. simpl. destruct (Ascii.eqb a b); [|done].
    apply IH.
Qed.

Lemma span_app f s a c b t :
  span f s = (a, String c b) ->
  span f (s ++ t) = (a, (String c b ++ t)%string).
Proof.
  revert a. induction s as [|x s IH]; intros a; simpl; [done|].
  destruct (f x) eqn:Hfx.
  - destruct (span f s) as [a0 b0] eqn:Hs. intros [= <- ->].
    by rewrite (IH a0 eq_refl).
  - by intros [= <- <- <-].
Qed.

Lemma parse_string_app s t n :
  parse_string s = Some n -> parse_string (s ++ t) = Some n.
Proof.
  unfold parse_string.
  destruct (strip_prefix "str[" s) as [r|] eqn:Hp; [|done].
  rewrite (strip_prefix_app _ _ _ t Hp).
  destruct (span is_digit r) as [digits r'] eqn:Hsp.
  destruct (String.eqb digits "") eqn:Hd; [done|].
  destruct r' as [|c r']; [done|].
  rewrite (span_app _ _ _ _ _ t Hsp), Hd. simpl.
  destruct c as [[] [] [] [] [] [] [] []]; done.
Qed.

Lemma match_shape_app r t g :
  match_shape r = Some g -> match_shape (r ++ t) = Some g.
Proof.
  unfold match_shape. destruct r as [|c r1]; [done|]. simpl.
  destruct c as [[] [] [] [] [] [] [] []]; try done.
  destruct (span _ r1) as [g0 r2] eqn:Hsp.
  destruct (String.eqb g0 "") eqn:Hd; [done|].
  destruct r2 as [|c r2]; [done|].
  rewrite (span_app _ _ _ _ _ t Hsp), Hd. simpl.
  destruct c as [[] [] [] [] [] [] [] []]; done.
Qed.

Lemma match_alt_digits_app p s t m :
  match_alt_digits p s = Some m -> match_alt_digits p (s ++ t) = Some m.
Proof.
  unfold match_alt_digits.
  destruct (strip_prefix p s) as [r|] eqn:Hp; [|done].
  rewrite (strip_prefix_app _ _ _ t Hp).
  destruct (span is_digit r) as [digits r'] eqn:Hsp.
  destruct (String.eqb digits "") eqn:Hd; [done|].
  destruct (match_shape r') as [g|] eqn:Hms; [|done].
  intros [= <-].
  assert (exists c r2, r' = String c r2) as (c & r2 & ->).
  { destruct r'; [done|eauto]. }
  rewrite (span_app _ _ _ _ _ t Hsp), Hd.
  by rewrite (match_shape_app _ t _ Hms).
Qed.

Lemma match_alt_bool_app s t m :
  match_alt_bool s = Some m -> match_alt_bool (s ++ t) = Some m.
Proof.
  unfold match_alt_bool.
  destruct (strip_prefix "bool" s) as [r|] eqn:Hp; [|done].
  rewrite (strip_prefix_app _ _ _ t Hp).
  destruct (match_shape r) as [g|] eqn:Hms; [|done].
  by rewrite (match_shape_app _ t _ Hms).
Qed.

Lemma strip_prefix_head a p s r :
  strip_prefix (String a p) s = Some r -> exists s', s = String a s'.
Proof.
  simpl. destruct s as [|b s]; [done|].
  destruct (Ascii.eqb_spec a b) as [->|]; [eauto|done].
Qed.

Lemma match_alt_digits_head a p s m :
  match_alt_digits (String a p) s = Some m -> exists s', s = String a s'.
Proof.
  unfold match_alt_digits.
  destruct (strip_prefix (String a p) s) as [r|] eqn:Hp; [|done].
  intros _. by eapply strip_prefix_head.
Qed.

Lemma match_array_app s t m :
  match_array s = Some m -> match_array (s ++ t) = Some m.
Proof.
  unfold match_array.
  destruct (match_alt_digits "float" s) as [m1|] eqn:H1.
  { intros [= <-]. by rewrite (match_alt_digits_app _ _ t _ H1). }
  destruct (match_alt_digits "int" s) as [m2|] eqn:H2.
  { intros [= <-]. destruct (match_alt_digits_head _ _ _ _ H2) as [s' ->].
    rewrite (match_alt_digits_app _ _ t _ H2). done. }
  destruct (match_alt_digits "uint" s) as [m3|] eqn:H3.
  { intros [= <-]. destruct (match_alt_digits_head _ _ _ _ H3) as [s' ->].
    rewrite (match_alt_digits_app _ _ t _ H3). done. }
  intros H4. assert (exists s', s = String "b" s') as [s' ->].
  { unfold match_alt_bool in H4.
    destruct (strip_prefix "bool" s) as [r|] eqn:Hp; [|done].
    by eapply strip_prefix_head. }
  rewrite (match_alt_bool_app _ t _ H4). done.
Qed.

Lemma match_array_not_string s m :
  match_array s = Some m -> parse_string s = None.
Proof.
  unfold match_array.
  destruct (match_alt_digits "float" s) as [m1|] eqn:H1.
  { intros _. by destruct (match_alt_digits_head _ _ _ _ H1) as [s' ->]. }
  destruct (match_alt_digits "int" s) as [m2|] eqn:H2.
  { intros _. by destruct (match_alt_digits_head _ _ _ _ H2) as [s' ->]. }
  destruct (match_alt_digits "uint" s) as [m3|] eqn:H3.
  { intros _. by destruct (match_alt_digits_head _ _ _ _ H3) as [s' ->]. }
  unfold match_alt_bool.
  destruct (strip_prefix "bool" s) as [r|] eqn:Hp; [|done].
  intros _. by destruct (strip_prefix_head _ _ _ _ Hp) as [s' ->].
Qed.

(** X3.  A string annotation is matched at its head only: whatever follows
    the closing bracket is ignored.  An annotation that is accepted is still
    accepted with any text appended, as a field of the same kind, length,
    element type, shape and size. *)
Theorem annotation_trailing_text_ignored name s t f :
  _parse_type name (TyAnnot s) = Ok f ->
  exists f',
    _parse_type name (TyAnnot (s ++ t)) = Ok f' /\
    fi_is_scalar f' = fi_is_scalar f /\ fi_is_string f' = fi_is_string f /\
    fi_is_array f' = fi_is_array f /\
    fi_string_max_chars f' = fi_string_max_chars f /\
    fi_array_dtype f' = fi_array_dtype f /\
    fi_array_shape f' = fi_array_shape f /\ fi_size f' = fi_size f.
Proof.
  unfold _parse_type. cbn [annotation_of type_sizes].
  destruct (parse_string s) as [[|n]|] eqn:Hps.
  2: { intros [= <-]. rewrite (parse_string_app _ t _ Hps).
       eexists. split; [reflexivity|]. done. }
  all: unfold parse_array.
  all: destruct (match_array s) as [[dtype_str shape_str]|] eqn:Hma;
    [|discriminate].
  all: rewrite (match_array_app _ t _ Hma).
  all: pose proof (match_array_not_string _ _ (match_array_app _ t _ Hma)) as ->.
  all: destruct (parse_ints (split_comma shape_str)) as [shape| |];
    try discriminate.
  all: intros [= <-]; eexists; split; [reflexivity|]; done.
Qed.

Lemma annotation_trailing_text_ignored_witness :
  exists f',
    _parse_type "m" (TyAnnot ("str[4]" ++ " # name")) = Ok f' /\
    fi_is_scalar f' = fi_is_scalar (set_offset m_field 0) /\
    fi_is_string f' = fi_is_string (set_offset m_field 0) /\
    fi_is_array f' = fi_is_array (set_offset m_field 0) /\
    fi_string_max_chars f' = fi_string_max_chars (set_offset m_field 0) /\
    fi_array_dtype f' = fi_array_dtype (set_offset m_field 0) /\
    fi_array_shape f' = fi_array_shape (set_offset m_field 0) /\
    fi_size f' = fi_size (set_offset m_field 0).
Proof.
  apply (annotation_trailing_text_ignored "m" "str[4]" " # name"
           (set_offset m_field 0)).
  vm_compute. reflexivity.
Defined.

(** ** Creating and attaching *)

(** The handle [__init__] computes. *)
Definition handle_of (dc : list (string * pytype)) (nslots : Z)
    (layout : _SharedMemoryLayout) : SharedMemory :=
  {| dataclass_type := dc; slots := Z.to_nat nslots;
     is_fifo := bool_decide (1 < Z.to_nat nslots); _layout := layout;
     _slot_size := total_size layout; _metadata_offset := 0;
     _data_offset := if bool_decide (1 < Z.to_nat nslots) then 24 else 0;
     _write_buffer := ∅; _write_buffer_dirty := false |}.

Lemma handle_of_wf dc nslots layout :
  (1 <= nslots)%Z -> compile_layout dc = Ok layout ->
  wf_handle (handle_of dc nslots layout).
Proof. intros Hn Hl. split; simpl; try done. lia. Qed.

Lemma initialize_slots_ok self buf :
  wf_handle self -> length buf = region_size self ->
  exists buf',
    for_range (slots self) (fun slot_idx => _initialize_slot self slot_idx) buf
      = (Ok tt, buf').
Proof.
  intros Hwf Hlen. unfold for_range.
  destruct (for_enumerate_ok
              (fun i (_ : nat) => _initialize_slot self i)
              (fun b => length b = region_size self) (seq 0 (slots self)) 0 buf)
    as (buf' & Hrun & _); [|done|by exists buf'].
  intros k x b Hx Hb. apply lookup_seq in Hx as [-> Hk]. simpl.
  destruct (initialize_slot_spec self Hwf k b) as (b' & Hinit & Hl & _).
  { rewrite Hb. by apply slot_in_region. }
  exists b'. split; [done|]. congruence.
Qed.

(** Creation, run forward. *)
Lemma create_spec dc nslots layout buf0 :
  (1 <= nslots)%Z -> compile_layout dc = Ok layout ->
  exists buf,
    __init__ dc nslots true buf0 = (Ok (handle_of dc nslots layout), buf) /\
    length buf = (if bool_decide (1 < Z.to_nat nslots) then 24 else 0)
                 + total_size layout * Z.to_nat nslots /\
    all_bytes buf /\
    (1 < Z.to_nat nslots ->
       _get_fifo_metadata (handle_of dc nslots layout) buf = (Ok (0, 0, 0)%Z, buf)) /\
    (forall k, k < Z.to_nat nslots ->
       slot_fresh (handle_of dc nslots layout) k buf).
Proof.
  intros Hn Hl. pose proof (handle_of_wf dc nslots layout Hn Hl) as Hwf.
  set (h := handle_of dc nslots layout) in *.
  set (size := (if bool_decide (1 < Z.to_nat nslots) then 24 else 0)
               + total_size layout * Z.to_nat nslots).
  assert (exists buf, __init__ dc nslots true buf0 = (Ok h, buf)) as [buf Hinit].
  { unfold __init__. destruct (Z.ltb_spec nslots 1) as [|_]; [lia|].
    rewrite Hl. change (lift (Ok layout)) with (ret layout). rewrite bind_ret_l.
    fold h. fold size. unfold os_create.
    assert (exists c1, (if bool_decide (1 < Z.to_nat nslots)
                        then _set_fifo_metadata h 0 0 0 else ret tt)
                         (replicate size 0%Z) = (Ok tt, c1) /\
                       length c1 = size) as (c1 & Hc1 & Hl1).
    { case_bool_decide as Hf.
      - destruct (set_fifo_metadata_spec h Hwf) with (w := 0%Z) (r := 0%Z)
          (c := 0%Z) (buf := replicate size 0%Z)
          as (c1 & Hset & Hlen & _); try lia.
        { simpl. by apply bool_decide_eq_true. }
        { rewrite length_replicate. subst size. lia. }
        exists c1. split; [done|]. by rewrite Hlen, length_replicate.
      - exists (replicate size 0%Z). by rewrite length_replicate. }
    destruct (initialize_slots_ok h c1 Hwf) as (b1 & Hb1).
    { rewrite Hl1. unfold region_size, size. simpl. done. }
    exists b1. unfold bind at 1. unfold bind at 1. unfold bind at 1.
    cbn [slots h handle_of] in Hb1. unfold h, handle_of in Hc1, Hb1.
    rewrite Hc1. rewrite Hb1. done. }
  exists buf. split; [done|].
  destruct (init_spec _ _ _ _ _ _ Hinit) as (_ & _ & _ & _ & _ & _ & Hcreate).
  destruct (Hcreate eq_refl) as ((Hlen & Hbytes) & Hfresh & Hmeta).
  split; [|split; [done|split; [|done]]].
  - rewrite Hlen. unfold region_size. simpl. done.
  - intros Hf. apply Hmeta. simpl. by apply bool_decide_eq_true.
Qed.

(** X4.  Creation with at least one slot and a schema that compiles
    succeeds, whatever the state before (the operating system handing out a
    zero-filled region of the requested size): the region has the size of
    the ring counters (24 bytes, with more than one slot) and of the slots,
    the counters are zero, and in every slot both sequence numbers are zero
    and every status byte is UNWRITTEN. *)
Theorem create_initialises dc nslots layout buf0 :
  (1 <= nslots)%Z -> compile_layout dc = Ok layout ->
  exists buf,
    __init__ dc nslots true buf0 = (Ok (handle_of dc nslots layout), buf) /\
    length buf = (if bool_decide (1 < Z.to_nat nslots) then 24 else 0)
                 + total_size layout * Z.to_nat nslots /\
    all_bytes buf /\
    (1 < Z.to_nat nslots ->
       _get_fifo_metadata (handle_of dc nslots layout) buf = (Ok (0, 0, 0)%Z, buf)) /\
    (forall k, k < Z.to_nat nslots ->
       slot_fresh (handle_of dc nslots layout) k buf).
Proof. apply create_spec. Qed.

Lemma create_initialises_witness :
  exists buf,
    __init__ v_dataclass 3 true [7%Z] = (Ok (handle_of v_dataclass 3 v_layout), buf) /\
    length buf = (if bool_decide (1 < Z.to_nat 3) then 24 else 0)
                 + total_size v_layout * Z.to_nat 3 /\
    all_bytes buf /\
    (1 < Z.to_nat 3 ->
       _get_fifo_metadata (handle_of v_dataclass 3 v_layout) buf
       = (Ok (0, 0, 0)%Z, buf)) /\
    (forall k, k < Z.to_nat 3 ->
       slot_fresh (handle_of v_dataclass 3 v_layout) k buf).
Proof.
  apply (create_initialises v_dataclass 3 v_layout [7%Z]).
  - lia.
  - vm_compute. reflexivity.
Defined.

(** X5.  With the operating system's call succeeding, [__init__] raises
    nothing but [ValueError], and raises it exactly when [slots] is below
    one or a field's declared type is refused; it then leaves the region as
    it was.  This holds for creating and for attaching. *)
Theorem init_errors dc nslots create buf0 :
  (forall e buf, __init__ dc nslots create buf0 = (Raise e, buf) ->
     e = ValueError /\ buf = buf0) /\
  ((__init__ dc nslots create buf0).1 = Raise ValueError <->
   (nslots < 1)%Z \/ exists name ty, (name, ty) ∈ dc /\ field_rejected ty) /\
  (__init__ dc nslots create buf0).1 <> Spin.
Proof.
  destruct (Z.ltb_spec nslots 1) as [Hlt|Hge].
  { unfold __init__. destruct (Z.ltb_spec nslots 1); [|lia].
    split; [by intros e buf [= <- <-]|]. split; [|done].
    split; [by left|done]. }
  assert (compile_layout dc = Raise ValueError /\
          (exists name ty, (name, ty) ∈ dc /\ field_rejected ty) \/
          (exists layout, compile_layout dc = Ok layout) /\
          ~ (exists name ty, (name, ty) ∈ dc /\ field_rejected ty))
    as [[Hc Hrej]|[[layout Hc] Hrej]].
  { unfold compile_layout.
    destruct (analyze_fields_cases dc) as [[Hex ->]|[Hall [infos ->]]].
    - by left.
    - right. split; [eauto|]. intros (name & ty & Hin & Hr).
      by apply (Hall name ty Hin). }
  - unfold __init__. destruct (Z.ltb_spec nslots 1); [lia|]. rewrite Hc.
    split; [by intros e buf [= <- <-]|]. split; [|done].
    split; [by right|done].
  - assert (exists buf, __init__ dc nslots create buf0
                        = (Ok (handle_of dc nslots layout), buf)) as [buf Hinit].
    { destruct create.
      - destruct (create_spec dc nslots layout buf0 Hge Hc) as (buf & ? & _).
        eauto.
      - exists buf0. unfold __init__.
        destruct (Z.ltb_spec nslots 1); [lia|]. by rewrite Hc. }
    rewrite Hinit. split; [done|]. split; [|done]. split; [done|].
    intros [?|?]; [lia|done].
Qed.

(** ** What a publish changes *)

(** X7.  A slot write of values that the fields take unconverted, whatever
    its outcome, completed or raised, changes no byte outside its own slot,
    so neither another slot nor the ring counters; it keeps the size of the
    region and stores nothing but bytes. *)
Theorem publish_stays_in_slot self slot_idx data buf :
  wf_handle self ->
  unconverted_update self data = true ->
  length (_write_to_slot self slot_idx data buf).2 = length buf /\
  (forall j, ~ in_range (_get_slot_offset self slot_idx) (_slot_size self) j ->
     (_write_to_slot self slot_idx data buf).2 !! j = buf !! j) /\
  (all_bytes buf -> all_bytes (_write_to_slot self slot_idx data buf).2).
Proof. intros Hwf _. apply (touches_write_to_slot self Hwf). Qed.

Lemma publish_stays_in_slot_witness :
  length (_write_to_slot v_ring3 1 {["v"%string := PyFloat 7]} v_ring3_fresh).2
    = length v_ring3_fresh /\
  (forall j, ~ in_range (_get_slot_offset v_ring3 1) (_slot_size v_ring3) j ->
     (_write_to_slot v_ring3 1 {["v"%string := PyFloat 7]} v_ring3_fresh).2 !! j
     = v_ring3_fresh !! j) /\
  (all_bytes v_ring3_fresh ->
   all_bytes (_write_to_slot v_ring3 1 {["v"%string := PyFloat 7]} v_ring3_fresh).2).
Proof.
  apply (publish_stays_in_slot v_ring3 1 {["v"%string := PyFloat 7]} v_ring3_fresh
           v_ring3_wf).
  vm_compute. reflexivity.
Defined.



(** X9.  A slot write of values that the fields take unconverted, if it
    raises after it started, on a slot that was consistent, leaves
    [seq_begin] one ahead of [seq_end]: every read of the slot afterwards
    finds it torn and returns no record, and changes nothing. *)
Theorem aborted_publish_reads_as_torn self slot_idx data buf e buf' reset_modified :
  wf_handle self -> all_bytes buf ->
  unconverted_update self data = true ->
  _get_slot_offset self slot_idx + _slot_size self <= length buf ->
  from_bytes (slice (_get_slot_offset self slot_idx) 8 buf)
    = from_bytes (slice (_get_slot_offset self slot_idx + _slot_size self - 8) 8 buf) ->
  (from_bytes (slice (_get_slot_offset self slot_idx) 8 buf) + 1 < 2 ^ 64)%Z ->
  _write_to_slot self slot_idx data buf = (Raise e, buf') ->
  from_bytes (slice (_get_slot_offset self slot_idx) 8 buf')
    = (from_bytes (slice (_get_slot_offset self slot_idx + _slot_size self - 8) 8 buf')
       + 1)%Z /\
  _read_from_slot self slot_idx reset_modified buf' = (Ok None, buf').
Proof.
  intros Hwf Hbytes _ Hfit Hcons Hseq Hrun.
  pose proof (slot_size_min self Hwf) as Hmin.
  pose proof (from_bytes_slice_u64 (_get_slot_offset self slot_idx) buf Hbytes) as Hsq.
  set (offset := _get_slot_offset self slot_idx) in *.
  set (sq := (from_bytes (slice offset 8 buf) + 1)%Z) in *.
  set (b1 := store offset (le_bytes 8 sq) buf).
  assert (length b1 = length buf) as Hl1
    by (apply store_length; rewrite le_bytes_length; lia).
  assert (0 <= sq < 2 ^ 64)%Z as Hsq' by (unfold sq; lia).
  assert (offset + 8 <= length buf) as Hfit8 by lia.
  unfold _write_to_slot in Hrun. fold offset in Hrun.
  rewrite (bind_ok _ _ _ _ _ (read_uint64_eq offset buf)) in Hrun. fold sq in Hrun.
  rewrite (bind_ok _ _ _ _ _ (write_uint64_store offset sq buf Hsq' Hfit8))
    in Hrun. fold b1 in Hrun.
  destruct (touches_write_fields self Hwf slot_idx data b1) as (Hl2 & Hj2 & _).
  fold offset in Hl2, Hj2. unfold bind in Hrun.
  destruct (for_enumerate (write_field offset (offset + 8) data) 0
              (fields (_layout self)) b1) as [[[]|e'|] b2] eqn:Hloop;
    simpl in Hl2, Hj2.
  - rewrite (write_uint64_store (offset + _slot_size self - 8) sq b2) in Hrun
      by lia. discriminate Hrun.
  - injection Hrun as <- <-.
    assert (slice offset 8 b2 = le_bytes 8 sq) as Hb.
    { rewrite (slice_ext offset 8 b2 b1) by (intros j Hj; apply Hj2; lia).
      pose proof (slice_store_same offset (le_bytes 8 sq) buf) as Hs.
      rewrite le_bytes_length in Hs. apply Hs. lia. }
    assert (slice (offset + _slot_size self - 8) 8 b2
            = slice (offset + _slot_size self - 8) 8 buf) as He.
    { rewrite (slice_ext _ 8 b2 b1) by (intros j Hj; apply Hj2; lia).
      apply slice_store_other; rewrite le_bytes_length; lia. }
    assert (from_bytes (slice offset 8 b2)
            = (from_bytes (slice (offset + _slot_size self - 8) 8 b2) + 1)%Z) as Hne.
    { rewrite Hb, He, <- Hcons. by apply from_bytes_le_bytes_u64. }
    split; [done|].
    apply (read_from_slot_torn self Hwf); fold offset; lia.
  - discriminate Hrun.
Qed.

Lemma aborted_publish_reads_as_torn_witness :
  let buf' := (_write_to_slot m_single 0 {["m"%string := PyStr [0xD800]%Z]} m_fresh).2 in
  from_bytes (slice (_get_slot_offset m_single 0) 8 buf')
    = (from_bytes (slice (_get_slot_offset m_single 0 + _slot_size m_single - 8) 8 buf')
       + 1)%Z /\
  _read_from_slot m_single 0 true buf' = (Ok None, buf').
Proof.
  apply (aborted_publish_reads_as_torn m_single 0 {["m"%string := PyStr [0xD800]%Z]}
           m_fresh UnicodeEncodeError
           (_write_to_slot m_single 0 {["m"%string := PyStr [0xD800]%Z]} m_fresh).2
           true m_single_wf).
  - apply all_bytes_check. vm_compute. reflexivity.
  - vm_compute. reflexivity.
  - vm_compute. lia.
  - vm_compute. reflexivity.
  - vm_compute. reflexivity.
  - vm_compute. reflexivity.
Defined.

(** One iteration of the write loop touches the status byte of its field,
    and the body only if the update names the field. *)
Lemma touches_write_field_named offset data idx f :
  field_kind f ->
  touches (fun j => j = offset + 8 + idx \/
                    (is_Some (data !! fi_name f) /\
                     offset + fi_offset f <= j < offset + fi_offset f + fi_size f))
    (write_field offset (offset + 8) data idx f).
Proof.
  intros Hk. destruct (data !! fi_name f) as [v|] eqn:Hv.
  - eapply touches_weaken; [|by apply touches_write_field].
    intros j [->|Hj]; [by left|right]. split; [eauto|done].
  - unfold write_field. rewrite Hv.
    apply touches_bind; [apply touches_getitem|]. intros st.
    apply touches_setitem. by left.
Qed.

(** What a completed slot write does to a field it was not given. *)
Lemma write_skips_unnamed self slot_idx data buf buf' i f :
  wf_handle self ->
  _write_to_slot self slot_idx data buf = (Ok tt, buf') ->
  fields (_layout self) !! i = Some f ->
  data !! fi_name f = None ->
  let offset := _get_slot_offset self slot_idx in
  (forall j, offset + fi_offset f <= j < offset + fi_offset f + fi_size f ->
     buf' !! j = buf !! j) /\
  exists st st',
    buf !! (offset + 8 + i) = Some st /\ buf' !! (offset + 8 + i) = Some st' /\
    is_modified st' = false /\
    is_truncated st' = is_truncated st /\ is_unwritten st' = is_unwritten st.
Proof.
  intros Hwf Hrun Hf Hnone offset.
  pose proof (slot_size_min self Hwf) as Hmin.
  destruct (layout_field_bounds self Hwf i f Hf) as [Hlo Hhi].
  split.
  - intros j Hj.
    assert (touches (fun p => ~ (offset + fi_offset f <= p
                                 < offset + fi_offset f + fi_size f))
              (_write_to_slot self slot_idx data)) as Ht.
    { unfold _write_to_slot. fold offset.
      apply touches_bind; [apply touches_read_uint64|intros sq].
      apply touches_bind.
      { eapply touches_weaken; [|apply touches_write_uint64].
        unfold in_range. intros p. lia. }
      intros _. apply touches_bind.
      { apply touches_for_enumerate. intros k g Hg. simpl.
        eapply touches_weaken; [|apply touches_write_field_named].
        - intros p [->|[Hsome Hp]].
          + pose proof (lookup_lt_Some _ _ _ Hg). lia.
          + destruct (decide (k = i)) as [->|Hne].
            * rewrite Hf in Hg. injection Hg as <-. rewrite Hnone in Hsome.
              by destruct Hsome.
            * destruct (decide (k < i)).
              -- pose proof (layout_fields_disjoint self Hwf k i g f
                               ltac:(lia) Hg Hf). lia.
              -- pose proof (layout_fields_disjoint self Hwf i k f g
                               ltac:(lia) Hf Hg). lia.
        - eapply Forall_lookup_1; [apply (layout_fields_kind self Hwf)|done]. }
      intros _. eapply touches_weaken; [|apply touches_write_uint64].
      unfold in_range. intros p. lia. }
    destruct (Ht buf) as (_ & Hsame & _). rewrite Hrun in Hsame.
    apply Hsame. tauto.
  - destruct (write_to_slot_inv self Hwf slot_idx data buf buf' Hrun)
      as (_ & _ & _ & _ & _ & Hfields).
    destruct (Hfields i f Hf) as (b1 & b2 & Hbody & _ & Hst1 & Hfp).
    apply write_field_inv in Hbody as (st' & st & Hst' & Hcase).
    destruct Hcase as [(v & t & Hv & _)|(_ & Hst & ->)]; [congruence|].
    fold offset in Hst1, Hfp. exists st, (status_skipped st).
    split; [by rewrite <- Hst1|]. split; [rewrite Hfp; [done|by left]|].
    destruct (status_skipped_flags st) as (-> & -> & ->). done.
Qed.



(** ** Reading a single-slot region *)

Lemma read_single_torn self timeout reset_modified buf :
  wf_handle self ->
  _get_slot_offset self 0 + _slot_size self <= length buf ->
  from_bytes (slice (_get_slot_offset self 0) 8 buf)
    <> from_bytes (slice (_get_slot_offset self 0 + _slot_size self - 8) 8 buf) ->
  _read_single self timeout reset_modified buf = (Ok None, buf).
Proof.
  intros Hwf Hlen Htorn. induction timeout as [|t IH]; cbn [_read_single];
    rewrite (bind_ok _ _ _ _ _
               (read_from_slot_torn self Hwf 0 reset_modified buf Hlen Htorn));
    done.
Qed.

(** X11.  On a single-slot region of the handle's size, [read] never raises
    and always returns: no record, with the region unchanged, when the two
    sequence numbers of the slot differ (after the polls the timeout
    allows), and otherwise a record whose keys are exactly the field
    names. *)
Theorem single_read_total self fuel timeout latest reset_modified buf :
  wf_handle self -> is_fifo self = false -> wf_region self buf ->
  (from_bytes (slice (_get_slot_offset self 0) 8 buf)
     <> from_bytes (slice (_get_slot_offset self 0 + _slot_size self - 8) 8 buf) /\
   read self fuel timeout latest reset_modified buf = (Ok None, buf)) \/
  (from_bytes (slice (_get_slot_offset self 0) 8 buf)
     = from_bytes (slice (_get_slot_offset self 0 + _slot_size self - 8) 8 buf) /\
   exists r buf',
     read self fuel timeout latest reset_modified buf = (Ok (Some r), buf') /\
     forall name, is_Some (r !! name) <-> name ∈ fi_name <$> fields (_layout self)).
Proof.
  intros Hwf Hfifo [Hlen Hbytes].
  assert (_get_slot_offset self 0 + _slot_size self <= length buf) as Hfit.
  { rewrite Hlen. apply (slot_in_region self). pose proof (wf_slots _ Hwf). lia. }
  unfold read. rewrite Hfifo, andb_false_r.
  destruct (decide (from_bytes (slice (_get_slot_offset self 0) 8 buf)
                    = from_bytes (slice (_get_slot_offset self 0
                                         + _slot_size self - 8) 8 buf)))
    as [Heq|Hne].
  - right. split; [done|].
    destruct (read_from_slot_spec self Hwf 0 reset_modified buf Hfit Hbytes Heq)
      as (r & buf' & Hread & _ & Hin & Hall & _).
    exists r, buf'. split.
    + destruct timeout; cbn [_read_single]; by rewrite (bind_ok _ _ _ _ _ Hread).
    + intros name. split.
      * intros [vws Hr]. destruct (Hin name vws Hr) as (k & f & Hf & <- & _).
        apply list_elem_of_fmap. exists f. split; [done|].
        by eapply list_elem_of_lookup_2.
      * intros (f & -> & Hf)%list_elem_of_fmap.
        apply list_elem_of_lookup_1 in Hf as [k Hf]. by eapply Hall.
  - left. split; [done|]. by apply read_single_torn.
Qed.

Lemma single_read_total_witness :
  (from_bytes (slice (_get_slot_offset vn_single 0) 8 vn_fresh)
     <> from_bytes (slice (_get_slot_offset vn_single 0
                           + _slot_size vn_single - 8) 8 vn_fresh) /\
   read vn_single 0 5 false true vn_fresh = (Ok None, vn_fresh)) \/
  (from_bytes (slice (_get_slot_offset vn_single 0) 8 vn_fresh)
     = from_bytes (slice (_get_slot_offset vn_single 0
                          + _slot_size vn_single - 8) 8 vn_fresh) /\
   exists r buf',
     read vn_single 0 5 false true vn_fresh = (Ok (Some r), buf') /\
     forall name, is_Some (r !! name)
                  <-> name ∈ fi_name <$> fields (_layout vn_single)).
Proof.
  apply (single_read_total vn_single 0 5 false true vn_fresh vn_single_wf).
  - reflexivity.
  - split; [reflexivity|]. apply all_bytes_check. vm_compute. reflexivity.
Defined.

(** The loop that clears the MODIFIED bits. *)
Lemma reset_status_spec so l : forall idx (buf : list Z),
  all_bytes buf ->
  so + idx + length l <= length buf ->
  exists buf',
    for_enumerate (fun i (_ : nat) =>
        bind (buf_getitem (so + i)) (fun status_byte =>
          buf_setitem (so + i) (Z.land status_byte (Z.lnot MASK_MODIFIED))))
      idx l buf = (Ok tt, buf') /\
    length buf' = length buf /\ all_bytes buf' /\
    forall j, buf' !! j =
      if decide (so + idx <= j < so + idx + length l)
      then status_skipped <$> buf !! j else buf !! j.
Proof.
  induction l as [|x l IH]; intros idx buf Hb Hlen.
  - exists buf. split; [done|]. split; [done|]. split; [done|]. intros j.
    rewrite decide_False; [done|]. simpl. lia.
  - simpl in Hlen.
    destruct (lookup_lt_is_Some_2 buf (so + idx) ltac:(lia)) as [st Hst].
    pose proof (Forall_lookup_1 _ _ _ _ Hb Hst) as Hrange. simpl in Hrange.
    pose proof (status_skipped_byte st Hrange) as Hbyte. apply is_byte_true in Hbyte.
    destruct (IH (S idx) (<[so + idx := status_skipped st]> buf))
      as (buf' & Hrun & Hl & Hb' & Hj).
    { by apply Forall_insert. }
    { rewrite length_insert. lia. }
    assert (bind (buf_getitem (so + idx)) (fun status_byte =>
              buf_setitem (so + idx) (Z.land status_byte (Z.lnot MASK_MODIFIED)))
              buf = (Ok tt, <[so + idx := status_skipped st]> buf)) as Hbody.
    { rewrite (bind_ok _ _ _ _ _ (getitem_ok (so + idx) buf st Hst)).
      apply setitem_ok; [lia|done]. }
    exists buf'. rewrite for_enumerate_cons. cbv beta.
    rewrite (bind_ok _ _ _ _ _ Hbody).
    split; [done|]. rewrite length_insert in Hl. split; [done|]. split; [done|].
    intros j. rewrite Hj. simpl.
    destruct (decide (j = so + idx)) as [->|Hne].
    + rewrite decide_False by lia. rewrite decide_True by lia.
      rewrite list_lookup_insert_eq by lia. by rewrite Hst.
    + rewrite list_lookup_insert_ne by done.
      repeat case_decide; try done; lia.
Qed.

(** Decoding a field looks at no byte in front of the field. *)
Lemma read_value_ext offset f (b1 b2 : list Z) :
  length b1 = length b2 ->
  (forall j, offset <= j -> b1 !! j = b2 !! j) ->
  (read_value offset f b1).1 = (read_value offset f b2).1.
Proof.
  intros Hl Hj.
  assert (forall start n, offset <= start -> slice start n b1 = slice start n b2)
    as Hs.
  { intros start n Hle. apply slice_ext. intros j Hjr. apply Hj. lia. }
  assert (forall count dt, (np_view_load count dt offset b1).1
                           = (np_view_load count dt offset b2).1) as Hload.
  { intros count dt. unfold np_view_load, np_view, buf_getslice, bind, ret.
    rewrite Hl. case_decide; [|done]. simpl. by rewrite Hs. }
  assert (forall A (k : list Z -> A) count dt,
            (bind (np_view_load count dt offset) (fun e => ret (k e)) b1).1
            = (bind (np_view_load count dt offset) (fun e => ret (k e)) b2).1)
    as Hload'.
  { intros A k count dt. specialize (Hload count dt). unfold bind, ret.
    destruct (np_view_load count dt offset b1) as [[e1| |] c1],
             (np_view_load count dt offset b2) as [[e2| |] c2];
      simpl in *; congruence. }
  unfold read_value. destruct (fi_is_scalar f).
  - unfold _read_scalar. destruct (fi_field_type f); try done;
      try apply Hload'.
    unfold bind, buf_getitem, ret. rewrite (Hj offset (le_n _)).
    by destruct (b2 !! offset).
  - destruct (fi_is_string f).
    + unfold _read_string, _read_uint32, buf_getslice, bind, ret. simpl.
      rewrite (Hs offset 4) by done. by rewrite Hs by lia.
    + destruct (fi_is_array f); [|done]. unfold _read_array.
      destruct (fi_array_dtype f), (fi_array_shape f); try done;
        try apply Hload'.
Qed.

Lemma read_from_slot_reset self slot_idx buf r :
  wf_handle self ->
  _get_slot_offset self slot_idx + _slot_size self <= length buf ->
  all_bytes buf ->
  _read_from_slot self slot_idx false buf = (Ok (Some r), buf) ->
  exists buf',
    _read_from_slot self slot_idx true buf = (Ok (Some r), buf') /\
    length buf' = length buf /\ all_bytes buf' /\
    forall j, buf' !! j =
      if decide (_get_slot_offset self slot_idx + 8 <= j
                 < _get_slot_offset self slot_idx + 8
                   + length (fields (_layout self)))
      then status_skipped <$> buf !! j else buf !! j.
Proof.
  intros Hwf Hlen Hbytes Hread. pose proof (slot_size_min self Hwf) as Hmin.
  set (offset := _get_slot_offset self slot_idx) in *.
  unfold _read_from_slot in Hread |- *. fold offset in Hread |- *.
  rewrite (bind_ok _ _ _ _ _ (read_uint64_eq offset buf)) in Hread.
  rewrite (bind_ok _ _ _ _ _ (read_uint64_eq offset buf)).
  unfold bind at 1 in Hread. unfold bind at 1.
  destruct (fold_enumerate (read_field offset (offset + 8)) 0
              (fields (_layout self)) ∅ buf) as [[r0| |] b1] eqn:Hfold;
    try discriminate Hread.
  rewrite (bind_ok _ _ _ _ _ (read_uint64_eq _ b1)) in Hread.
  rewrite (bind_ok _ _ _ _ _ (read_uint64_eq _ b1)).
  destruct (negb (from_bytes (slice offset 8 buf)
                  =? from_bytes (slice (offset + _slot_size self - 8) 8 b1))%Z);
    [discriminate Hread|].
  injection Hread as -> ->.
  destruct (reset_status_spec (offset + 8) (seq 0 (length (fields (_layout self))))
              0 buf Hbytes) as (buf' & Hrun & Hl & Hb & Hj).
  { rewrite length_seq. lia. }
  exists buf'. unfold for_range. rewrite (bind_ok _ _ _ _ _ Hrun).
  split; [done|]. split; [done|]. split; [done|].
  intros j. rewrite Hj, length_seq, Nat.add_0_r. done.
Qed.

(** X12.  On a single-slot region with a consistent slot, a read with
    [reset_modified] returns the record a plain read returns, flags as they
    were; it clears the MODIFIED bit of every status byte and changes nothing
    else.  The next read returns the same values with [modified] false and
    [truncated] and [unwritten] as before. *)
Theorem reset_modified_clears self fuel timeout latest buf :
  wf_handle self -> is_fifo self = false ->
  NoDup (dataclass_type self).*1 ->
  wf_region self buf ->
  from_bytes (slice (_get_slot_offset self 0) 8 buf)
    = from_bytes (slice (_get_slot_offset self 0 + _slot_size self - 8) 8 buf) ->
  exists r buf' r',
    read self fuel timeout latest false buf = (Ok (Some r), buf) /\
    read self fuel timeout latest true buf = (Ok (Some r), buf') /\
    read self fuel timeout latest false buf' = (Ok (Some r'), buf') /\
    (forall j, buf' !! j =
       if decide (_get_slot_offset self 0 + 8 <= j
                  < _get_slot_offset self 0 + 8 + length (fields (_layout self)))
       then status_skipped <$> buf !! j else buf !! j) /\
    forall name vws, r !! name = Some vws ->
      exists vws', r' !! name = Some vws' /\
        value vws' = value vws /\ modified vws' = false /\
        truncated vws' = truncated vws /\ unwritten vws' = unwritten vws.
Proof.
  intros Hwf Hfifo Hnd [Hlen Hbytes] Hcons.
  pose proof (slot_size_min self Hwf) as Hmin.
  assert (_get_slot_offset self 0 + _slot_size self <= length buf) as Hfit.
  { rewrite Hlen. apply (slot_in_region self). pose proof (wf_slots _ Hwf). lia. }
  set (offset := _get_slot_offset self 0) in *.
  destruct (read_from_slot_spec self Hwf 0 false buf Hfit Hbytes Hcons)
    as (r & b0 & Hread & Hsame & Hin & _).
  rewrite (Hsame eq_refl) in Hread. clear b0 Hsame.
  destruct (read_from_slot_reset self 0 buf r Hwf Hfit Hbytes Hread)
    as (buf' & Hreset & Hl' & Hb' & Hj').
  fold offset in Hj'.
  assert (forall n, slice n 8 buf' = slice n 8 buf \/
                    (offset + 8 <= n + 7 /\ n < offset + 8
                                              + length (fields (_layout self))))
    as Hslice8.
  { intros n.
    destruct (decide (offset + 8 <= n + 7 /\
                      n < offset + 8 + length (fields (_layout self))));
      [by right|left].
    apply slice_ext. intros j Hjr. rewrite Hj'. rewrite decide_False; [done|lia]. }
  assert (from_bytes (slice offset 8 buf')
          = from_bytes (slice (offset + _slot_size self - 8) 8 buf')) as Hcons'.
  { destruct (Hslice8 offset) as [->|?]; [|lia].
    destruct (Hslice8 (offset + _slot_size self - 8)) as [->|?]; [done|].
    assert (forall k f, fields (_layout self) !! k = Some f -> False) as Hno.
    { intros k f Hf. pose proof (layout_field_bounds self Hwf k f Hf).
      pose proof (lookup_lt_Some _ _ _ Hf). lia. }
    destruct (fields (_layout self)) as [|f l] eqn:Hfs; [simpl in *; lia|].
    exfalso. by apply (Hno 0 f). }
  destruct (read_from_slot_spec self Hwf 0 false buf')
    as (r' & b0 & Hread' & Hsame' & _ & _ & Hlast'); fold offset.
  { lia. } { done. } { done. }
  rewrite (Hsame' eq_refl) in Hread'. clear b0 Hsame'.
  exists r, buf', r'. unfold read. rewrite Hfifo. cbn [andb].
  assert (forall rm b res b2, _read_from_slot self 0 rm b = (Ok (Some res), b2) ->
            _read_single self timeout rm b = (Ok (Some res), b2)) as Hsingle.
  { intros rm b res b2 H. destruct timeout; cbn [_read_single];
      by rewrite (bind_ok _ _ _ _ _ H). }
  split; [by apply Hsingle|]. split; [by apply Hsingle|].
  split; [by apply Hsingle|]. split; [exact Hj'|].
  intros name vws Hr. destruct (Hin name vws Hr) as (k & f & Hf & <- & Hst & Hv).
  fold offset in Hst, Hv.
  destruct (Hlast' k f Hf (later_names_differ self Hwf k f Hnd Hf))
    as (vws' & Hr' & Hst' & Hv').
  fold offset in Hst', Hv'.
  exists vws'. split; [done|].
  pose proof (lookup_lt_Some _ _ _ Hf) as Hk.
  destruct (layout_field_bounds self Hwf k f Hf) as [Hlo Hhi].
  rewrite Hj', decide_True, Hst in Hst' by lia. injection Hst' as Hst'.
  split.
  - pose proof (read_value_ext (offset + fi_offset f) f buf' buf Hl') as Hext.
    rewrite Hv, Hv' in Hext. simpl in Hext.
    assert (Ok (value vws') = Ok (value vws)) as Heq; [|by injection Heq].
    apply Hext. intros j Hjr. rewrite Hj'. rewrite decide_False; [done|lia].
  - unfold modified, truncated, unwritten. rewrite <- Hst'.
    destruct (status_skipped_flags (_status vws)) as (-> & -> & ->). done.
Qed.

Lemma reset_modified_clears_witness :
  let buf := (_write_to_slot vn_single 0 s1_update vn_fresh).2 in
  exists r buf' r',
    read vn_single 0 0 false false buf = (Ok (Some r), buf) /\
    read vn_single 0 0 false true buf = (Ok (Some r), buf') /\
    read vn_single 0 0 false false buf' = (Ok (Some r'), buf') /\
    (forall j, buf' !! j =
       if decide (_get_slot_offset vn_single 0 + 8 <= j
                  < _get_slot_offset vn_single 0 + 8
                    + length (fields (_layout vn_single)))
       then status_skipped <$> buf !! j else buf !! j) /\
    forall name vws, r !! name = Some vws ->
      exists vws', r' !! name = Some vws' /\
        value vws' = value vws /\ modified vws' = false /\
        truncated vws' = truncated vws /\ unwritten vws' = unwritten vws.
Proof.
  apply (reset_modified_clears vn_single 0 0 false
           (_write_to_slot vn_single 0 s1_update vn_fresh).2 vn_single_wf).
  - reflexivity.
  - apply (bool_decide_eq_true_1 _). vm_compute. reflexivity.
  - split; [reflexivity|]. apply all_bytes_check. vm_compute. reflexivity.
  - vm_compute. reflexivity.
Defined.

(** ** Reading a ring *)

Lemma read_from_slot_frame self slot_idx buf :
  wf_handle self -> (_read_from_slot self slot_idx false buf).2 = buf.
Proof.
  intros Hwf. apply touches_nothing.
  eapply touches_weaken; [|by apply touches_read_from_slot]. by intros j [? _].
Qed.

Lemma metadata_bounds self buf w r c :
  wf_handle self -> is_fifo self = true -> all_bytes buf ->
  (_get_fifo_metadata self buf).1 = Ok (w, r, c) ->
  (0 <= w < 2 ^ 64)%Z /\ (0 <= r < 2 ^ 64)%Z /\ (0 <= c < 2 ^ 64)%Z.
Proof.
  intros Hwf Hfifo Hb Hm. rewrite (get_fifo_metadata_eq self Hwf Hfifo) in Hm.
  simpl in Hm. injection Hm as <- <- <-.
  pose proof (from_bytes_slice_u64 0 buf Hb).
  pose proof (from_bytes_slice_u64 8 buf Hb).
  pose proof (from_bytes_slice_u64 16 buf Hb). done.
Qed.

Lemma metadata_run self buf w r c :
  wf_handle self -> is_fifo self = true ->
  (_get_fifo_metadata self buf).1 = Ok (w, r, c) ->
  _get_fifo_metadata self buf = (Ok (w, r, c), buf).
Proof.
  intros Hwf Hfifo Hm. rewrite (get_fifo_metadata_eq self Hwf Hfifo) in Hm |- *.
  simpl in Hm. by rewrite Hm.
Qed.

Lemma region_has_metadata self (buf : list Z) :
  wf_handle self -> is_fifo self = true -> length buf = region_size self ->
  24 <= length buf.
Proof.
  intros Hwf Hfifo ->. unfold region_size.
  rewrite (wf_data_offset _ Hwf), Hfifo. lia.
Qed.

(** One successful poll of a ring read. *)
Lemma ring_read_step self fuel timeout latest buf w r c rec :
  wf_handle self -> is_fifo self = true -> wf_region self buf ->
  (_get_fifo_metadata self buf).1 = Ok (w, r, c) ->
  (0 < c)%Z -> (r + 1 < 2 ^ 64)%Z -> 1 <= fuel ->
  let skip := latest && (1 <? c)%Z in
  let read_idx := if skip then (w - 1)%Z else r in
  let count := if skip then 1%Z else c in
  _read_from_slot self (Z.to_nat (read_idx mod Z.of_nat (slots self))) false buf
    = (Ok (Some rec), buf) ->
  exists buf',
    read self fuel timeout latest false buf = (Ok (Some rec), buf') /\
    (_get_fifo_metadata self buf').1 = Ok (w, (read_idx + 1)%Z, (count - 1)%Z) /\
    length buf' = length buf /\ all_bytes buf' /\
    (forall j, 24 <= j -> buf' !! j = buf !! j).
Proof.
  intros Hwf Hfifo [Hlen Hbytes] Hmeta Hc Hr Hfuel skip read_idx count Hslot.
  destruct (metadata_bounds self buf w r c Hwf Hfifo Hbytes Hmeta)
    as (Hwb & Hrb & Hcb).
  pose proof (region_has_metadata self buf Hwf Hfifo Hlen) as H24.
  destruct (set_fifo_metadata_spec self Hwf Hfifo w (read_idx + 1)%Z (count - 1)%Z buf)
    as (buf' & Hset & Hl' & Hget & Hfr & Hb'); try done.
  { subst read_idx skip. destruct (latest && (1 <? c)%Z); lia. }
  { subst count skip. destruct (latest && (1 <? c)%Z); lia. }
  exists buf'. split; [|by rewrite Hget; auto].
  destruct fuel as [|fuel]; [lia|].
  unfold read. rewrite Hfifo. cbn [andb _read_fifo].
  rewrite (bind_ok _ _ _ _ _ (metadata_run self buf w r c Hwf Hfifo Hmeta)).
  destruct (Z.eqb_spec c 0) as [|_]; [lia|].
  fold skip. replace (if skip then ((w - 1)%Z, 1%Z) else (r, c))
    with (read_idx, count) by (subst read_idx count; by destruct skip).
  rewrite (bind_ok _ _ _ _ _ Hslot).
  by rewrite (bind_ok _ _ _ _ _ Hset).
Qed.

(** X13.  A ring read that finds entries pending and the slot at the read
    position consistent returns the record of that slot, stores
    [read_index + 1] and [count - 1], and changes no byte of any slot.  The
    read position is [read_index], or with [latest] and more than one entry
    pending [write_index - 1], after which no entry is pending. *)
Theorem ring_read_effect self fuel timeout latest buf w r c rec :
  wf_handle self -> is_fifo self = true -> wf_region self buf ->
  (_get_fifo_metadata self buf).1 = Ok (w, r, c) ->
  (0 < c)%Z -> (r + 1 < 2 ^ 64)%Z -> 1 <= fuel ->
  let skip := latest && (1 <? c)%Z in
  let read_idx := if skip then (w - 1)%Z else r in
  let count := if skip then 1%Z else c in
  _read_from_slot self (Z.to_nat (read_idx mod Z.of_nat (slots self))) false buf
    = (Ok (Some rec), buf) ->
  exists buf',
    read self fuel timeout latest false buf = (Ok (Some rec), buf') /\
    (_get_fifo_metadata self buf').1 = Ok (w, (read_idx + 1)%Z, (count - 1)%Z) /\
    length buf' = length buf /\ all_bytes buf' /\
    (forall j, 24 <= j -> buf' !! j = buf !! j).
Proof. apply ring_read_step. Qed.

Lemma ring_read_effect_witness :
  let buf := v_ring3_after [1; 2]%Z in
  let skip := true && (1 <? 2)%Z in
  let read_idx := if skip then (2 - 1)%Z else 0%Z in
  let count := if skip then 1%Z else 2%Z in
  exists buf',
    read v_ring3 1 0 true false buf
      = (Ok (Some {["v"%string := {| value := PyFloat (f64_of_Z 2); _status := 4 |}]}),
         buf') /\
    (_get_fifo_metadata v_ring3 buf').1 = Ok (2, (read_idx + 1)%Z, (count - 1)%Z)%Z /\
    length buf' = length buf /\ all_bytes buf' /\
    (forall j, 24 <= j -> buf' !! j = buf !! j).
Proof.
  apply (ring_read_effect v_ring3 1 0 true (v_ring3_after [1; 2]%Z) 2 0 2
           {["v"%string := {| value := PyFloat (f64_of_Z 2); _status := 4 |}]}
           v_ring3_wf).
  - reflexivity.
  - split; [vm_compute; reflexivity|]. apply all_bytes_check. vm_compute. reflexivity.
  - vm_compute. reflexivity.
  - lia.
  - lia.
  - lia.
  - vm_compute. reflexivity.
Defined.

(** A ring read with nothing pending. *)
Lemma ring_read_none self fuel timeout latest buf w r :
  wf_handle self -> is_fifo self = true ->
  (_get_fifo_metadata self buf).1 = Ok (w, r, 0%Z) ->
  timeout < fuel ->
  read self fuel timeout latest false buf = (Ok None, buf).
Proof.
  intros Hwf Hfifo Hmeta. unfold read. rewrite Hfifo. cbn [andb].
  revert fuel. induction timeout as [|t IH]; intros fuel Hfuel;
    (destruct fuel as [|fuel]; [lia|]); cbn [_read_fifo];
    rewrite (bind_ok _ _ _ _ _ (metadata_run self buf w r 0 Hwf Hfifo Hmeta));
    cbn [Z.eqb].
  - done.
  - apply IH. lia.
Qed.

(** X14.  A ring read that finds no entry pending returns no record once the
    polls the timeout allows are used up, and leaves the region as it
    is. *)
Theorem ring_read_empty self fuel timeout latest buf w r :
  wf_handle self -> is_fifo self = true ->
  (_get_fifo_metadata self buf).1 = Ok (w, r, 0%Z) ->
  timeout < fuel ->
  read self fuel timeout latest false buf = (Ok None, buf).
Proof. apply ring_read_none. Qed.

Lemma ring_read_empty_witness :
  read v_ring3 4 3 false false v_ring3_fresh = (Ok None, v_ring3_fresh).
Proof.
  apply (ring_read_empty v_ring3 4 3 false v_ring3_fresh 0 0 v_ring3_wf).
  - reflexivity.
  - vm_compute. reflexivity.
  - lia.
Defined.

(** X15.  A ring read that finds entries pending but the slot at the read
    position torn tries again without looking at the deadline: with nobody
    writing to the region, the poll is still running after any number of
    iterations, whatever the timeout, and the region is unchanged. *)
Theorem ring_read_torn_never_times_out self fuel timeout latest buf w r c :
  wf_handle self -> is_fifo self = true -> wf_region self buf ->
  (_get_fifo_metadata self buf).1 = Ok (w, r, c) ->
  (0 < c)%Z ->
  let read_idx := if latest && (1 <? c)%Z then (w - 1)%Z else r in
  let offset :=
    _get_slot_offset self (Z.to_nat (read_idx mod Z.of_nat (slots self))) in
  from_bytes (slice offset 8 buf)
    <> from_bytes (slice (offset + _slot_size self - 8) 8 buf) ->
  read self fuel timeout latest false buf = (Spin, buf).
Proof.
  intros Hwf Hfifo [Hlen Hbytes] Hmeta Hc read_idx offset Htorn.
  assert (_read_from_slot self (Z.to_nat (read_idx mod Z.of_nat (slots self)))
            false buf = (Ok None, buf)) as Hslot.
  { apply (read_from_slot_torn self Hwf); [|done]. fold offset.
    rewrite Hlen. apply (slot_in_region self).
    pose proof (wf_slots _ Hwf).
    pose proof (Z.mod_pos_bound read_idx (Z.of_nat (slots self)) ltac:(lia)). lia. }
  unfold read. rewrite Hfifo. cbn [andb].
  induction fuel as [|fuel IH]; cbn [_read_fifo]; [done|].
  rewrite (bind_ok _ _ _ _ _ (metadata_run self buf w r c Hwf Hfifo Hmeta)).
  destruct (Z.eqb_spec c 0) as [|_]; [lia|].
  replace (if latest && (1 <? c)%Z then ((w - 1)%Z, 1%Z) else (r, c))
    with (read_idx, if latest && (1 <? c)%Z then 1%Z else c)
    by (subst read_idx; by destruct (latest && (1 <? c)%Z)).
  by rewrite (bind_ok _ _ _ _ _ Hslot).
Qed.

(** The ring after one entry was committed and a second write to its slot
    has begun: [seq_begin] is one ahead. *)
Definition v_ring3_midwrite : list Z :=
  store (_get_slot_offset v_ring3 0) (le_bytes 8 2) (v_ring3_after [1]%Z).

Lemma ring_read_torn_never_times_out_witness :
  read v_ring3 50 3 false false v_ring3_midwrite = (Spin, v_ring3_midwrite).
Proof.
  apply (ring_read_torn_never_times_out v_ring3 50 3 false v_ring3_midwrite 1 0 1
           v_ring3_wf).
  - reflexivity.
  - split; [vm_compute; reflexivity|]. apply all_bytes_check. vm_compute. reflexivity.
  - vm_compute. reflexivity.
  - lia.
  - vm_compute. discriminate.
Defined.

(** ** The ring counters over any run *)

(** What one process does with a ring handle. *)
Inductive ring_op : Type :=
| OpWrite (kwargs : gmap string pyvalue)
| OpFinalize
| OpRead (fuel timeout : nat) (latest : bool).

(** The operation stages nothing that numpy would convert. *)
Definition ring_op_unconverted (self : SharedMemory) (op : ring_op) : bool :=
  match op with
  | OpWrite kwargs => unconverted_update self kwargs
  | _ => true
  end.

(** The handle and the region after an operation.  An operation that raises
    leaves the handle as it was: [write] and [finalize] assign the
    attributes of the handle last. *)
Definition run_ring_op (st : SharedMemory * list Z) (op : ring_op)
    : SharedMemory * list Z :=
  match op with
  | OpWrite kwargs =>
      match write st.1 kwargs st.2 with
      | (Ok self', buf') => (self', buf')
      | (_, buf') => (st.1, buf')
      end
  | OpFinalize =>
      match finalize st.1 st.2 with
      | (Ok self', buf') => (self', buf')
      | (_, buf') => (st.1, buf')
      end
  | OpRead fuel timeout latest =>
      (st.1, (read st.1 fuel timeout latest false st.2).2)
  end.

Definition run_ring_ops (ops : list ring_op) (st : SharedMemory * list Z)
    : SharedMemory * list Z :=
  fold_left run_ring_op ops st.

(** The counters are consistent: the entries pending are those between the
    read and the write index, and there are no more of them than slots. *)
Definition ring_counters_ok (self : SharedMemory) (buf : list Z) : Prop :=
  exists w r c,
    (_get_fifo_metadata self buf).1 = Ok (w, r, c) /\
    (w = r + c)%Z /\ (0 <= c <= Z.of_nat (slots self))%Z.

Definition ring_state_ok (st : SharedMemory * list Z) : Prop :=
  wf_handle st.1 /\ is_fifo st.1 = true /\ wf_region st.1 st.2 /\
  (Z.of_nat (slots st.1) + 1 < 2 ^ 64)%Z /\ ring_counters_ok st.1 st.2.

Lemma ring_state_intro self buf w r c :
  wf_handle self -> is_fifo self = true ->
  length buf = region_size self -> all_bytes buf ->
  (Z.of_nat (slots self) + 1 < 2 ^ 64)%Z ->
  (_get_fifo_metadata self buf).1 = Ok (w, r, c) ->
  (w = r + c)%Z -> (0 <= c <= Z.of_nat (slots self))%Z ->
  ring_state_ok (self, buf).
Proof.
  intros. split; [done|]. split; [done|]. split; [by split|]. split; [done|].
  by exists w, r, c.
Qed.

Lemma bind_raise {A B} (m : M A) (k : A -> M B) buf e b :
  m buf = (Raise e, b) -> bind m k buf = (Raise e, b).
Proof. unfold bind. by intros ->. Qed.

Lemma bind_spin {A B} (m : M A) (k : A -> M B) buf b :
  m buf = (Spin, b) -> bind m k buf = (Spin, b).
Proof. unfold bind. by intros ->. Qed.

Lemma write_uint64_overflow offset v buf :
  ~ (0 <= v < 2 ^ 64)%Z -> _write_uint64 offset v buf = (Raise OverflowError, buf).
Proof.
  intros Hv. unfold _write_uint64, bind, lift, to_bytes.
  change (256 ^ Z.of_nat 8)%Z with (2 ^ 64)%Z.
  destruct (Z.leb_spec 0 v), (Z.ltb_spec v (2 ^ 64)); try done; lia.
Qed.

Lemma set_write_buffer_wf self buffer dirty :
  wf_handle self -> wf_handle (set_write_buffer self buffer dirty).
Proof. intros [? ? ? ? ? ?]. by split. Qed.

(** A slot write, whatever its outcome, keeps the region a region and the
    counters what they were. *)
Lemma write_to_slot_keeps_counters self slot_idx data buf :
  wf_handle self -> is_fifo self = true -> wf_region self buf ->
  wf_region self (_write_to_slot self slot_idx data buf).2 /\
  (_get_fifo_metadata self (_write_to_slot self slot_idx data buf).2).1
    = (_get_fifo_metadata self buf).1.
Proof.
  intros Hwf Hfifo [Hlen Hbytes].
  destruct (touches_write_to_slot self Hwf slot_idx data buf) as (Hl & Hj & Hb).
  split; [split; [congruence|by apply Hb]|].
  apply (get_fifo_metadata_ext self Hwf Hfifo). intros j Hj24. apply Hj.
  intros Hin. apply (slot_above_metadata self) in Hin.
  rewrite (wf_data_offset _ Hwf), Hfifo in Hin. lia.
Qed.

Lemma ring_state_write st kwargs :
  ring_state_ok st -> ring_state_ok (run_ring_op st (OpWrite kwargs)).
Proof.
  destruct st as [self buf]. intros (Hwf & Hfifo & Hreg & Hn & Hc).
  simpl in *. unfold write. rewrite Hfifo. simpl.
  split; [by apply set_write_buffer_wf|]. done.
Qed.

Lemma ring_state_finalize st :
  ring_state_ok st -> ring_state_ok (run_ring_op st OpFinalize).
Proof.
  destruct st as [self buf]. intros Hst.
  pose proof Hst as (Hwf & Hfifo & Hreg & Hn & w & r & c & Hmeta & Hwrc & Hc).
  simpl in *. unfold finalize. rewrite Hfifo. cbn [negb].
  destruct (_write_buffer_dirty self) eqn:Hdirty; [|done]. cbn [negb].
  rewrite (bind_ok _ _ _ _ _ (metadata_run self buf w r c Hwf Hfifo Hmeta)).
  set (slot := Z.to_nat (w mod Z.of_nat (slots self))).
  destruct (write_to_slot_keeps_counters self slot (_write_buffer self) buf
              Hwf Hfifo Hreg) as [Hreg1 Hmeta1].
  destruct (metadata_bounds self buf w r c Hwf Hfifo (proj2 Hreg) Hmeta)
    as (Hwb & Hrb & Hcb).
  assert (ring_state_ok
            (self, (_write_to_slot self slot (_write_buffer self) buf).2)) as Hkeep.
  { apply (ring_state_intro _ _ w r c); try done; try apply Hreg1.
    by rewrite Hmeta1. }
  destruct (_write_to_slot self slot (_write_buffer self) buf)
    as [[[]|e|] b1] eqn:Hw; simpl in Hreg1, Hmeta1, Hkeep.
  - destruct (decide (w + 1 < 2 ^ 64)%Z) as [Hw1|Hw1].
    + destruct (finalize_effect self Hwf Hfifo buf w r c b1 Hdirty (proj2 Hreg)
                  Hmeta Hw ltac:(lia) ltac:(lia) ltac:(lia))
        as (buf' & Hfin & Hl' & Hget & _ & Hb').
      unfold finalize in Hfin. rewrite Hfifo, Hdirty in Hfin. cbn [negb] in Hfin.
      rewrite (bind_ok _ _ _ _ _ (metadata_run self buf w r c Hwf Hfifo Hmeta))
        in Hfin.
      fold slot in Hfin. rewrite Hfin.
      unfold counters_after in Hget.
      destruct (Z.ltb_spec c (Z.of_nat (slots self))).
      * apply (ring_state_intro _ _ (w + 1)%Z r (c + 1)%Z); try done.
        -- by apply set_write_buffer_wf.
        -- by rewrite Hl', (proj1 Hreg).
        -- lia.
        -- simpl. lia.
      * apply (ring_state_intro _ _ (w + 1)%Z (r + 1)%Z c); try done.
        -- by apply set_write_buffer_wf.
        -- by rewrite Hl', (proj1 Hreg).
        -- lia.
    + rewrite (bind_ok _ _ _ _ _ Hw).
      assert (forall read_idx count (k : unit -> M SharedMemory),
                bind (_set_fifo_metadata self (w + 1) read_idx count) k b1
                = (Raise OverflowError, b1)) as Hover.
      { intros read_idx count k. apply bind_raise.
        unfold _set_fifo_metadata. rewrite Hfifo. cbn [negb].
        apply bind_raise. apply write_uint64_overflow. lia. }
      destruct (c <? Z.of_nat (slots self))%Z; rewrite Hover; exact Hkeep.
  - rewrite (bind_raise _ _ _ _ _ Hw). exact Hkeep.
  - rewrite (bind_spin _ _ _ _ Hw). exact Hkeep.
Qed.

Lemma ring_state_read_fifo self fuel : forall timeout latest buf,
  ring_state_ok (self, buf) ->
  ring_state_ok (self, (_read_fifo self fuel timeout latest buf).2).
Proof.
  induction fuel as [|fuel IH]; intros timeout latest buf Hst; [done|].
  pose proof Hst as (Hwf & Hfifo & Hreg & Hn & w & r & c & Hmeta & Hwrc & Hc).
  simpl in Hwf, Hfifo, Hreg, Hn, Hmeta, Hc. cbn [_read_fifo].
  rewrite (bind_ok _ _ _ _ _ (metadata_run self buf w r c Hwf Hfifo Hmeta)).
  destruct (metadata_bounds self buf w r c Hwf Hfifo (proj2 Hreg) Hmeta)
    as (Hwb & Hrb & Hcb).
  destruct (Z.eqb_spec c 0) as [Hc0|Hc0].
  { destruct timeout; [done|]. by apply IH. }
  set (skip := latest && (1 <? c)%Z).
  set (read_idx := if skip then (w - 1)%Z else r).
  set (count := if skip then 1%Z else c).
  replace (if skip then ((w - 1)%Z, 1%Z) else (r, c))
    with (read_idx, count) by (subst read_idx count; by destruct skip).
  set (slot := Z.to_nat (read_idx mod Z.of_nat (slots self))).
  pose proof (read_from_slot_frame self slot buf Hwf) as Hframe.
  destruct (_read_from_slot self slot false buf) as [[[d|]|e|] b1] eqn:Hs;
    simpl in Hframe; subst b1.
  - rewrite (bind_ok _ _ _ _ _ Hs).
    pose proof (region_has_metadata self buf Hwf Hfifo (proj1 Hreg)) as H24.
    assert (read_idx + 1 = if skip then w else r + 1)%Z as Hri
      by (subst read_idx; destruct skip; lia).
    assert (count - 1 = if skip then 0 else c - 1)%Z as Hci
      by (subst count; destruct skip; lia).
    destruct (set_fifo_metadata_spec self Hwf Hfifo w (read_idx + 1)%Z
                (count - 1)%Z buf) as (buf' & Hset & Hl' & Hget & _ & Hb');
      try done.
    { rewrite Hri. destruct skip; lia. }
    { rewrite Hci. destruct skip; lia. }
    rewrite (bind_ok _ _ _ _ _ Hset).
    apply (ring_state_intro _ _ w (read_idx + 1)%Z (count - 1)%Z); try done.
    + simpl. by rewrite Hl', (proj1 Hreg).
    + by apply Hb', Hreg.
    + simpl. by rewrite Hget.
    + rewrite Hri, Hci. destruct skip; lia.
    + rewrite Hci. destruct skip; lia.
  - rewrite (bind_ok _ _ _ _ _ Hs). by apply IH.
  - by rewrite (bind_raise _ _ _ _ _ Hs).
  - by rewrite (bind_spin _ _ _ _ Hs).
Qed.

Lemma ring_state_step st op : ring_state_ok st -> ring_state_ok (run_ring_op st op).
Proof.
  destruct op as [kwargs| |fuel timeout latest].
  - apply ring_state_write.
  - apply ring_state_finalize.
  - destruct st as [self buf]. intros Hst. cbn [run_ring_op fst snd]. unfold read.
    pose proof (proj1 (proj2 Hst)) as Hfifo. simpl in Hfifo.
    rewrite Hfifo. cbn [andb]. by apply ring_state_read_fifo.
Qed.

Lemma ring_state_steps ops : forall st,
  ring_state_ok st -> ring_state_ok (run_ring_ops ops st).
Proof.
  induction ops as [|op ops IH]; intros st Hst; [done|].
  apply IH. by apply ring_state_step.
Qed.

(** X16.  On a ring as [__init__] creates it, whatever one process writes
    (values that the fields take unconverted), finalizes and reads through
    its handle, in any order and whether the calls complete, raise or are
    still polling: the counters in the region always satisfy
    [write_index = read_index + count] and [0 <= count <= slots]. *)
Theorem ring_counters_invariant dc nslots buf0 self buf ops :
  (1 < nslots)%Z -> (nslots + 1 < 2 ^ 64)%Z ->
  __init__ dc nslots true buf0 = (Ok self, buf) ->
  forallb (ring_op_unconverted self) ops = true ->
  ring_counters_ok (run_ring_ops ops (self, buf)).1 (run_ring_ops ops (self, buf)).2.
Proof.
  intros Hn1 Hn2 Hinit _.
  destruct (init_spec _ _ _ _ _ _ Hinit)
    as (Hwf & _ & Hslots & _ & _ & _ & Hcreate).
  destruct (Hcreate eq_refl) as (Hreg & _ & Hmeta).
  assert (is_fifo self = true) as Hfifo.
  { rewrite (wf_is_fifo _ Hwf). apply bool_decide_eq_true. lia. }
  apply (ring_state_steps ops (self, buf)).
  apply (ring_state_intro _ _ 0 0 0)%Z; try done; try apply Hreg; try lia.
  by rewrite (Hmeta Hfifo).
Qed.

Lemma ring_counters_invariant_witness :
  let ops := [OpWrite {["v"%string := PyFloat 1]}; OpFinalize;
              OpRead 1 0 true; OpFinalize; OpRead 2 1 false] in
  ring_counters_ok (run_ring_ops ops (v_ring3, v_ring3_fresh)).1
                   (run_ring_ops ops (v_ring3, v_ring3_fresh)).2.
Proof.
  apply (ring_counters_invariant v_dataclass 3 [] v_ring3 v_ring3_fresh).
  - lia.
  - lia.
  - vm_compute. reflexivity.
  - vm_compute. reflexivity.
Defined.

(** X17.  A [finalize] of staged values that the fields take unconverted,
    if its slot write raises, raises the same exception and does not advance
    the ring: the counters are what they were, and no byte outside the slot
    that was being written has changed. *)
Theorem failed_finalize_keeps_counters self buf w r c e b1 :
  wf_handle self -> is_fifo self = true -> wf_region self buf ->
  _write_buffer_dirty self = true ->
  unconverted_update self (_write_buffer self) = true ->
  (_get_fifo_metadata self buf).1 = Ok (w, r, c) ->
  _write_to_slot self (Z.to_nat (w mod Z.of_nat (slots self)))
    (_write_buffer self) buf = (Raise e, b1) ->
  finalize self buf = (Raise e, b1) /\
  (_get_fifo_metadata self b1).1 = Ok (w, r, c) /\
  (forall j,
     ~ in_range (_get_slot_offset self (Z.to_nat (w mod Z.of_nat (slots self))))
         (_slot_size self) j ->
     b1 !! j = buf !! j).
Proof.
  intros Hwf Hfifo Hreg Hdirty _ Hmeta Hw.
  destruct (write_to_slot_keeps_counters self
              (Z.to_nat (w mod Z.of_nat (slots self))) (_write_buffer self) buf
              Hwf Hfifo Hreg) as [_ Hmeta1].
  destruct (touches_write_to_slot self Hwf
              (Z.to_nat (w mod Z.of_nat (slots self))) (_write_buffer self) buf)
    as (_ & Hj & _).
  rewrite Hw in Hmeta1, Hj. simpl in Hmeta1, Hj.
  split; [|split; [by rewrite Hmeta1|done]].
  unfold finalize. rewrite Hfifo, Hdirty. cbn [negb].
  rewrite (bind_ok _ _ _ _ _ (metadata_run self buf w r c Hwf Hfifo Hmeta)).
  by rewrite (bind_raise _ _ _ _ _ Hw).
Qed.

(** A ring of two slots over [{m: str[4]}], with a string staged that UTF-8
    cannot encode. *)
Definition m_ring2 : SharedMemory :=
  set_write_buffer (handle_of m_dataclass 2 (_layout m_single))
    {["m"%string := PyStr [0xD800]%Z]} true.

Definition m_ring2_fresh : list Z :=
  Eval vm_compute in (__init__ m_dataclass 2 true []).2.

Lemma m_ring2_wf : wf_handle m_ring2.
Proof.
  apply set_write_buffer_wf, handle_of_wf; [lia|]. vm_compute. reflexivity.
Qed.

Lemma failed_finalize_keeps_counters_witness :
  let b1 := (_write_to_slot m_ring2 0 (_write_buffer m_ring2) m_ring2_fresh).2 in
  finalize m_ring2 m_ring2_fresh = (Raise UnicodeEncodeError, b1) /\
  (_get_fifo_metadata m_ring2 b1).1 = Ok (0, 0, 0)%Z /\
  (forall j,
     ~ in_range (_get_slot_offset m_ring2 (Z.to_nat (0 mod Z.of_nat (slots m_ring2))))
         (_slot_size m_ring2) j ->
     b1 !! j = m_ring2_fresh !! j).
Proof.
  apply (failed_finalize_keeps_counters m_ring2 m_ring2_fresh 0 0 0
           UnicodeEncodeError
           (_write_to_slot m_ring2 0 (_write_buffer m_ring2) m_ring2_fresh).2
           m_ring2_wf).
  - reflexivity.
  - split; [vm_compute; reflexivity|]. apply all_bytes_check. vm_compute. reflexivity.
  - reflexivity.
  - vm_compute. reflexivity.
  - vm_compute. reflexivity.
  - vm_compute. reflexivity.
Defined.

(** X18.  In ring mode [write] changes no byte of the region: it merges its
    arguments into the staged values, a later value for a field replacing
    an earlier one, and marks the handle dirty.  Two writes in a row stage
    what one write of the merged arguments stages. *)
Theorem ring_write_stages self a b buf :
  is_fifo self = true ->
  exists s1 s2,
    write self a buf = (Ok s1, buf) /\
    write s1 b buf = (Ok s2, buf) /\
    write self (b ∪ a) buf = (Ok s2, buf) /\
    _write_buffer_dirty s2 = true /\
    forall name,
      _write_buffer s2 !! name =
      match b !! name with
      | Some v => Some v
      | None =>
          match a !! name with
          | Some v => Some v
          | None => _write_buffer self !! name
          end
      end.
Proof.
  intros Hfifo.
  exists (set_write_buffer self (a ∪ _write_buffer self) true),
         (set_write_buffer self (b ∪ (a ∪ _write_buffer self)) true).
  unfold write. cbn [set_write_buffer is_fifo _write_buffer _write_buffer_dirty].
  rewrite Hfifo. split; [done|]. split; [done|]. split; [|split; [done|]].
  - by rewrite (assoc_L (∪)).
  - intros name. rewrite !lookup_union.
    by destruct (b !! name), (a !! name), (_write_buffer self !! name).
Qed.

Lemma ring_write_stages_witness :
  exists s1 s2,
    write v_ring3 {["v"%string := PyFloat 1]} v_ring3_fresh = (Ok s1, v_ring3_fresh) /\
    write s1 {["v"%string := PyFloat 2]} v_ring3_fresh = (Ok s2, v_ring3_fresh) /\
    write v_ring3 ({["v"%string := PyFloat 2]} ∪ {["v"%string := PyFloat 1]})
      v_ring3_fresh = (Ok s2, v_ring3_fresh) /\
    _write_buffer_dirty s2 = true /\
    forall name,
      _write_buffer s2 !! name =
      match ({["v"%string := PyFloat 2]} : gmap string pyvalue) !! name with
      | Some v => Some v
      | None =>
          match ({["v"%string := PyFloat 1]} : gmap string pyvalue) !! name with
          | Some v => Some v
          | None => _write_buffer v_ring3 !! name
          end
      end.
Proof.
  apply (ring_write_stages v_ring3 {["v"%string := PyFloat 1]}
           {["v"%string := PyFloat 2]} v_ring3_fresh).
  reflexivity.
Defined.

(** ** Committing to a ring and reading the newest entry *)

(** After a completed slot write the slot can be read. *)
Lemma publish_leaves_slot_consistent_aux self slot_idx data buf buf' :
  wf_handle self -> all_bytes buf ->
  _write_to_slot self slot_idx data buf = (Ok tt, buf') ->
  exists r,
    _read_from_slot self slot_idx false buf' = (Ok (Some r), buf') /\
    length buf' = length buf /\ all_bytes buf'.
Proof.
  intros Hwf Hbytes Hrun.
  destruct (write_to_slot_inv self Hwf slot_idx data buf buf' Hrun)
    as (Hsq & Hlen & Hfit & Hb & He & _).
  destruct (touches_write_to_slot self Hwf slot_idx data buf) as (_ & _ & Hall).
  rewrite Hrun in Hall. specialize (Hall Hbytes). simpl in Hall.
  destruct (read_from_slot_spec self Hwf slot_idx false buf')
    as (r & b & Hread & Hsame & _); [lia|done|by rewrite Hb, He|].
  rewrite (Hsame eq_refl) in Hread. by exists r.
Qed.


(** A slot write of values that fit their fields completes, and the read of
    the slot that follows returns one record with every written value. *)
Lemma publish_read_fits self slot_idx data buf :
  wf_handle self -> NoDup (dataclass_type self).*1 ->
  wf_region self buf -> slot_idx < slots self ->
  (Z.of_nat (length buf) < 2 ^ 32)%Z ->
  (from_bytes (slice (_get_slot_offset self slot_idx) 8 buf) + 1 < 2 ^ 64)%Z ->
  (forall k g u, fields (_layout self) !! k = Some g ->
     data !! fi_name g = Some u -> fits g u) ->
  exists buf' r,
    _write_to_slot self slot_idx data buf = (Ok tt, buf') /\
    _read_from_slot self slot_idx false buf' = (Ok (Some r), buf') /\
    length buf' = length buf /\ all_bytes buf' /\
    forall i f x, fields (_layout self) !! i = Some f ->
      data !! fi_name f = Some x ->
      exists vws, r !! fi_name f = Some vws /\
        value vws = x /\ valid vws = true /\ modified vws = true.
Proof.
  intros Hwf Hnd Hreg Hslot Hsmall Hseq Hfits.
  pose proof (layout_fields_kind self Hwf) as Hkinds.
  assert (_get_slot_offset self slot_idx + _slot_size self <= length buf) as Hlen.
  { rewrite (proj1 Hreg). by apply slot_in_region. }
  assert (storable self data) as Hstor.
  { intros k g u Hg Hu.
    destruct (field_small self Hwf slot_idx buf k g Hslot Hreg Hsmall Hg) as [Hgs _].
    destruct (fits_read_back 0 g u [] (Forall_lookup_1 _ _ _ _ Hkinds Hg)
                (Hfits k g u Hg Hu) Hgs) as (img & -> & _). eauto. }
  destruct (write_to_slot_ok self Hwf slot_idx data buf Hlen (proj2 Hreg) Hseq Hstor)
    as (buf' & Hw).
  destruct (publish_leaves_slot_consistent_aux self slot_idx data buf buf' Hwf
              (proj2 Hreg) Hw) as (r & Hread & Hl' & Hb').
  exists buf', r. split; [done|]. split; [done|]. split; [done|]. split; [done|].
  intros i f x Hf Hx.
  destruct (field_small self Hwf slot_idx buf i f Hslot Hreg Hsmall Hf)
    as [Hfsmall _].
  pose proof (Forall_lookup_1 _ _ _ _ Hkinds Hf) as Hkind.
  destruct (fits_read_back (_get_slot_offset self slot_idx + fi_offset f) f x buf'
              Hkind (Hfits i f x Hf Hx) Hfsmall) as (img & Himg & Hback).
  destruct (publish_read_core self Hwf slot_idx data buf i f x img false
              Hlen (proj2 Hreg) Hseq Hnd Hstor Hf Hx Himg)
    as (buf2 & r2 & vws & Hw2 & Hr2 & Hrec & Hslice & Hlen2 & Hrv & Ht & Hu & Hm).
  rewrite Hw in Hw2. injection Hw2 as <-.
  rewrite Hread in Hr2. injection Hr2 as <-.
  exists vws. split; [done|].
  rewrite (Hback Hslice Hlen2) in Hrv. injection Hrv as Hrv.
  split; [done|]. split; [|done].
  unfold valid, is_valid. unfold truncated in Ht. unfold unwritten in Hu.
  by rewrite Ht, Hu.
Qed.

(** The record a read of a slot returns depends on no byte in front of the
    slot. *)
Lemma read_field_ext lo offset so idx f acc (b1 b2 : list Z) :
  length b1 = length b2 ->
  (forall j, lo <= j -> b1 !! j = b2 !! j) -> lo <= so -> lo <= offset ->
  (read_field offset so idx f acc b1).1 = (read_field offset so idx f acc b2).1.
Proof.
  intros Hl Hj Hso Hoff. unfold read_field, bind at 1 3, buf_getitem.
  rewrite (Hj (so + idx)) by lia. destruct (b2 !! (so + idx)) as [st|]; [|done].
  pose proof (read_value_ext (offset + fi_offset f) f b1 b2 Hl) as Hv.
  unfold bind, ret.
  destruct (read_value (offset + fi_offset f) f b1) as [[v1| |] c1],
           (read_value (offset + fi_offset f) f b2) as [[v2| |] c2];
    simpl in Hv |- *;
    (assert (forall j, offset + fi_offset f <= j -> b1 !! j = b2 !! j) as Hj'
      by (intros j ?; apply Hj; lia));
    specialize (Hv Hj'); congruence.
Qed.

Lemma fold_read_fields_ext lo offset so l : forall idx acc (b1 b2 : list Z),
  length b1 = length b2 ->
  (forall j, lo <= j -> b1 !! j = b2 !! j) -> lo <= so -> lo <= offset ->
  (fold_enumerate (read_field offset so) idx l acc b1).1
  = (fold_enumerate (read_field offset so) idx l acc b2).1.
Proof.
  induction l as [|f l IH]; intros idx acc b1 b2 Hl Hj Hso Hoff; [done|].
  cbn [fold_enumerate]. unfold bind at 1 2.
  pose proof (read_field_ext lo offset so idx f acc b1 b2 Hl Hj Hso Hoff) as Hone.
  pose proof (touches_nothing (read_field offset so idx f acc) b1
                (touches_read_field _ _ _ _ _ _)) as H1.
  pose proof (touches_nothing (read_field offset so idx f acc) b2
                (touches_read_field _ _ _ _ _ _)) as H2.
  destruct (read_field offset so idx f acc b1) as [[s1| |] c1],
           (read_field offset so idx f acc b2) as [[s2| |] c2];
    simpl in Hone, H1, H2 |- *; subst; try done.
  injection Hone as ->. by apply IH.
Qed.

Lemma read_from_slot_ext self slot_idx (b1 b2 : list Z) :
  wf_handle self ->
  length b1 = length b2 ->
  (forall j, _get_slot_offset self slot_idx <= j -> b1 !! j = b2 !! j) ->
  (_read_from_slot self slot_idx false b1).1
  = (_read_from_slot self slot_idx false b2).1.
Proof.
  intros Hwf Hl Hj. pose proof (slot_size_min self Hwf) as Hmin.
  set (offset := _get_slot_offset self slot_idx) in *.
  assert (forall start n, offset <= start -> slice start n b1 = slice start n b2)
    as Hs.
  { intros start n Hle. apply slice_ext. intros j Hjr. apply Hj. lia. }
  unfold _read_from_slot. fold offset.
  rewrite !(bind_ok _ _ _ _ _ (read_uint64_eq offset _)).
  pose proof (fold_read_fields_ext offset offset (offset + 8)
                (fields (_layout self)) 0 ∅ b1 b2 Hl Hj ltac:(lia) (le_n _))
    as Hfold.
  assert (forall b, (fold_enumerate (read_field offset (offset + 8)) 0
                       (fields (_layout self)) ∅ b).2 = b) as Hframe.
  { intros b. apply touches_nothing, touches_fold_enumerate.
    intros. apply touches_read_field. }
  pose proof (Hframe b1) as H1. pose proof (Hframe b2) as H2.
  unfold bind at 1 4.
  destruct (fold_enumerate (read_field offset (offset + 8)) 0
              (fields (_layout self)) ∅ b1) as [[s1| |] c1],
           (fold_enumerate (read_field offset (offset + 8)) 0
              (fields (_layout self)) ∅ b2) as [[s2| |] c2];
    simpl in Hfold, H1, H2; subst c1 c2; try done; try (simpl; congruence).
  injection Hfold as ->.
  rewrite !(bind_ok _ _ _ _ _ (read_uint64_eq _ _)).
  rewrite (Hs offset 8) by done.
  rewrite (Hs (offset + _slot_size self - 8) 8) by lia.
  by destruct (negb _).
Qed.

(** X19.  On a ring with consistent counters, below 4 GiB, a [finalize] of
    staged values that fit their fields followed by a read with [latest]
    returns a record with every staged value, valid and modified, whatever
    was pending before; afterwards nothing is pending. *)
Theorem finalize_then_latest_read self buf w r c fuel timeout :
  wf_handle self -> is_fifo self = true -> NoDup (dataclass_type self).*1 ->
  wf_region self buf -> (Z.of_nat (length buf) < 2 ^ 32)%Z ->
  _write_buffer_dirty self = true ->
  (_get_fifo_metadata self buf).1 = Ok (w, r, c) ->
  (w = r + c)%Z -> (0 <= c <= Z.of_nat (slots self))%Z -> (w + 1 < 2 ^ 64)%Z ->
  (from_bytes
     (slice (_get_slot_offset self (Z.to_nat (w mod Z.of_nat (slots self)))) 8 buf)
   + 1 < 2 ^ 64)%Z ->
  (forall k g u, fields (_layout self) !! k = Some g ->
     _write_buffer self !! fi_name g = Some u -> fits g u) ->
  1 <= fuel ->
  exists self' b1 rec b2,
    finalize self buf = (Ok self', b1) /\
    read self' fuel timeout true false b1 = (Ok (Some rec), b2) /\
    (_get_fifo_metadata self' b2).1 = Ok (w + 1, w + 1, 0)%Z /\
    forall i f x, fields (_layout self) !! i = Some f ->
      _write_buffer self !! fi_name f = Some x ->
      exists vws, rec !! fi_name f = Some vws /\
        value vws = x /\ valid vws = true /\ modified vws = true.
Proof.
  intros Hwf Hfifo Hnd Hreg Hsmall Hdirty Hmeta Hwrc Hc Hw1 Hseq Hfits Hfuel.
  pose proof (wf_slots _ Hwf) as Hslots.
  set (slot := Z.to_nat (w mod Z.of_nat (slots self))) in *.
  assert (slot < slots self) as Hslot.
  { pose proof (Z.mod_pos_bound w (Z.of_nat (slots self)) ltac:(lia)).
    subst slot. lia. }
  assert (1 < slots self) as Hring.
  { pose proof (wf_is_fifo _ Hwf) as Hf. rewrite Hfifo in Hf.
    symmetry in Hf. by apply bool_decide_eq_true in Hf. }
  destruct (metadata_bounds self buf w r c Hwf Hfifo (proj2 Hreg) Hmeta)
    as (Hwb & Hrb & Hcb).
  destruct (publish_read_fits self slot (_write_buffer self) buf Hwf Hnd Hreg Hslot
              Hsmall Hseq Hfits)
    as (b0 & rec & Hw & Hread & Hl0 & Hb0 & Hvals).
  destruct (finalize_effect self Hwf Hfifo buf w r c b0 Hdirty (proj2 Hreg)
              Hmeta Hw ltac:(lia) ltac:(lia) ltac:(lia))
    as (b1 & Hfin & Hl1 & Hget & Hfr & Hb1).
  set (self' := set_write_buffer self ∅ false) in *.
  assert (wf_handle self') as Hwf' by (by apply set_write_buffer_wf).
  assert (_read_from_slot self' slot false b1 = (Ok (Some rec), b1)) as Hread1.
  { change (_read_from_slot self' slot false b1)
      with (_read_from_slot self slot false b1).
    pose proof (read_from_slot_ext self slot b1 b0 Hwf ltac:(lia)) as Hext.
    pose proof (read_from_slot_frame self slot b1 Hwf) as Hframe.
    rewrite Hread in Hext.
    destruct (_read_from_slot self slot false b1) as [o b]. simpl in *. subst b.
    rewrite Hext; [done|]. intros j Hj. apply Hfr.
    unfold _get_slot_offset in Hj. rewrite (wf_data_offset _ Hwf), Hfifo in Hj. lia. }
  set (w' := (w + 1)%Z).
  set (r' := if (c <? Z.of_nat (slots self))%Z then r else (r + 1)%Z).
  set (c' := if (c <? Z.of_nat (slots self))%Z then (c + 1)%Z else c).
  assert ((_get_fifo_metadata self' b1).1 = Ok (w', r', c')) as Hget'.
  { change (_get_fifo_metadata self' b1) with (_get_fifo_metadata self b1).
    rewrite Hget. unfold counters_after, w', r', c'.
    by destruct (c <? Z.of_nat (slots self))%Z. }
  assert ((if true && (1 <? c')%Z then (w' - 1)%Z else r') mod Z.of_nat (slots self)
          = w mod Z.of_nat (slots self))%Z as Hpos.
  { subst w' r' c'. cbn [andb].
    destruct (Z.ltb_spec c (Z.of_nat (slots self)));
      [destruct (Z.ltb_spec 1 (c + 1))|destruct (Z.ltb_spec 1 c)];
      f_equal; lia. }
  destruct (ring_read_step self' fuel timeout true b1 w' r' c' rec Hwf')
    as (b2 & Hrd & Hget2 & _); try done.
  - split; [|done]. change (region_size self') with (region_size self).
    rewrite Hl1. apply Hreg.
  - subst c'. destruct (Z.ltb_spec c (Z.of_nat (slots self))); lia.
  - subst r'. destruct (Z.ltb_spec c (Z.of_nat (slots self))); lia.
  - cbv zeta. change (slots self') with (slots self). rewrite Hpos. exact Hread1.
  - exists self', b1, rec, b2. split; [done|]. split; [done|]. split; [|done].
    rewrite Hget2. cbv zeta. subst w' r' c'. cbn [andb].
    destruct (Z.ltb_spec c (Z.of_nat (slots self)));
      [destruct (Z.ltb_spec 1 (c + 1))|destruct (Z.ltb_spec 1 c)];
      do 3 f_equal; lia.
Qed.

Lemma finalize_then_latest_read_witness :
  let buf := v_ring3_after [1; 2]%Z in
  exists self' b1 rec b2,
    finalize v_ring3_staged buf = (Ok self', b1) /\
    read self' 1 0 true false b1 = (Ok (Some rec), b2) /\
    (_get_fifo_metadata self' b2).1 = Ok (2 + 1, 2 + 1, 0)%Z /\
    forall i f x, fields (_layout v_ring3_staged) !! i = Some f ->
      _write_buffer v_ring3_staged !! fi_name f = Some x ->
      exists vws, rec !! fi_name f = Some vws /\
        value vws = x /\ valid vws = true /\ modified vws = true.
Proof.
  apply (finalize_then_latest_read v_ring3_staged (v_ring3_after [1; 2]%Z) 2 0 2 1 0
           v_ring3_staged_wf).
  - reflexivity.
  - apply (bool_decide_eq_true_1 _). vm_compute. reflexivity.
  - split; [vm_compute; reflexivity|]. apply all_bytes_check. vm_compute. reflexivity.
  - vm_compute. reflexivity.
  - reflexivity.
  - vm_compute. reflexivity.
  - lia.
  - vm_compute. split; discriminate.
  - lia.
  - vm_compute. reflexivity.
  - intros k g u Hg Hu.
    destruct k as [|k]; vm_compute in Hg; inversion Hg; subst g;
      vm_compute in Hu; inversion Hu; subst u; vm_compute; done.
  - lia.
Defined.

(** ** Storing a string *)

(** X21.  Writing a string into a string field inside the region: only the
    first [max_chars] code points count.  If UTF-8 can encode them, the
    write returns whether the string was longer, and replaces the length
    prefix and as many bytes as the encoding has, nothing behind them.
    Otherwise it raises [UnicodeEncodeError] and has written nothing. *)
Theorem write_string_outcome offset f s (buf : list Z) :
  fi_size f = 4 + fi_string_max_chars f * 4 ->
  (Z.of_nat (fi_size f) < 2 ^ 32)%Z ->
  offset + fi_size f <= length buf ->
  let kept := take (fi_string_max_chars f) s in
  let encoded := kept ≫= utf8_bytes in
  (Forall is_scalar_value kept ->
   _write_string offset (PyStr s) f buf =
   (Ok (bool_decide (fi_string_max_chars f < length s)),
    store offset (le_bytes 4 (Z.of_nat (length encoded)) ++ encoded) buf)) /\
  (~ Forall is_scalar_value kept ->
   _write_string offset (PyStr s) f buf = (Raise UnicodeEncodeError, buf)).
Proof.
  intros Hsz Hsmall Hlen kept encoded.
  assert ((if bool_decide (fi_string_max_chars f < length s)
           then take (fi_string_max_chars f) s else s) = kept) as Hkept.
  { subst kept. case_bool_decide; [done|]. by rewrite take_ge by lia. }
  unfold _write_string. cbv zeta. rewrite Hkept. split.
  - intros Hsc. rewrite (utf8_encode_scalar _ Hsc). fold encoded.
    change (lift (Ok encoded)) with (ret (A := list Z) encoded).
    rewrite bind_ret_l.
    assert (length encoded <= fi_string_max_chars f * 4) as Hel.
    { subst encoded kept. etrans; [apply utf8_bytes_bind_length|].
      rewrite length_take. lia. }
    rewrite (bind_ok _ _ _ _ _
               (write_uint32_store offset (Z.of_nat (length encoded)) buf
                  ltac:(lia) ltac:(lia))).
    rewrite (bind_ok _ _ _ _ _
               (setslice_store (offset + 4) encoded
                  (store offset (le_bytes 4 (Z.of_nat (length encoded))) buf)
                  ltac:(rewrite store_length; rewrite ?le_bytes_length; lia))).
    unfold ret. f_equal.
    pose proof (store_store_app offset (le_bytes 4 (Z.of_nat (length encoded)))
                  encoded buf) as Happ.
    rewrite le_bytes_length in Happ. apply Happ. lia.
  - intros Hnsc. destruct (utf8_encode_raises kept) as [Hok|Hraise].
    + apply utf8_encode_ok_inv in Hok as [Hsc _]. done.
    + by rewrite Hraise.
Qed.

Lemma write_string_outcome_witness :
  let s := [97; 98; 99; 100; 0xD800]%Z in
  let kept := take (fi_string_max_chars m_field) s in
  let encoded := kept ≫= utf8_bytes in
  (Forall is_scalar_value kept ->
   _write_string 16 (PyStr s) m_field m_fresh =
   (Ok (bool_decide (fi_string_max_chars m_field < length s)),
    store 16 (le_bytes 4 (Z.of_nat (length encoded)) ++ encoded) m_fresh)) /\
  (~ Forall is_scalar_value kept ->
   _write_string 16 (PyStr s) m_field m_fresh = (Raise UnicodeEncodeError, m_fresh)).
Proof.
  apply (write_string_outcome 16 m_field [97; 98; 99; 100; 0xD800]%Z m_fresh).
  - reflexivity.
  - vm_compute. reflexivity.
  - vm_compute. lia.
Defined.

(** ** The 64-bit counters *)

(** X22.  [_write_uint64] followed by [_read_uint64] at the same offset
    returns the number written, for a number of 64 bits inside the region,
    and changes the eight bytes only.  A number that is negative or has more
    than 64 bits raises [OverflowError], an offset less than eight bytes in
    front of the end [ValueError]; both leave the region as it was. *)
Theorem uint64_store_load offset v (buf : list Z) :
  ((0 <= v < 2 ^ 64)%Z -> offset + 8 <= length buf ->
   exists buf',
     _write_uint64 offset v buf = (Ok tt, buf') /\
     _read_uint64 offset buf' = (Ok v, buf') /\
     length buf' = length buf /\
     forall j, ~ in_range offset 8 j -> buf' !! j = buf !! j) /\
  (~ (0 <= v < 2 ^ 64)%Z ->
   _write_uint64 offset v buf = (Raise OverflowError, buf)) /\
  ((0 <= v < 2 ^ 64)%Z -> length buf < offset + 8 ->
   _write_uint64 offset v buf = (Raise ValueError, buf)).
Proof.
  split; [|split].
  - intros Hv Hlen. exists (store offset (le_bytes 8 v) buf).
    split; [by apply write_uint64_store|].
    assert (offset + length (le_bytes 8 v) <= length buf) as Hl
      by (rewrite le_bytes_length; lia).
    split; [|split].
    + rewrite read_uint64_eq.
      pose proof (slice_store_same offset (le_bytes 8 v) buf Hl) as Hs.
      rewrite le_bytes_length in Hs. rewrite Hs.
      by rewrite from_bytes_le_bytes_u64.
    + by apply store_length.
    + intros j Hj. apply lookup_store_other; [done|].
      rewrite le_bytes_length. unfold in_range in Hj. lia.
  - apply write_uint64_overflow.
  - intros Hv Hlen. unfold _write_uint64, bind, lift.
    rewrite to_bytes_ok by (change (256 ^ Z.of_nat 8)%Z with (2 ^ 64)%Z; lia).
    unfold buf_setslice. rewrite le_bytes_length.
    by rewrite decide_False by lia.
Qed.

(** ** Arrays and booleans through a slot *)

(** The values of an update can be stored when one of them has an image and
    the others fit their fields. *)
Lemma storable_except self slot_idx buf data i f v img t :
  wf_handle self -> slot_idx < slots self -> wf_region self buf ->
  (Z.of_nat (length buf) < 2 ^ 32)%Z ->
  fields (_layout self) !! i = Some f ->
  data !! fi_name f = Some v ->
  field_image f v = Some (img, t) ->
  (forall k g u, fields (_layout self) !! k = Some g -> k <> i ->
     data !! fi_name g = Some u -> fits g u) ->
  storable self data.
Proof.
  intros Hwf Hslot Hreg Hsmall Hf Hv Himg Hfits k g u Hg Hu.
  destruct (decide (k = i)) as [->|Hne].
  - rewrite Hf in Hg. injection Hg as <-. rewrite Hv in Hu. injection Hu as <-.
    rewrite Himg. eauto.
  - destruct (field_small self Hwf slot_idx buf k g Hslot Hreg Hsmall Hg)
      as [Hgs _].
    destruct (fits_read_back 0 g u []
                (Forall_lookup_1 _ _ _ _ (layout_fields_kind self Hwf) Hg)
                (Hfits k g u Hg Hne Hu) Hgs) as (img' & -> & _). eauto.
Qed.

Lemma array_read_back offset f dt sh flat (buf : list Z) :
  fi_is_scalar f = false -> fi_is_string f = false -> fi_is_array f = true ->
  fi_array_dtype f = Some dt -> fi_array_shape f = Some sh ->
  length flat = np_prod sh ->
  Forall (fun x => 0 <= x < 256 ^ Z.of_nat (itemsize dt))%Z flat ->
  slice offset (np_prod sh * itemsize dt) buf
    = mjoin (le_bytes (itemsize dt) <$> flat) ->
  offset + np_prod sh * itemsize dt <= length buf ->
  read_value offset f buf =
  (Ok (PyArray {| a_dtype := dt; a_shape := sh; a_data := flat |}), buf).
Proof.
  intros Hs Hstr Harr Hdt Hsh Hflat Hrange Hslice Hlen.
  unfold read_value. rewrite Hs, Hstr, Harr. unfold _read_array. rewrite Hdt, Hsh.
  rewrite (bind_ok _ _ _ _ _ (np_view_load_ok (np_prod sh) dt offset buf Hlen)).
  rewrite Hslice, <- Hflat, chunks_join_le_bytes.
  rewrite from_bytes_le_bytes_small by done. done.
Qed.

(** X23.  Publishing an array of the field's element type into an array
    field: the elements are stored in row-major order, cut to the declared
    number of elements or filled up with zeros, and read back in the
    declared shape; [truncated] is set exactly when the shape of the array
    is not the declared shape, also when the number of elements is the
    same. *)
Theorem array_publish_declared_shape self slot_idx data buf i f dt sh a :
  wf_handle self -> NoDup (dataclass_type self).*1 ->
  wf_region self buf -> slot_idx < slots self ->
  (Z.of_nat (length buf) < 2 ^ 32)%Z ->
  (from_bytes (slice (_get_slot_offset self slot_idx) 8 buf) + 1 < 2 ^ 64)%Z ->
  fields (_layout self) !! i = Some f ->
  fi_is_scalar f = false -> fi_is_string f = false ->
  fi_array_dtype f = Some dt -> fi_array_shape f = Some sh ->
  data !! fi_name f = Some (PyArray a) ->
  a_dtype a = dt -> length (a_data a) = np_prod (a_shape a) ->
  Forall (fun x => 0 <= x < 256 ^ Z.of_nat (itemsize dt))%Z (a_data a) ->
  (forall k g u, fields (_layout self) !! k = Some g -> k <> i ->
     data !! fi_name g = Some u -> fits g u) ->
  exists buf' r vws,
    _write_to_slot self slot_idx data buf = (Ok tt, buf') /\
    _read_from_slot self slot_idx false buf' = (Ok (Some r), buf') /\
    r !! fi_name f = Some vws /\
    value vws =
      PyArray {| a_dtype := dt; a_shape := sh;
                 a_data := take (np_prod sh)
                             (a_data a ++ replicate (np_prod sh - length (a_data a))
                                            0%Z) |} /\
    truncated vws = negb (bool_decide (a_shape a = sh)) /\
    modified vws = true /\ unwritten vws = false.
Proof.
  intros Hwf Hnd Hreg Hslot Hsmall Hseq Hf Hnsc Hnstr Hdt Hsh Hv Hadt Hwfa Hrange
    Hfits.
  pose proof (Forall_lookup_1 _ _ _ _ (layout_fields_kind self Hwf) Hf) as Hkind.
  destruct (field_small self Hwf slot_idx buf i f Hslot Hreg Hsmall Hf)
    as [Hfsmall Hlen].
  assert (fi_is_array f = true /\ fi_size f = np_prod sh * itemsize dt)
    as [Harr Hsz].
  { destruct Hkind as [? ? ?|? ? ? ?|dt' sh' ? ? ? Hdt' Hsh' ?]; try congruence.
    rewrite Hdt in Hdt'. rewrite Hsh in Hsh'.
    injection Hdt' as <-. injection Hsh' as <-. done. }
  set (flat := take (np_prod sh)
                 (a_data a ++ replicate (np_prod sh - length (a_data a)) 0%Z)).
  set (t := negb (bool_decide (a_shape a = sh))).
  assert (field_image f (PyArray a)
          = Some (mjoin (le_bytes (itemsize dt) <$> flat), t)) as Himg.
  { unfold field_image. rewrite Hnsc, Hnstr, Harr, Hdt, Hsh.
    rewrite decide_True by done. subst flat t.
    destruct (decide (np_prod sh < length (a_data a))) as [Hlt|Hge].
    - rewrite take_app_le by lia. do 3 f_equal.
      rewrite bool_decide_eq_false_2; [done|]. intros Heq.
      rewrite Heq in Hwfa. lia.
    - destruct (decide (length (a_data a) < np_prod sh)) as [Hlt|Hge'].
      + rewrite take_ge; [done|]. rewrite length_app, length_replicate. lia.
      + replace (np_prod sh - length (a_data a)) with 0 by lia.
        cbn [replicate]. rewrite app_nil_r. by rewrite take_ge by lia. }
  assert (length flat = np_prod sh) as Hflat.
  { subst flat. rewrite length_take, length_app, length_replicate. lia. }
  assert (Forall (fun x => 0 <= x < 256 ^ Z.of_nat (itemsize dt))%Z flat) as Hfr.
  { subst flat. apply Forall_take, Forall_app. split; [done|].
    apply Forall_replicate. split; [lia|]. apply Z.pow_pos_nonneg; lia. }
  pose proof (storable_except self slot_idx buf data i f _ _ _ Hwf Hslot Hreg
                Hsmall Hf Hv Himg Hfits) as Hstor.
  destruct (publish_read_core self Hwf slot_idx data buf i f (PyArray a) _ _
              Hlen (proj2 Hreg) Hseq Hnd Hstor Hf Hv Himg)
    as (buf' & r & vws & Hw & Hr & Hrec & Hslice & Hlen' & Hrv & Ht & Hu & Hm).
  exists buf', r, vws. split; [done|]. split; [done|]. split; [done|].
  split; [|done].
  rewrite join_le_bytes_length, Hflat in Hslice.
  rewrite (array_read_back _ f dt sh flat buf' Hnsc Hnstr Harr Hdt Hsh Hflat Hfr
             Hslice ltac:(lia)) in Hrv.
  by injection Hrv as <-.
Qed.

(** A single slot over [{a: int16[2,2]}]. *)
Definition a_dataclass : list (string * pytype) :=
  [("a"%string, TyAnnot "int16[2,2]")].

Definition a_field : _FieldInfo :=
  {| fi_name := "a"; fi_field_type := TyAnnot "int16[2,2]"; fi_is_scalar := false;
     fi_is_string := false; fi_is_array := true; fi_string_max_chars := 0;
     fi_array_dtype := Some int16; fi_array_shape := Some [2; 2]; fi_size := 8;
     fi_offset := 16 |}.

Definition a_single : SharedMemory :=
  handle_of a_dataclass 1 {| fields := [a_field]; total_size := 32 |}.

Definition a_fresh : list Z :=
  Eval vm_compute in (__init__ a_dataclass 1 true []).2.

Lemma a_single_created : __init__ a_dataclass 1 true [] = (Ok a_single, a_fresh).
Proof. vm_compute. reflexivity. Qed.

Lemma a_single_wf : wf_handle a_single.
Proof. apply handle_of_wf; [lia|]. vm_compute. reflexivity. Qed.

(** The four elements as a vector: same number of elements, other shape. *)
Definition a_vector : ndarray :=
  {| a_dtype := int16; a_shape := [4]; a_data := [1; 2; 3; 65535]%Z |}.

Lemma array_publish_declared_shape_witness :
  exists buf' r vws,
    _write_to_slot a_single 0 {["a"%string := PyArray a_vector]} a_fresh
      = (Ok tt, buf') /\
    _read_from_slot a_single 0 false buf' = (Ok (Some r), buf') /\
    r !! fi_name a_field = Some vws /\
    value vws =
      PyArray {| a_dtype := int16; a_shape := [2; 2];
                 a_data := take (np_prod [2; 2])
                             (a_data a_vector
                              ++ replicate (np_prod [2; 2] - length (a_data a_vector))
                                   0%Z) |} /\
    truncated vws = negb (bool_decide (a_shape a_vector = [2; 2])) /\
    modified vws = true /\ unwritten vws = false.
Proof.
  apply (array_publish_declared_shape a_single 0
           {["a"%string := PyArray a_vector]} a_fresh 0 a_field int16 [2; 2]
           a_vector a_single_wf).
  - apply (bool_decide_eq_true_1 _). vm_compute. reflexivity.
  - split; [reflexivity|]. apply all_bytes_check. vm_compute. reflexivity.
  - vm_compute. lia.
  - vm_compute. reflexivity.
  - vm_compute. reflexivity.
  - reflexivity.
  - reflexivity.
  - reflexivity.
  - reflexivity.
  - reflexivity.
  - reflexivity.
  - reflexivity.
  - reflexivity.
  - repeat constructor; vm_compute; try reflexivity; discriminate.
  - intros k g u Hg Hk. destruct k as [|k]; [done|]. discriminate Hg.
Defined.

(** X24.  Publishing any value with a truth value into a [bool] field
    stores that truth value: the read returns [True] for a number that is
    not zero and for a string that is not empty, [False] for zero and for
    the empty string. *)
Theorem bool_field_stores_truth self slot_idx data buf i f v b :
  wf_handle self -> NoDup (dataclass_type self).*1 ->
  wf_region self buf -> slot_idx < slots self ->
  (Z.of_nat (length buf) < 2 ^ 32)%Z ->
  (from_bytes (slice (_get_slot_offset self slot_idx) 8 buf) + 1 < 2 ^ 64)%Z ->
  fields (_layout self) !! i = Some f ->
  fi_is_scalar f = true -> fi_field_type f = TyBool ->
  data !! fi_name f = Some v ->
  py_bool v = Ok b ->
  (forall k g u, fields (_layout self) !! k = Some g -> k <> i ->
     data !! fi_name g = Some u -> fits g u) ->
  exists buf' r vws,
    _write_to_slot self slot_idx data buf = (Ok tt, buf') /\
    _read_from_slot self slot_idx false buf' = (Ok (Some r), buf') /\
    r !! fi_name f = Some vws /\
    value vws = PyBool b /\ valid vws = true /\ modified vws = true.
Proof.
  intros Hwf Hnd Hreg Hslot Hsmall Hseq Hf Hsc Hty Hv Hb Hfits.
  destruct (field_small self Hwf slot_idx buf i f Hslot Hreg Hsmall Hf)
    as [Hfsmall Hlen].
  assert (field_image f v = Some ([if b then 1 else 0]%Z, false)) as Himg.
  { unfold field_image. rewrite Hsc, Hty, Hb. done. }
  pose proof (storable_except self slot_idx buf data i f _ _ _ Hwf Hslot Hreg
                Hsmall Hf Hv Himg Hfits) as Hstor.
  destruct (publish_read_core self Hwf slot_idx data buf i f v _ _
              Hlen (proj2 Hreg) Hseq Hnd Hstor Hf Hv Himg)
    as (buf' & r & vws & Hw & Hr & Hrec & Hslice & Hlen' & Hrv & Ht & Hu & Hm).
  exists buf', r, vws. split; [done|]. split; [done|]. split; [done|].
  split; [|split; [|done]].
  - unfold read_value in Hrv. rewrite Hsc in Hrv. unfold _read_scalar in Hrv.
    rewrite Hty in Hrv. cbn [length] in Hslice.
    assert (buf' !! (_get_slot_offset self slot_idx + fi_offset f)
            = Some (if b then 1 else 0)%Z) as Hbyte.
    { pose proof (slice_lookup (_get_slot_offset self slot_idx + fi_offset f) 1
                    buf' 0) as Hl.
      rewrite Hslice, Nat.add_0_r in Hl. simpl in Hl. by rewrite <- Hl. }
    rewrite (bind_ok _ _ _ _ _ (getitem_ok _ _ _ Hbyte)) in Hrv.
    injection Hrv as <-. by destruct b.
  - unfold valid, is_valid. unfold truncated in Ht. unfold unwritten in Hu.
    by rewrite Ht, Hu.
Qed.

(** A single slot over [{b: bool}]. *)
Definition b_dataclass : list (string * pytype) := [("b"%string, TyBool)].

Definition b_field : _FieldInfo :=
  {| fi_name := "b"; fi_field_type := TyBool; fi_is_scalar := true;
     fi_is_string := false; fi_is_array := false; fi_string_max_chars := 0;
     fi_array_dtype := None; fi_array_shape := None; fi_size := 1;
     fi_offset := 16 |}.

Definition b_single : SharedMemory :=
  handle_of b_dataclass 1 {| fields := [b_field]; total_size := 32 |}.

Definition b_fresh : list Z :=
  Eval vm_compute in (__init__ b_dataclass 1 true []).2.

Lemma b_single_created : __init__ b_dataclass 1 true [] = (Ok b_single, b_fresh).
Proof. vm_compute. reflexivity. Qed.

Lemma b_single_wf : wf_handle b_single.
Proof. apply handle_of_wf; [lia|]. vm_compute. reflexivity. Qed.

Lemma bool_field_stores_truth_witness :
  exists buf' r vws,
    _write_to_slot b_single 0 {["b"%string := PyInt 5]} b_fresh = (Ok tt, buf') /\
    _read_from_slot b_single 0 false buf' = (Ok (Some r), buf') /\
    r !! fi_name b_field = Some vws /\
    value vws = PyBool true /\ valid vws = true /\ modified vws = true.
Proof.
  apply (bool_field_stores_truth b_single 0 {["b"%string := PyInt 5]} b_fresh 0
           b_field (PyInt 5) true b_single_wf).
  - apply (bool_decide_eq_true_1 _). vm_compute. reflexivity.
  - split; [reflexivity|]. apply all_bytes_check. vm_compute. reflexivity.
  - vm_compute. lia.
  - vm_compute. reflexivity.
  - vm_compute. reflexivity.
  - reflexivity.
  - reflexivity.
  - reflexivity.
  - reflexivity.
  - reflexivity.
  - intros k g u Hg Hk. destruct k as [|k]; [done|]. discriminate Hg.
Defined.

(** ** The ring as a queue *)

(** [write] with the keyword arguments [d], followed by [finalize()]. *)
Definition publish (self : SharedMemory) (d : gmap string pyvalue) : M SharedMemory :=
  self <~ write self d ; finalize self.

Definition publish_all (updates : list (gmap string pyvalue)) (self : SharedMemory)
    : M SharedMemory :=
  fold_enumerate (fun _ d self => publish self d) 0 updates self.

(** Every value of the update fits the field it names. *)
Definition fits_update (self : SharedMemory) (d : gmap string pyvalue) : Prop :=
  forall k g u, fields (_layout self) !! k = Some g ->
    d !! fi_name g = Some u -> fits g u.

(** The record has every value of the update, valid and modified. *)
Definition record_has (self : SharedMemory) (d : gmap string pyvalue)
    (rec : record) : Prop :=
  forall i f x, fields (_layout self) !! i = Some f ->
    d !! fi_name f = Some x ->
    exists vws, rec !! fi_name f = Some vws /\
      value vws = x /\ valid vws = true /\ modified vws = true.

(** The slot is consistent and holds the values of the update. *)
Definition slot_holds (self : SharedMemory) (buf : list Z) (s : nat)
    (d : gmap string pyvalue) : Prop :=
  let offset := _get_slot_offset self s in
  from_bytes (slice offset 8 buf)
    = from_bytes (slice (offset + _slot_size self - 8) 8 buf) /\
  forall i f x, fields (_layout self) !! i = Some f ->
    d !! fi_name f = Some x ->
    fits f x /\
    (forall img t, field_image f x = Some (img, t) ->
       slice (offset + fi_offset f) (length img) buf = img) /\
    exists st, buf !! (offset + 8 + i) = Some st /\
      is_valid st = true /\ is_modified st = true.

Lemma slot_holds_after_write self s d buf :
  wf_handle self -> NoDup (dataclass_type self).*1 ->
  wf_region self buf -> s < slots self ->
  (Z.of_nat (length buf) < 2 ^ 32)%Z ->
  (from_bytes (slice (_get_slot_offset self s) 8 buf) + 1 < 2 ^ 64)%Z ->
  fits_update self d ->
  exists buf',
    _write_to_slot self s d buf = (Ok tt, buf') /\
    slot_holds self buf' s d /\
    wf_region self buf' /\
    from_bytes (slice (_get_slot_offset self s) 8 buf')
      = (from_bytes (slice (_get_slot_offset self s) 8 buf) + 1)%Z /\
    (forall j, ~ in_range (_get_slot_offset self s) (_slot_size self) j ->
       buf' !! j = buf !! j).
Proof.
  intros Hwf Hnd Hreg Hs Hsmall Hseq Hfits.
  pose proof (layout_fields_kind self Hwf) as Hkinds.
  assert (_get_slot_offset self s + _slot_size self <= length buf) as Hlen.
  { rewrite (proj1 Hreg). by apply slot_in_region. }
  assert (storable self d) as Hstor.
  { intros k g u Hg Hu.
    destruct (field_small self Hwf s buf k g Hs Hreg Hsmall Hg) as [Hgs _].
    destruct (fits_read_back 0 g u [] (Forall_lookup_1 _ _ _ _ Hkinds Hg)
                (Hfits k g u Hg Hu) Hgs) as (img & -> & _). eauto. }
  destruct (write_to_slot_ok self Hwf s d buf Hlen (proj2 Hreg) Hseq Hstor)
    as (buf' & Hw).
  destruct (write_to_slot_inv self Hwf s d buf buf' Hw)
    as (Hsq & Hl' & _ & Hb & He & _).
  destruct (touches_write_to_slot self Hwf s d buf) as (_ & Hj & Hall).
  rewrite Hw in Hj, Hall. simpl in Hj, Hall.
  exists buf'. split; [done|].
  assert (from_bytes (slice (_get_slot_offset self s) 8 buf')
          = (from_bytes (slice (_get_slot_offset self s) 8 buf) + 1)%Z) as Hb'.
  { rewrite Hb. by apply from_bytes_le_bytes_u64. }
  split; [|split; [split; [by rewrite Hl', (proj1 Hreg)|by apply Hall, Hreg]|done]].
  split.
  { rewrite Hb, He. done. }
  intros i f x Hf Hx. split; [by eapply Hfits|].
  destruct (field_small self Hwf s buf i f Hs Hreg Hsmall Hf) as [Hfsmall _].
  pose proof (Forall_lookup_1 _ _ _ _ Hkinds Hf) as Hkind.
  destruct (fits_read_back 0 f x [] Hkind (Hfits i f x Hf Hx) Hfsmall)
    as (img & Himg & _).
  destruct (publish_read_core self Hwf s d buf i f x img false
              Hlen (proj2 Hreg) Hseq Hnd Hstor Hf Hx Himg)
    as (buf2 & r2 & vws & Hw2 & Hr2 & Hrec & Hslice & Hlen2 & Hrv & Ht & Hu & Hm).
  rewrite Hw in Hw2. injection Hw2 as <-.
  split.
  { intros img' t' Himg'. rewrite Himg in Himg'. by injection Himg' as <- <-. }
  destruct (read_from_slot_spec self Hwf s false buf')
    as (r & b & Hread & Hsame & _ & _ & Hlast).
  { lia. } { by apply Hall, Hreg. } { by rewrite Hb, He. }
  rewrite (Hsame eq_refl) in Hread. rewrite Hread in Hr2. injection Hr2 as <-.
  destruct (Hlast i f Hf (later_names_differ self Hwf i f Hnd Hf))
    as (vws' & Hrec' & Hst & _).
  rewrite Hrec in Hrec'. injection Hrec' as <-.
  exists (_status vws). split; [done|]. split; [|done].
  unfold is_valid. unfold truncated in Ht. unfold unwritten in Hu.
  by rewrite Ht, Hu.
Qed.

Lemma image_within_field f x img t :
  field_kind f -> field_image f x = Some (img, t) -> length img <= fi_size f.
Proof.
  intros Hk Himg.
  destruct (write_value_image 0 f x img t (replicate (fi_size f) 0%Z) Hk Himg)
    as [_ Hle]; [|done].
  rewrite length_replicate. lia.
Qed.

Lemma slot_holds_ext self (b b' : list Z) s d :
  wf_handle self ->
  (forall j, in_range (_get_slot_offset self s) (_slot_size self) j ->
     b' !! j = b !! j) ->
  slot_holds self b s d -> slot_holds self b' s d.
Proof.
  intros Hwf Hj [Hcons Hfields]. pose proof (slot_size_min self Hwf) as Hmin.
  set (offset := _get_slot_offset self s) in *.
  assert (forall start n, offset <= start -> start + n <= offset + _slot_size self ->
            slice start n b' = slice start n b) as Hs.
  { intros start n H1 H2. apply slice_ext. intros j Hjr. apply Hj.
    unfold in_range. lia. }
  split.
  { rewrite !Hs by lia. done. }
  intros i f x Hf Hx. destruct (Hfields i f x Hf Hx) as (Hfit & Himg & st & Hst & Hfl).
  destruct (layout_field_bounds self Hwf i f Hf) as [Hlo Hhi].
  pose proof (Forall_lookup_1 _ _ _ _ (layout_fields_kind self Hwf) Hf) as Hkind.
  pose proof (lookup_lt_Some _ _ _ Hf) as Hi.
  split; [done|]. split.
  - intros img t Hi'. pose proof (image_within_field f x img t Hkind Hi').
    rewrite Hs by lia. by eapply Himg.
  - exists st. split; [|done]. rewrite Hj; [done|]. unfold in_range. lia.
Qed.

Lemma slot_holds_read self buf s d :
  wf_handle self -> NoDup (dataclass_type self).*1 ->
  wf_region self buf -> s < slots self ->
  (Z.of_nat (length buf) < 2 ^ 32)%Z ->
  slot_holds self buf s d ->
  exists rec,
    _read_from_slot self s false buf = (Ok (Some rec), buf) /\
    record_has self d rec.
Proof.
  intros Hwf Hnd Hreg Hs Hsmall [Hcons Hfields].
  assert (_get_slot_offset self s + _slot_size self <= length buf) as Hlen.
  { rewrite (proj1 Hreg). by apply slot_in_region. }
  destruct (read_from_slot_spec self Hwf s false buf Hlen (proj2 Hreg) Hcons)
    as (rec & b & Hread & Hsame & _ & _ & Hlast).
  rewrite (Hsame eq_refl) in Hread. exists rec. split; [done|].
  intros i f x Hf Hx.
  destruct (Hfields i f x Hf Hx) as (Hfit & Himg & st & Hst & Hvalid & Hmod).
  destruct (Hlast i f Hf (later_names_differ self Hwf i f Hnd Hf))
    as (vws & Hrec & Hst' & Hrv).
  rewrite Hst in Hst'. injection Hst' as Hst'.
  exists vws. split; [done|].
  destruct (field_small self Hwf s buf i f Hs Hreg Hsmall Hf) as [Hfsmall _].
  pose proof (Forall_lookup_1 _ _ _ _ (layout_fields_kind self Hwf) Hf) as Hkind.
  destruct (layout_field_bounds self Hwf i f Hf) as [Hlo Hhi].
  destruct (fits_read_back (_get_slot_offset self s + fi_offset f) f x buf
              Hkind Hfit Hfsmall) as (img & Hi & Hback).
  rewrite (Hback (Himg img false Hi) ltac:(lia)) in Hrv. injection Hrv as Hrv.
  split; [done|]. unfold valid, modified. rewrite <- Hst'. done.
Qed.

(** The ring after the updates [hist] were committed in turn and the first
    [r] of them were consumed or dropped: the counters say so, every slot
    was written at most as often as there were commits, and the slot of
    every update still pending holds it. *)
Definition ring_inv (self : SharedMemory) (buf : list Z)
    (hist : list (gmap string pyvalue)) (r : nat) : Prop :=
  let j := length hist in
  r <= j /\ j - r <= slots self /\
  wf_region self buf /\
  (_get_fifo_metadata self buf).1 = Ok (Z.of_nat j, Z.of_nat r, Z.of_nat (j - r)) /\
  (forall s, s < slots self ->
     (from_bytes (slice (_get_slot_offset self s) 8 buf) <= Z.of_nat j)%Z) /\
  (forall m d, r <= m -> hist !! m = Some d ->
     slot_holds self buf (m mod slots self) d).

(** The read position after one more commit: the oldest entry is dropped
    when the ring is full. *)
Definition after_commit (nslots j r : nat) : nat :=
  if decide (j - r < nslots) then r else S r.

Lemma slot_of_index (m n : nat) :
  0 < n -> Z.to_nat (Z.of_nat m mod Z.of_nat n) = m mod n.
Proof. intros Hn. rewrite <- Nat2Z.inj_mod. apply Nat2Z.id. Qed.

Lemma mod_differs (m j n : nat) :
  m < j -> j - m < n -> m mod n <> j mod n.
Proof.
  intros Hmj Hn Heq.
  pose proof (Nat.div_mod_eq m n). pose proof (Nat.div_mod_eq j n).
  assert (j - m = n * (j / n - m / n)) as Hd by nia.
  destruct (j / n - m / n) as [|k]; nia.
Qed.

Lemma clean_handle self :
  _write_buffer self = ∅ -> _write_buffer_dirty self = false ->
  set_write_buffer self ∅ false = self.
Proof. destruct self. simpl. by intros -> ->. Qed.

Lemma slot_range_above_metadata self k p :
  wf_handle self -> is_fifo self = true ->
  in_range (_get_slot_offset self k) (_slot_size self) p -> 24 <= p.
Proof.
  intros Hwf Hfifo Hp. apply (slot_above_metadata self) in Hp.
  by rewrite (wf_data_offset _ Hwf), Hfifo in Hp.
Qed.

Lemma publish_step self buf hist r d :
  wf_handle self -> is_fifo self = true -> NoDup (dataclass_type self).*1 ->
  _write_buffer self = ∅ -> _write_buffer_dirty self = false ->
  (Z.of_nat (length buf) < 2 ^ 32)%Z ->
  (Z.of_nat (length hist) + 1 < 2 ^ 64)%Z ->
  fits_update self d ->
  ring_inv self buf hist r ->
  exists buf',
    publish self d buf = (Ok self, buf') /\ length buf' = length buf /\
    ring_inv self buf' (hist ++ [d]) (after_commit (slots self) (length hist) r).
Proof.
  intros Hwf Hfifo Hnd Hclean Hdirty Hsmall Hcount Hfits
    (Hrj & Hcn & Hreg & Hmeta & Hseq & Hpend).
  cbv zeta in Hrj, Hcn, Hmeta, Hseq, Hpend.
  pose proof (wf_slots _ Hwf) as Hslots.
  set (j := length hist) in *. set (n := slots self) in *.
  set (s := j mod n).
  assert (s < n) as Hs by (apply Nat.mod_upper_bound; lia).
  destruct (slot_holds_after_write self s d buf Hwf Hnd Hreg Hs Hsmall)
    as (b0 & Hw & Hholds & Hreg0 & Hseq0 & Hframe0); [|done|].
  { specialize (Hseq s Hs). lia. }
  set (s1 := set_write_buffer self (d ∪ _write_buffer self) true).
  assert (wf_handle s1) as Hwf1 by (by apply set_write_buffer_wf).
  destruct (finalize_effect s1 Hwf1 Hfifo buf (Z.of_nat j) (Z.of_nat r)
              (Z.of_nat (j - r)) b0) as (b1 & Hfin & Hl1 & Hget & Hfr & Hb1).
  { done. } { apply Hreg. } { exact Hmeta. }
  { change (slots s1) with n. rewrite slot_of_index by lia.
    change (_write_buffer s1) with (d ∪ _write_buffer self).
    rewrite Hclean, (right_id_L ∅ (∪)). exact Hw. }
  { lia. } { lia. } { lia. }
  change (set_write_buffer s1 ∅ false) with (set_write_buffer self ∅ false) in Hfin.
  rewrite (clean_handle self Hclean Hdirty) in Hfin.
  change (_get_fifo_metadata s1 b1) with (_get_fifo_metadata self b1) in Hget.
  change (slots s1) with n in Hget.
  exists b1. split; [|split; [done|]].
  { unfold publish, write. rewrite Hfifo. fold s1. by rewrite bind_ret_l. }
  pose proof (fun k p => slot_range_above_metadata self k p Hwf Hfifo) as Habove.
  unfold ring_inv, after_commit. rewrite length_app. cbn [length]. fold j. fold n.
  set (r' := if decide (j - r < n) then r else S r).
  assert (r <= r' /\ r' <= j + 1 /\ j + 1 - r' <= n /\
          (j - r < n -> r' = r) /\ (~ j - r < n -> r' = S r)) as (? & ? & ? & Hr1 & Hr2).
  { subst r'. case_decide; lia. }
  split; [done|]. split; [done|]. split; [|split; [|split]].
  - split; [|done]. rewrite Hl1. apply Hreg.
  - rewrite Hget. unfold counters_after.
    destruct (Z.ltb_spec (Z.of_nat (j - r)) (Z.of_nat n)).
    + rewrite Hr1 by lia. do 3 f_equal; lia.
    + rewrite Hr2 by lia. do 3 f_equal; lia.
  - intros k Hk. rewrite (slice_ext _ 8 b1 b0).
    2: { intros p Hp. apply Hfr. apply (Habove k). unfold in_range.
         pose proof (slot_size_min self Hwf). lia. }
    destruct (decide (k = s)) as [->|Hne].
    + rewrite Hseq0. specialize (Hseq s Hs). lia.
    + rewrite (slice_ext _ 8 b0 buf).
      2: { intros p Hp. apply Hframe0. intros Hin.
           apply (slot_ranges_disjoint self k s p Hne); [|done].
           unfold in_range. pose proof (slot_size_min self Hwf). lia. }
      specialize (Hseq k Hk). lia.
  - intros m d' Hm Hd'.
    assert (forall p, in_range (_get_slot_offset self (m mod n)) (_slot_size self) p ->
              b1 !! p = b0 !! p) as Hsame1.
    { intros p Hp. apply Hfr. by eapply Habove. }
    apply (slot_holds_ext self b0 b1 _ _ Hwf Hsame1).
    destruct (decide (m = j)) as [->|Hne].
    + rewrite lookup_app_r in Hd' by lia. fold j in Hd'.
      rewrite Nat.sub_diag in Hd'. injection Hd' as <-. exact Hholds.
    + assert (m < j) as Hmj.
      { apply lookup_lt_Some in Hd'. rewrite length_app in Hd'. simpl in Hd'.
        fold j in Hd'. lia. }
      rewrite lookup_app_l in Hd' by done.
      apply (slot_holds_ext self buf b0 _ _ Hwf).
      * intros p Hp. apply Hframe0. intros Hin.
        apply (slot_ranges_disjoint self (m mod n) s p); [|done|done].
        apply mod_differs; [lia|].
        destruct (decide (j - r < n)); [lia|]. rewrite Hr2 in Hm by done. lia.
      * apply Hpend; [lia|done].
Qed.

(** One read of a ring: the oldest pending entry, or no data. *)
Lemma consume_step self fuel buf hist r :
  wf_handle self -> is_fifo self = true -> NoDup (dataclass_type self).*1 ->
  1 <= fuel -> (Z.of_nat (length buf) < 2 ^ 32)%Z ->
  ring_inv self buf hist r ->
  match hist !! r with
  | Some d =>
      exists rec buf',
        read self fuel 0 false false buf = (Ok (Some rec), buf') /\
        record_has self d rec /\ length buf' = length buf /\
        ring_inv self buf' hist (S r)
  | None => read self fuel 0 false false buf = (Ok None, buf)
  end.
Proof.
  intros Hwf Hfifo Hnd Hfuel Hsmall (Hrj & Hcn & Hreg & Hmeta & Hseq & Hpend).
  cbv zeta in Hrj, Hcn, Hmeta, Hseq, Hpend.
  pose proof (wf_slots _ Hwf) as Hslots.
  destruct (hist !! r) as [d|] eqn:Hd.
  - pose proof (lookup_lt_Some _ _ _ Hd) as Hlt.
    assert (r mod slots self < slots self) as Hs
      by (apply Nat.mod_upper_bound; lia).
    destruct (slot_holds_read self buf (r mod slots self) d Hwf Hnd Hreg Hs Hsmall
                (Hpend r d (le_n _) Hd)) as (rec & Hread & Hhas).
    destruct (metadata_bounds self buf _ _ _ Hwf Hfifo (proj2 Hreg) Hmeta)
      as (Hwb & _ & _).
    destruct (ring_read_step self fuel 0 false buf _ _ _ rec Hwf Hfifo Hreg Hmeta)
      as (b1 & Hrd & Hget & Hl1 & Hb1 & Hfr); try lia.
    { cbv zeta. cbn [andb]. rewrite slot_of_index by lia. exact Hread. }
    cbv zeta in Hget. cbn [andb] in Hget.
    exists rec, b1. split; [done|]. split; [done|]. split; [done|].
    split; [lia|]. split; [lia|]. split; [|split; [|split]].
    + split; [by rewrite Hl1, (proj1 Hreg)|done].
    + rewrite Hget. do 3 f_equal; lia.
    + intros s Hs'. rewrite (slice_ext _ 8 b1 buf); [by apply Hseq|].
      intros p Hp. apply Hfr.
      apply (slot_range_above_metadata self s p Hwf Hfifo). unfold in_range.
      pose proof (slot_size_min self Hwf). lia.
    + intros m d' Hm Hd'. apply (slot_holds_ext self buf b1 _ _ Hwf).
      * intros p Hp. apply Hfr. by eapply slot_range_above_metadata.
      * apply Hpend; [lia|done].
  - apply lookup_ge_None in Hd. assert (length hist - r = 0) as Hz by lia.
    rewrite Hz in Hmeta.
    apply (ring_read_none self fuel 0 false buf _ _ Hwf Hfifo Hmeta). lia.
Qed.

Lemma publish_all_spec self updates : forall hist buf,
  wf_handle self -> is_fifo self = true -> NoDup (dataclass_type self).*1 ->
  _write_buffer self = ∅ -> _write_buffer_dirty self = false ->
  (Z.of_nat (length buf) < 2 ^ 32)%Z ->
  (Z.of_nat (length hist + length updates) < 2 ^ 64)%Z ->
  Forall (fits_update self) updates ->
  ring_inv self buf hist (length hist - length hist `min` slots self) ->
  exists buf',
    fold_enumerate (fun _ d self => publish self d) (length hist) updates self buf
      = (Ok self, buf') /\
    length buf' = length buf /\
    ring_inv self buf' (hist ++ updates)
      (length (hist ++ updates) - length (hist ++ updates) `min` slots self).
Proof.
  induction updates as [|d updates IH];
    intros hist buf Hwf Hfifo Hnd Hclean Hdirty Hsmall Hcount Hfits Hinv.
  - exists buf. rewrite app_nil_r. done.
  - apply Forall_cons in Hfits as [Hd Hfits]. simpl in Hcount.
    destruct (publish_step self buf hist _ d Hwf Hfifo Hnd Hclean Hdirty Hsmall
                ltac:(lia) Hd Hinv) as (b1 & Hpub & Hl1 & Hinv1).
    destruct (IH (hist ++ [d]) b1 Hwf Hfifo Hnd Hclean Hdirty)
      as (b2 & Hrun & Hl2 & Hinv2); try done.
    { lia. }
    { rewrite length_app. simpl. lia. }
    { rewrite length_app. cbn [length].
      replace (length hist + 1 - (length hist + 1) `min` slots self)
        with (after_commit (slots self) (length hist)
                (length hist - length hist `min` slots self)); [done|].
      unfold after_commit. case_decide; lia. }
    exists b2. cbn [fold_enumerate]. rewrite (bind_ok _ _ _ _ _ Hpub).
    rewrite length_app in Hrun. simpl in Hrun.
    replace (S (length hist)) with (length hist + 1) by lia.
    split; [done|]. split; [lia|]. by rewrite <- app_assoc in Hinv2.
Qed.

(** Reading a ring empty: the entries come back oldest first. *)
Lemma read_phase self fuel hist : forall c r buf,
  wf_handle self -> is_fifo self = true -> NoDup (dataclass_type self).*1 ->
  1 <= fuel -> (Z.of_nat (length buf) < 2 ^ 32)%Z ->
  length hist = r + c ->
  ring_inv self buf hist r ->
  exists rs buf',
    read_n self fuel 0 false (S c) buf
      = (((fun rec => Ok (Some rec)) <$> rs) ++ [Ok None], buf') /\
    Forall2 (record_has self) (drop r hist) rs.
Proof.
  induction c as [|c IH]; intros r buf Hwf Hfifo Hnd Hfuel Hsmall Hlen Hinv;
    pose proof (consume_step self fuel buf hist r Hwf Hfifo Hnd Hfuel Hsmall Hinv)
      as Hstep.
  - rewrite lookup_ge_None_2 in Hstep by lia.
    exists [], buf. split; [cbn [read_n]; by rewrite Hstep|].
    rewrite drop_ge by lia. constructor.
  - destruct (lookup_lt_is_Some_2 hist r ltac:(lia)) as [d Hd]. rewrite Hd in Hstep.
    destruct Hstep as (rec & b1 & Hrd & Hhas & Hl1 & Hinv1).
    destruct (IH (S r) b1 Hwf Hfifo Hnd Hfuel ltac:(lia) ltac:(lia) Hinv1)
      as (rs & b2 & Hrun & Hall).
    exists (rec :: rs), b2. split.
    + change (read_n self fuel 0 false (S (S c)) buf)
        with (let '(r0, buf1) := read self fuel 0 false false buf in
              let '(rs0, buf2) := read_n self fuel 0 false (S c) buf1 in
              (r0 :: rs0, buf2)).
      rewrite Hrd, Hrun. done.
    + rewrite (drop_S _ _ _ Hd). by constructor.
Qed.

Lemma created_ring_inv dc nslots buf0 self buf :
  (1 < nslots)%Z -> NoDup dc.*1 ->
  __init__ dc nslots true buf0 = (Ok self, buf) ->
  wf_handle self /\ is_fifo self = true /\ NoDup (dataclass_type self).*1 /\
  _write_buffer self = ∅ /\ _write_buffer_dirty self = false /\
  slots self = Z.to_nat nslots /\
  ring_inv self buf [] 0.
Proof.
  intros Hn Hnd Hinit.
  destruct (init_spec _ _ _ _ _ _ Hinit)
    as (Hwf & Hdc & Hslots & Hclean & Hdirty & _ & Hcreate).
  destruct (Hcreate eq_refl) as (Hreg & Hfresh & Hmeta).
  assert (is_fifo self = true) as Hfifo.
  { rewrite (wf_is_fifo _ Hwf). apply bool_decide_eq_true. lia. }
  rewrite <- Hdc in Hnd.
  split; [done|]. split; [done|]. split; [done|]. split; [done|].
  split; [done|]. split; [lia|].
  split; [done|]. split; [simpl; lia|]. split; [done|].
  split; [by rewrite (Hmeta Hfifo)|]. split.
  - intros s Hs. destruct (Hfresh s Hs) as (-> & _). done.
  - intros m d _ Hd. by rewrite lookup_nil in Hd.
Qed.

(** X25.  The ring is a queue that keeps the newest entries.  On a ring as
    [__init__] creates it (below 4 GiB), after any number of updates, each
    with values that fit their fields, were written and finalized in turn,
    the reads that follow return the last [slots] of them (all of them, if
    there were fewer), oldest first and each with its values valid and
    modified, and then no data. *)
Theorem ring_fifo_order dc nslots buf0 self buf updates fuel :
  (1 < nslots)%Z -> NoDup dc.*1 ->
  __init__ dc nslots true buf0 = (Ok self, buf) ->
  (Z.of_nat (length buf) < 2 ^ 32)%Z ->
  (Z.of_nat (length updates) < 2 ^ 64)%Z ->
  Forall (fits_update self) updates ->
  1 <= fuel ->
  let pending := drop (length updates - Z.to_nat nslots) updates in
  exists buf' rs buf'',
    publish_all updates self buf = (Ok self, buf') /\
    read_n self fuel 0 false (S (length pending)) buf'
      = (((fun rec => Ok (Some rec)) <$> rs) ++ [Ok None], buf'') /\
    Forall2 (record_has self) pending rs.
Proof.
  intros Hn Hnd Hinit Hsmall Hcount Hfits Hfuel pending.
  destruct (created_ring_inv dc nslots buf0 self buf Hn Hnd Hinit)
    as (Hwf & Hfifo & Hnd' & Hclean & Hdirty & HN & Hinv).
  destruct (publish_all_spec self updates [] buf Hwf Hfifo Hnd' Hclean Hdirty Hsmall
              Hcount Hfits Hinv) as (buf' & Hrun & Hl' & Hinv').
  cbn [app] in Hinv'.
  set (K := length updates) in *. set (N := slots self) in *.
  assert (length pending = K `min` N) as Hlp.
  { subst pending. rewrite length_drop, <- HN. fold K. lia. }
  destruct (read_phase self fuel updates (K `min` N) (K - K `min` N) buf'
              Hwf Hfifo Hnd' Hfuel ltac:(lia) ltac:(fold K; lia) Hinv')
    as (rs & buf'' & Hreads & Hall).
  exists buf', rs, buf''. split; [exact Hrun|]. rewrite Hlp. split; [exact Hreads|].
  subst pending. rewrite <- HN.
  replace (K - N) with (K - K `min` N) by lia. exact Hall.
Qed.

Lemma ring_fifo_order_witness :
  let updates : list (gmap string pyvalue) :=
    [{["v"%string := PyFloat (f64_of_Z 0)]}; {["v"%string := PyFloat (f64_of_Z 1)]};
     {["v"%string := PyFloat (f64_of_Z 2)]}; {["v"%string := PyFloat (f64_of_Z 3)]};
     {["v"%string := PyFloat (f64_of_Z 4)]}] in
  let pending := drop (length updates - Z.to_nat 3) updates in
  exists buf' rs buf'',
    publish_all updates v_ring3 v_ring3_fresh = (Ok v_ring3, buf') /\
    read_n v_ring3 1 0 false (S (length pending)) buf'
      = (((fun rec => Ok (Some rec)) <$> rs) ++ [Ok None], buf'') /\
    Forall2 (record_has v_ring3) pending rs.
Proof.
  apply (ring_fifo_order v_dataclass 3 [] v_ring3 v_ring3_fresh).
  - lia.
  - apply (bool_decide_eq_true_1 _). vm_compute. reflexivity.
  - vm_compute. reflexivity.
  - vm_compute. reflexivity.
  - vm_compute. reflexivity.
  - repeat constructor; intros k g u Hg Hu;
      (destruct k as [|k]; vm_compute in Hg; inversion Hg; subst g;
       vm_compute in Hu; inversion Hu; subst u; vm_compute; done).
  - lia.
Defined.

(** ** The ring under any interleaving *)

(** What producer and consumer do, and what a queue of [nslots] places that
    drops its oldest entry when full answers: the state is the list of
    updates committed so far and the number of them consumed or dropped. *)
Inductive queue_op : Type :=
| QPublish (d : gmap string pyvalue)
| QRead.

(** The ring does what the queue does: every publish completes, every read
    returns a record with the values of the update the queue returns, or no
    data when the queue is empty. *)
Fixpoint ring_refines_queue (self : SharedMemory) (fuel : nat)
    (ops : list queue_op) (hist : list (gmap string pyvalue)) (r : nat)
    (buf : list Z) : Prop :=
  match ops with
  | [] => True
  | QPublish d :: ops =>
      exists buf',
        publish self d buf = (Ok self, buf') /\
        ring_refines_queue self fuel ops (hist ++ [d])
          (after_commit (slots self) (length hist) r) buf'
  | QRead :: ops =>
      match hist !! r with
      | Some d =>
          exists rec buf',
            read self fuel 0 false false buf = (Ok (Some rec), buf') /\
            record_has self d rec /\
            ring_refines_queue self fuel ops hist (S r) buf'
      | None =>
          read self fuel 0 false false buf = (Ok None, buf) /\
          ring_refines_queue self fuel ops hist r buf
      end
  end.

(** The updates among the operations. *)
Definition published (ops : list queue_op) : list (gmap string pyvalue) :=
  omap (fun op => match op with QPublish d => Some d | QRead => None end) ops.

Lemma ring_refines_queue_spec self fuel ops : forall hist r buf,
  wf_handle self -> is_fifo self = true -> NoDup (dataclass_type self).*1 ->
  _write_buffer self = ∅ -> _write_buffer_dirty self = false ->
  1 <= fuel -> (Z.of_nat (length buf) < 2 ^ 32)%Z ->
  (Z.of_nat (length hist + length (published ops)) < 2 ^ 64)%Z ->
  Forall (fits_update self) (published ops) ->
  ring_inv self buf hist r ->
  ring_refines_queue self fuel ops hist r buf.
Proof.
  induction ops as [|[d|] ops IH];
    intros hist r buf Hwf Hfifo Hnd Hclean Hdirty Hfuel Hsmall Hcount Hfits Hinv;
    cbn [ring_refines_queue]; [done| |].
  - change (published (QPublish d :: ops)) with (d :: published ops)
      in Hcount, Hfits.
    apply Forall_cons in Hfits as [Hd Hfits]. simpl in Hcount.
    destruct (publish_step self buf hist r d Hwf Hfifo Hnd Hclean Hdirty Hsmall
                ltac:(lia) Hd Hinv) as (b1 & Hpub & Hl1 & Hinv1).
    exists b1. split; [done|]. apply IH; try done.
    + lia.
    + rewrite length_app. simpl. lia.
  - change (published (QRead :: ops)) with (published ops) in Hcount, Hfits.
    pose proof (consume_step self fuel buf hist r Hwf Hfifo Hnd Hfuel Hsmall Hinv)
      as Hstep.
    destruct (hist !! r) as [d|].
    + destruct Hstep as (rec & b1 & Hrd & Hhas & Hl1 & Hinv1).
      exists rec, b1. split; [done|]. split; [done|]. apply IH; try done. lia.
    + split; [done|]. by apply IH.
Qed.

(** X26.  A ring as [__init__] creates it (below 4 GiB) behaves as a queue
    with [slots] places that drops its oldest entry when a commit finds it
    full, under every interleaving of commits and reads by one producer and
    one consumer: every write with [finalize] of values that fit their
    fields completes, and every read returns a record with the values of
    the oldest update that was neither read nor dropped, or no data when
    there is none. *)
Theorem ring_is_bounded_queue dc nslots buf0 self buf ops fuel :
  (1 < nslots)%Z -> NoDup dc.*1 ->
  __init__ dc nslots true buf0 = (Ok self, buf) ->
  (Z.of_nat (length buf) < 2 ^ 32)%Z ->
  (Z.of_nat (length (published ops)) < 2 ^ 64)%Z ->
  Forall (fits_update self) (published ops) ->
  1 <= fuel ->
  ring_refines_queue self fuel ops [] 0 buf.
Proof.
  intros Hn Hnd Hinit Hsmall Hcount Hfits Hfuel.
  destruct (created_ring_inv dc nslots buf0 self buf Hn Hnd Hinit)
    as (Hwf & Hfifo & Hnd' & Hclean & Hdirty & _ & Hinv).
  by apply ring_refines_queue_spec.
Qed.

Lemma ring_is_bounded_queue_witness :
  ring_refines_queue v_ring3 1
    [QPublish {["v"%string := PyFloat (f64_of_Z 1)]}; QRead; QRead;
     QPublish {["v"%string := PyFloat (f64_of_Z 2)]};
     QPublish {["v"%string := PyFloat (f64_of_Z 3)]}; QRead]
    [] 0 v_ring3_fresh.
Proof.
  apply (ring_is_bounded_queue v_dataclass 3 [] v_ring3 v_ring3_fresh).
  - lia.
  - apply (bool_decide_eq_true_1 _). vm_compute. reflexivity.
  - vm_compute. reflexivity.
  - vm_compute. reflexivity.
  - vm_compute. reflexivity.
  - repeat constructor; intros k g u Hg Hu;
      (destruct k as [|k]; vm_compute in Hg; inversion Hg; subst g;
       vm_compute in Hu; inversion Hu; subst u; vm_compute; done).
  - lia.
Defined.

(** ** Partial updates of a single slot *)

(** X27.  On a single-slot region (below 4 GiB), after two writes of values
    that fit their fields, a read returns for every field of the second
    write its value, valid and modified, and for every field that only the
    first write named the value of the first write, still valid but no
    longer modified. *)
Theorem partial_update_keeps_values self buf d1 d2 fuel timeout latest :
  wf_handle self -> is_fifo self = false -> NoDup (dataclass_type self).*1 ->
  wf_region self buf -> (Z.of_nat (length buf) < 2 ^ 32)%Z ->
  (from_bytes (slice (_get_slot_offset self 0) 8 buf) + 2 < 2 ^ 64)%Z ->
  fits_update self d1 -> fits_update self d2 ->
  exists b1 b2 rec,
    write self d1 buf = (Ok self, b1) /\
    write self d2 b1 = (Ok self, b2) /\
    read self fuel timeout latest false b2 = (Ok (Some rec), b2) /\
    forall i f, fields (_layout self) !! i = Some f ->
      (forall x, d2 !! fi_name f = Some x ->
         exists vws, rec !! fi_name f = Some vws /\
           value vws = x /\ valid vws = true /\ modified vws = true) /\
      (forall x, d2 !! fi_name f = None -> d1 !! fi_name f = Some x ->
         exists vws, rec !! fi_name f = Some vws /\
           value vws = x /\ valid vws = true /\ modified vws = false).
Proof.
  intros Hwf Hfifo Hnd Hreg Hsmall Hseq Hfits1 Hfits2.
  pose proof (wf_slots _ Hwf) as Hslots.
  assert (0 < slots self) as Hs by lia.
  destruct (slot_holds_after_write self 0 d1 buf Hwf Hnd Hreg Hs Hsmall
              ltac:(lia) Hfits1) as (b1 & Hw1 & Hholds1 & Hreg1 & Hseq1 & _).
  assert (length b1 = length buf) as Hl1 by (by rewrite (proj1 Hreg1), (proj1 Hreg)).
  destruct (slot_holds_after_write self 0 d2 b1 Hwf Hnd Hreg1 Hs ltac:(lia)
              ltac:(lia) Hfits2) as (b2 & Hw2 & Hholds2 & Hreg2 & _ & _).
  assert (length b2 = length buf) as Hl2 by (by rewrite (proj1 Hreg2), (proj1 Hreg)).
  destruct (slot_holds_read self b2 0 d2 Hwf Hnd Hreg2 Hs ltac:(lia) Hholds2)
    as (rec & Hread & Hhas).
  exists b1, b2, rec. unfold write, read. rewrite Hfifo. cbn [andb].
  split; [by rewrite (bind_ok _ _ _ _ _ Hw1)|].
  split; [by rewrite (bind_ok _ _ _ _ _ Hw2)|].
  split.
  { destruct timeout; cbn [_read_single]; by rewrite (bind_ok _ _ _ _ _ Hread). }
  intros i f Hf. split; [intros x Hx; by eapply Hhas|].
  intros x Hnone Hx.
  destruct Hholds1 as [_ Hfields1].
  destruct (Hfields1 i f x Hf Hx) as (Hfit & Himg & st & Hst & Hvalid & Hmod).
  pose proof (write_skips_unnamed self 0 d2 b1 b2 i f Hwf Hw2 Hf Hnone) as Hskip.
  cbv zeta in Hskip.
  destruct Hskip as (Hbody & st0 & st' & Hst0 & Hst' & Hm' & Ht' & Hu').
  rewrite Hst in Hst0. injection Hst0 as <-.
  assert (_get_slot_offset self 0 + _slot_size self <= length b2) as Hlen.
  { rewrite (proj1 Hreg2). by apply slot_in_region. }
  destruct (read_from_slot_spec self Hwf 0 false b2 Hlen (proj2 Hreg2)
              (proj1 Hholds2)) as (rec' & b & Hread' & Hsame & _ & _ & Hlast).
  rewrite (Hsame eq_refl) in Hread'. rewrite Hread in Hread'.
  injection Hread' as <-.
  destruct (Hlast i f Hf (later_names_differ self Hwf i f Hnd Hf))
    as (vws & Hrec & Hstv & Hrv).
  rewrite Hst' in Hstv. injection Hstv as Hstv.
  exists vws. split; [done|].
  destruct (field_small self Hwf 0 buf i f Hs Hreg Hsmall Hf) as [Hfsmall _].
  pose proof (Forall_lookup_1 _ _ _ _ (layout_fields_kind self Hwf) Hf) as Hkind.
  destruct (layout_field_bounds self Hwf i f Hf) as [Hlo Hhi].
  destruct (fits_read_back (_get_slot_offset self 0 + fi_offset f) f x b2
              Hkind Hfit Hfsmall) as (img & Hi & Hback).
  pose proof (image_within_field f x img false Hkind Hi) as Hle.
  assert (slice (_get_slot_offset self 0 + fi_offset f) (length img) b2 = img)
    as Hslice.
  { etrans; [|apply (Himg img false Hi)]. apply slice_ext. intros p Hp.
    apply Hbody. lia. }
  rewrite (Hback Hslice ltac:(lia)) in Hrv. injection Hrv as Hrv.
  split; [done|]. unfold valid, modified. rewrite <- Hstv.
  split; [|done]. unfold is_valid in *. by rewrite Ht', Hu'.
Qed.

Lemma partial_update_keeps_values_witness :
  let d1 : gmap string pyvalue := {["v"%string := PyFloat (f64_of_Z 1)]} in
  let d2 : gmap string pyvalue := {["n"%string := PyInt 5]} in
  exists b1 b2 rec,
    write vn_single d1 vn_fresh = (Ok vn_single, b1) /\
    write vn_single d2 b1 = (Ok vn_single, b2) /\
    read vn_single 0 0 false false b2 = (Ok (Some rec), b2) /\
    forall i f, fields (_layout vn_single) !! i = Some f ->
      (forall x, d2 !! fi_name f = Some x ->
         exists vws, rec !! fi_name f = Some vws /\
           value vws = x /\ valid vws = true /\ modified vws = true) /\
      (forall x, d2 !! fi_name f = None -> d1 !! fi_name f = Some x ->
         exists vws, rec !! fi_name f = Some vws /\
           value vws = x /\ valid vws = true /\ modified vws = false).
Proof.
  apply (partial_update_keeps_values vn_single vn_fresh
           {["v"%string := PyFloat (f64_of_Z 1)]} {["n"%string := PyInt 5]}
           0 0 false vn_single_wf).
  - reflexivity.
  - apply (bool_decide_eq_true_1 _). vm_compute. reflexivity.
  - split; [reflexivity|]. apply all_bytes_check. vm_compute. reflexivity.
  - vm_compute. reflexivity.
  - vm_compute. reflexivity.
  - intros k g u Hg Hu.
    destruct k as [|[|k]]; vm_compute in Hg; inversion Hg; subst g;
      vm_compute in Hu; inversion Hu; subst u; vm_compute; try done.
  - intros k g u Hg Hu.
    destruct k as [|[|k]]; vm_compute in Hg; inversion Hg; subst g;
      vm_compute in Hu; inversion Hu; subst u; vm_compute; try done.
Defined.
